(** * A central limit order book, its matching engine and its risk ledger

    Shallow embedding of the C++ sources [core/types.hpp], [core/order.hpp],
    [core/trade.hpp], [engine/price_level.hpp], [engine/order_book.hpp],
    [engine/matching_engine.hpp] and [risk/risk_manager.hpp].

    Conventions of the embedding.
    - [uint64_t] and [int64_t] values are integers of [Z]; every arithmetic
      operation of the source is followed by its wrap-around ([u64], [i64]).
    - [double] is IEEE binary64, the kernel's primitive [float].
    - [std::shared_ptr<Order>] is a handle ([ptr]) into a store of order
      objects ([gmap ptr Order.t]); the id-index and the price-level queues
      hold handles, so that a mutation through one is seen through the other.
    - [std::map<Price, PriceLevel, Cmp>] and the unordered maps are finite maps;
      the iteration order of an ordered map is recovered by [in_order], and
      the order in which a loop walks an unordered map, which the source
      leaves open, is an argument of the loop ([RiskManager.iteration]).
    - An operation returns [None] where the C++ run has no defined result: a
      handle that is not in the store is dereferenced, an exception escapes,
      or a loop is cut off by its iteration bound.
    - The timestamps of [Order] and [Trade] are read from the system clock and
      are read back by none of the modelled operations; they are left out,
      and so are the calls to the process-wide logger.
    - Text the source repeats is written once: [MatchingEngine.execute] is
      the body shared by the four matching loops, [OrderBook.removeFromSide]
      the body of the two removal helpers, and [RiskManager.applyTrade] the
      four branches of [updatePosition] on one position. *)

From Stdlib Require Import ZArith Floats.
From stdpp Require Import gmap strings list sorting.

Local Open Scope Z_scope.

(** ** core/types.hpp *)

Inductive Side := BUY | SELL.
Inductive OrderType := MARKET | LIMIT | STOP | STOP_LIMIT.
Inductive OrderStatus := NEW | PARTIALLY_FILLED | FILLED | CANCELLED | REJECTED.

#[global] Instance Side_eq_dec : EqDecision Side.
Proof. solve_decision. Defined.
#[global] Instance OrderType_eq_dec : EqDecision OrderType.
Proof. solve_decision. Defined.
#[global] Instance OrderStatus_eq_dec : EqDecision OrderStatus.
Proof. solve_decision. Defined.

(** Wrap-around of the 64-bit unsigned and signed integers. *)
Definition u64 (z : Z) : Z := z mod 2 ^ 64.
Definition i64 (z : Z) : Z := (z + 2 ^ 63) mod 2 ^ 64 - 2 ^ 63.

(** [std::abs] on [int64_t]; at [INT64_MIN] the source is undefined and the
    model wraps. *)
Definition abs64 (z : Z) : Z := i64 (Z.abs z).

(** Conversion of an integer to [double], rounding to nearest even. *)
Definition Z2double (z : Z) : float :=
  SF2Prim (binary_normalize prec emax z 0 false).

(** [a > b] and [a < b] on [double]; both are false on a NaN. *)
Definition dgt (a b : float) : bool := PrimFloat.ltb b a.
Definition dlt (a b : float) : bool := PrimFloat.ltb a b.

Definition priceToDouble (price : Z) : float :=
  PrimFloat.div (Z2double price) (Z2double 100).

(** Conversion of a [double] to an integer: the fraction is dropped
    (rounding towards zero).  [None] on a NaN or an infinity. *)
Definition double2Z (d : float) : option Z :=
  match Prim2SF d with
  | S754_zero _ => Some 0
  | S754_finite sign m e =>
      let v := if 0 <=? e then Z.pos m * 2 ^ e else Z.pos m / 2 ^ (- e) in
      Some (if sign then - v else v)
  | _ => None
  end.

(** [static_cast<Price>(price * 100.0)]; the cast has no defined result
    when the product does not fit [int64_t]. *)
Definition doubleToPrice (price : float) : option Z :=
  v ← double2Z (PrimFloat.mul price (Z2double 100));
  if (- 2 ^ 63 <=? v) && (v <? 2 ^ 63) then Some v else None.

#[global] Arguments u64 : simpl never.
#[global] Arguments i64 : simpl never.
#[global] Arguments abs64 : simpl never.
#[global] Arguments Z2double : simpl never.
#[global] Arguments priceToDouble : simpl never.

(** Handles of shared order objects. *)
Abbreviation ptr := positive (only parsing).

(** ** core/order.hpp *)

Module Order.

Record t := mk {
  id_ : Z;
  symbol_ : string;
  side_ : Side;
  type_ : OrderType;
  price_ : Z;
  quantity_ : Z;
  remainingQuantity_ : Z;
  status_ : OrderStatus
}.

(** Constructor for limit orders. *)
Definition make (id : Z) (symbol : string) (side : Side) (type : OrderType)
    (price quantity : Z) : t :=
  mk id symbol side type price quantity quantity NEW.

(** Constructor for market orders (no price). *)
Definition make_market (id : Z) (symbol : string) (side : Side)
    (quantity : Z) : t :=
  mk id symbol side MARKET 0 quantity quantity NEW.

Definition setStatus (status : OrderStatus) (o : t) : t :=
  mk (id_ o) (symbol_ o) (side_ o) (type_ o) (price_ o) (quantity_ o)
     (remainingQuantity_ o) status.

Definition fillQuantity (qty : Z) (o : t) : t :=
  let qty := if qty >? remainingQuantity_ o then remainingQuantity_ o else qty in
  let rem := u64 (remainingQuantity_ o - qty) in
  mk (id_ o) (symbol_ o) (side_ o) (type_ o) (price_ o) (quantity_ o) rem
     (if rem =? 0 then FILLED else PARTIALLY_FILLED).

Definition cancel (o : t) : t :=
  mk (id_ o) (symbol_ o) (side_ o) (type_ o) (price_ o) (quantity_ o) 0
     CANCELLED.

Definition isActive (o : t) : bool :=
  bool_decide (status_ o = NEW) || bool_decide (status_ o = PARTIALLY_FILLED).

(** Whether the order can match with another order. *)
Definition canMatch (o other : t) : bool :=
  if bool_decide (side_ o = side_ other) then false
  else if negb (String.eqb (symbol_ o) (symbol_ other)) then false
  else if (remainingQuantity_ o =? 0) || (remainingQuantity_ other =? 0) then false
  else if bool_decide (type_ o = MARKET) || bool_decide (type_ other = MARKET) then true
  else
    match side_ o with
    | BUY => price_ o >=? price_ other
    | SELL => price_ o <=? price_ other
    end.

End Order.

(** The store of order objects reachable through shared pointers. *)
Abbreviation heap := (gmap positive Order.t) (only parsing).

(** ** core/trade.hpp *)

Module Trade.

Record t := mk {
  buyOrderId_ : Z;
  sellOrderId_ : Z;
  symbol_ : string;
  price_ : Z;
  quantity_ : Z
}.

Definition getValue (tr : t) : float :=
  PrimFloat.mul (priceToDouble (price_ tr)) (Z2double (quantity_ tr)).

Definition involvesOrder (orderId : Z) (tr : t) : bool :=
  (buyOrderId_ tr =? orderId) || (sellOrderId_ tr =? orderId).

Definition getAggressorOrderId (buyWasAggressor : bool) (tr : t) : Z :=
  if buyWasAggressor then buyOrderId_ tr else sellOrderId_ tr.

End Trade.

(** ** engine/price_level.hpp *)

Module PriceLevel.

Record t := mk {
  price_ : Z;
  totalQuantity_ : Z;
  orders_ : list ptr  (* FIFO queue, front first *)
}.

Definition make (price : Z) : t := mk price 0 [].

(** [std::find_if] over the queue with the predicate
    [order->getId() == orderId]: the position of the first match. *)
Fixpoint find_if (h : heap) (orderId : Z) (q : list ptr) : option (option nat) :=
  match q with
  | [] => Some None
  | p :: q' =>
      o ← h !! p;
      if Order.id_ o =? orderId then Some (Some 0%nat)
      else it ← find_if h orderId q'; Some (option_map S it)
  end.

(** Throws when the order's price is not the level's. *)
Definition addOrder (h : heap) (order : ptr) (l : t) : option t :=
  o ← h !! order;
  if negb (Order.price_ o =? price_ l) then None
  else Some (mk (price_ l)
                (u64 (totalQuantity_ l + Order.remainingQuantity_ o))
                (orders_ l ++ [order])).

Definition removeOrder (h : heap) (orderId : Z) (l : t) : option (bool * t) :=
  it ← find_if h orderId (orders_ l);
  match it with
  | Some i =>
      p ← orders_ l !! i;
      o ← h !! p;
      Some (true, mk (price_ l)
                     (u64 (totalQuantity_ l - Order.remainingQuantity_ o))
                     (delete i (orders_ l)))
  | None => Some (false, l)
  end.

Definition getFrontOrder (l : t) : option ptr := head (orders_ l).
Definition getTotalQuantity (l : t) : Z := totalQuantity_ l.
Definition getPrice (l : t) : Z := price_ l.
Definition isEmpty (l : t) : bool := bool_decide (orders_ l = []).
Definition getOrderCount (l : t) : nat := length (orders_ l).

(** Update of the cached total after a fill of [filledQty] on the order
    with id [orderId]; the order leaves the queue when nothing remains of
    it. *)
Definition updateQuantity (h : heap) (orderId filledQty : Z) (l : t) : option t :=
  it ← find_if h orderId (orders_ l);
  match it with
  | Some i =>
      p ← orders_ l !! i;
      o ← h !! p;
      Some (mk (price_ l) (u64 (totalQuantity_ l - filledQty))
               (if Order.remainingQuantity_ o =? 0 then delete i (orders_ l)
                else orders_ l))
  | None => Some l
  end.

End PriceLevel.

(** ** engine/order_book.hpp *)

(** Iteration order of a [std::map<Price, V, Cmp>]: the entries sorted by
    key, [before k1 k2] telling that [k1] comes first. *)
Fixpoint insert_in_order {V} (before : Z → Z → bool) (kv : Z * V)
    (l : list (Z * V)) : list (Z * V) :=
  match l with
  | [] => [kv]
  | kv' :: l' =>
      if before kv.1 kv'.1 then kv :: l
      else kv' :: insert_in_order before kv l'
  end.

Definition in_order {V} (before : Z → Z → bool) (m : gmap Z V) : list (Z * V) :=
  foldr (insert_in_order before) [] (map_to_list m).

Module OrderBook.

Record t := mk {
  symbol_ : string;
  bids_ : gmap Z PriceLevel.t;   (* std::greater: highest price first *)
  asks_ : gmap Z PriceLevel.t;   (* std::less: lowest price first *)
  orderMap_ : gmap Z positive
}.

Definition make (symbol : string) : t := mk symbol ∅ ∅ ∅.

Definition bids_in_order (b : t) : list (Z * PriceLevel.t) :=
  in_order Z.gtb (bids_ b).
Definition asks_in_order (b : t) : list (Z * PriceLevel.t) :=
  in_order Z.ltb (asks_ b).

Definition addToBidSide (h : heap) (order : ptr) (b : t) : option t :=
  o ← h !! order;
  let price := Order.price_ o in
  let level := default (PriceLevel.make price) (bids_ b !! price) in
  level' ← PriceLevel.addOrder h order level;
  Some (mk (symbol_ b) (<[price := level']> (bids_ b)) (asks_ b) (orderMap_ b)).

Definition addToAskSide (h : heap) (order : ptr) (b : t) : option t :=
  o ← h !! order;
  let price := Order.price_ o in
  let level := default (PriceLevel.make price) (asks_ b !! price) in
  level' ← PriceLevel.addOrder h order level;
  Some (mk (symbol_ b) (bids_ b) (<[price := level']> (asks_ b)) (orderMap_ b)).

(** The level found at [price] loses the order and is erased when that
    leaves it empty. *)
Definition removeFromSide (h : heap) (orderId price : Z)
    (side : gmap Z PriceLevel.t) : option (gmap Z PriceLevel.t) :=
  match side !! price with
  | Some level =>
      '(_, level') ← PriceLevel.removeOrder h orderId level;
      if PriceLevel.isEmpty level' then Some (delete price side)
      else Some (<[price := level']> side)
  | None => Some side
  end.

Definition removeFromBidSide (h : heap) (orderId price : Z) (b : t) : option t :=
  bids' ← removeFromSide h orderId price (bids_ b);
  Some (mk (symbol_ b) bids' (asks_ b) (orderMap_ b)).

Definition removeFromAskSide (h : heap) (orderId price : Z) (b : t) : option t :=
  asks' ← removeFromSide h orderId price (asks_ b);
  Some (mk (symbol_ b) (bids_ b) asks' (orderMap_ b)).

Definition addOrder (h : heap) (order : ptr) (b : t) : option (bool * t) :=
  o ← h !! order;
  if negb (String.eqb (Order.symbol_ o) (symbol_ b)) then Some (false, b)
  else
    let orderId := Order.id_ o in
    match orderMap_ b !! orderId with
    | Some _ => Some (false, b)
    | None =>
        b1 ← match Order.side_ o with
             | BUY => addToBidSide h order b
             | SELL => addToAskSide h order b
             end;
        Some (true, mk (symbol_ b1) (bids_ b1) (asks_ b1)
                       (<[orderId := order]> (orderMap_ b1)))
    end.

Definition cancelOrder (orderId : Z) (h : heap) (b : t)
    : option (bool * gmap positive Order.t * t) :=
  match orderMap_ b !! orderId with
  | None => Some (false, h, b)
  | Some order =>
      o ← h !! order;
      let h1 := <[order := Order.cancel o]> h in
      o1 ← h1 !! order;
      let price := Order.price_ o1 in
      b1 ← match Order.side_ o1 with
           | BUY => removeFromBidSide h1 orderId price b
           | SELL => removeFromAskSide h1 orderId price b
           end;
      Some (true, h1, mk (symbol_ b1) (bids_ b1) (asks_ b1)
                         (delete orderId (orderMap_ b1)))
  end.

(** Cancel and replace: the replacement is a new order object with the
    same id, allocated at a handle the store does not use yet. *)
Definition modifyOrder (orderId newPrice newQuantity : Z) (h : heap) (b : t)
    : option (bool * gmap positive Order.t * t) :=
  match orderMap_ b !! orderId with
  | None => Some (false, h, b)
  | Some oldOrder =>
      old ← h !! oldOrder;
      let newOrder := fresh (dom h) in
      let h1 := <[newOrder := Order.make orderId (Order.symbol_ old)
                    (Order.side_ old) (Order.type_ old) newPrice newQuantity]> h in
      '(_, h2, b2) ← cancelOrder orderId h1 b;
      '(r, b3) ← addOrder h2 newOrder b2;
      Some (r, h2, b3)
  end.

Definition getBestBid (b : t) : option Z := fst <$> head (bids_in_order b).
Definition getBestAsk (b : t) : option Z := fst <$> head (asks_in_order b).

Definition getSpread (b : t) : option Z :=
  match getBestBid b, getBestAsk b with
  | Some bid, Some ask => Some (i64 (ask - bid))
  | _, _ => None
  end.

Definition getOrder (orderId : Z) (b : t) : option ptr := orderMap_ b !! orderId.

Definition getTotalBidQuantity (b : t) : Z :=
  foldl (λ total kv, u64 (total + PriceLevel.getTotalQuantity kv.2)) 0
        (bids_in_order b).
Definition getTotalAskQuantity (b : t) : Z :=
  foldl (λ total kv, u64 (total + PriceLevel.getTotalQuantity kv.2)) 0
        (asks_in_order b).

Record DepthLevel := mkDepth {
  price : Z;
  quantity : Z;
  orderCount : nat
}.

Definition depth_of (kv : Z * PriceLevel.t) : DepthLevel :=
  mkDepth kv.1 (PriceLevel.getTotalQuantity kv.2) (PriceLevel.getOrderCount kv.2).

Definition getBidDepth (levels : nat) (b : t) : list DepthLevel :=
  depth_of <$> take levels (bids_in_order b).
Definition getAskDepth (levels : nat) (b : t) : list DepthLevel :=
  depth_of <$> take levels (asks_in_order b).

Definition getMidPrice (b : t) : option float :=
  match getBestBid b, getBestAsk b with
  | Some bid, Some ask =>
      Some (PrimFloat.div (priceToDouble (i64 (bid + ask))) (Z2double 2))
  | _, _ => None
  end.

Record BookStats := mkBookStats {
  totalOrders : nat;
  bidLevels : nat;
  askLevels : nat;
  totalBidQty : Z;
  totalAskQty : Z
}.

Definition getStats (b : t) : BookStats :=
  mkBookStats (size (orderMap_ b)) (size (bids_ b)) (size (asks_ b))
              (getTotalBidQuantity b) (getTotalAskQuantity b).

End OrderBook.

(** ** engine/matching_engine.hpp *)

Module MatchingEngine.

Record MatchingStats := mkStats {
  totalTrades : Z;
  totalVolume : Z;
  totalValue : float;
  marketOrdersMatched : Z;
  limitOrdersMatched : Z
}.

(** What the two callback slots are called with, in call order.  An order
    update carries the handle and the order as it is at the call. *)
Inductive event :=
| TradeEvent (tr : Trade.t)
| OrderUpdateEvent (order : ptr) (o : Order.t).

(** A callback slot is empty ([false]) or holds a function ([true]); the
    function is an observer, known by the calls it receives. *)
Record t := mk {
  orderBook_ : OrderBook.t;
  symbol_ : string;
  nextOrderId_ : Z;
  stats_ : MatchingStats;
  tradeCallback_ : bool;
  orderUpdateCallback_ : bool
}.

Definition make (symbol : string) : t :=
  mk (OrderBook.make symbol) symbol 1 (mkStats 0 0 (Z2double 0) 0 0) false false.

(** The engine, the order objects it shares with its caller, and the calls
    its callbacks have received. *)
Record state := mkState {
  store : gmap positive Order.t;
  engine : t;
  trace : list event
}.

Definition set_book (b : OrderBook.t) (e : t) : t :=
  mk b (symbol_ e) (nextOrderId_ e) (stats_ e) (tradeCallback_ e)
     (orderUpdateCallback_ e).
Definition set_stats (st : MatchingStats) (e : t) : t :=
  mk (orderBook_ e) (symbol_ e) (nextOrderId_ e) st (tradeCallback_ e)
     (orderUpdateCallback_ e).

Definition cancelOrder (orderId : Z) (s : state) : option (bool * state) :=
  '(r, h, b) ← OrderBook.cancelOrder orderId (store s) (orderBook_ (engine s));
  Some (r, mkState h (set_book b (engine s)) (trace s)).

Definition modifyOrder (orderId newPrice newQuantity : Z) (s : state)
    : option (bool * state) :=
  '(r, h, b) ← OrderBook.modifyOrder orderId newPrice newQuantity (store s)
                 (orderBook_ (engine s));
  Some (r, mkState h (set_book b (engine s)) (trace s)).

Definition getNextOrderId (e : t) : Z * t :=
  (nextOrderId_ e,
   mk (orderBook_ e) (symbol_ e) (u64 (nextOrderId_ e + 1)) (stats_ e)
      (tradeCallback_ e) (orderUpdateCallback_ e)).

(** Both helpers end in [return nullptr] on either branch. *)
Definition getBestBidOrder (e : t) : option ptr :=
  let bidDepth := OrderBook.getBidDepth 1 (orderBook_ e) in
  if bool_decide (bidDepth = []) then None else None.

Definition getBestAskOrder (e : t) : option ptr :=
  let askDepth := OrderBook.getAskDepth 1 (orderBook_ e) in
  if bool_decide (askDepth = []) then None else None.

Definition orderUpdate (order : ptr) (s : state) : option state :=
  if orderUpdateCallback_ (engine s) then
    o ← store s !! order;
    Some (mkState (store s) (engine s) (trace s ++ [OrderUpdateEvent order o]))
  else Some s.

(** One match of the aggressor [order] against the resting order [resting]
    at [tradePrice]: the text shared by the four matching loops, from the
    fill quantity to the order-update callback.  [aggressor] is the side of
    [order]. *)
Definition execute (aggressor : Side) (order resting : ptr)
    (tradePrice remaining : Z) (trades : list Trade.t) (s : state)
    : option (Z * list Trade.t * state) :=
  o ← store s !! order;
  r ← store s !! resting;
  let fillQty := Z.min remaining (Order.remainingQuantity_ r) in
  let trade :=
    match aggressor with
    | BUY => Trade.mk (Order.id_ o) (Order.id_ r) (symbol_ (engine s)) tradePrice fillQty
    | SELL => Trade.mk (Order.id_ r) (Order.id_ o) (symbol_ (engine s)) tradePrice fillQty
    end in
  let h1 := <[order := Order.fillQuantity fillQty o]> (store s) in
  r1 ← h1 !! resting;
  let h2 := <[resting := Order.fillQuantity fillQty r1]> h1 in
  let remaining' := u64 (remaining - fillQty) in
  r2 ← h2 !! resting;
  '(h3, b3) ←
    (if Order.remainingQuantity_ r2 =? 0 then
       '(_, h, b) ← OrderBook.cancelOrder (Order.id_ r2) h2 (orderBook_ (engine s));
       Some (h, b)
     else Some (h2, orderBook_ (engine s)));
  let st := stats_ (engine s) in
  let st' := mkStats (u64 (totalTrades st + 1)) (u64 (totalVolume st + fillQty))
               (PrimFloat.add (totalValue st) (Trade.getValue trade))
               (marketOrdersMatched st) (limitOrdersMatched st) in
  s' ← orderUpdate resting (mkState h3 (set_stats st' (set_book b3 (engine s))) (trace s));
  Some (remaining', trades ++ [trade], s').

(** The inner [while (remaining > 0)] of the market loops, at one level
    price.  [fuel] bounds the number of matches. *)
Fixpoint matchMarketBuyLevel (fuel : nat) (order : ptr) (levelPrice remaining : Z)
    (trades : list Trade.t) (s : state) : option (Z * list Trade.t * state) :=
  if remaining >? 0 then
    match OrderBook.getBestAsk (orderBook_ (engine s)) with
    | None => Some (remaining, trades, s)
    | Some bestAsk =>
        if negb (bestAsk =? levelPrice) then Some (remaining, trades, s)
        else
          match getBestAskOrder (engine s) with
          | None => Some (remaining, trades, s)
          | Some sellOrder =>
              match fuel with
              | O => None
              | S fuel' =>
                  '(remaining', trades', s') ←
                    execute BUY order sellOrder levelPrice remaining trades s;
                  matchMarketBuyLevel fuel' order levelPrice remaining' trades' s'
              end
          end
    end
  else Some (remaining, trades, s).

Fixpoint matchMarketSellLevel (fuel : nat) (order : ptr) (levelPrice remaining : Z)
    (trades : list Trade.t) (s : state) : option (Z * list Trade.t * state) :=
  if remaining >? 0 then
    match OrderBook.getBestBid (orderBook_ (engine s)) with
    | None => Some (remaining, trades, s)
    | Some bestBid =>
        if negb (bestBid =? levelPrice) then Some (remaining, trades, s)
        else
          match getBestBidOrder (engine s) with
          | None => Some (remaining, trades, s)
          | Some buyOrder =>
              match fuel with
              | O => None
              | S fuel' =>
                  '(remaining', trades', s') ←
                    execute SELL order buyOrder levelPrice remaining trades s;
                  matchMarketSellLevel fuel' order levelPrice remaining' trades' s'
              end
          end
    end
  else Some (remaining, trades, s).

(** The [for] over the depth snapshot taken before the loop. *)
Fixpoint matchMarketBuyLevels (fuel : nat) (order : ptr)
    (askDepth : list OrderBook.DepthLevel) (remaining : Z)
    (trades : list Trade.t) (s : state) : option (Z * list Trade.t * state) :=
  match askDepth with
  | [] => Some (remaining, trades, s)
  | level :: askDepth' =>
      if remaining =? 0 then Some (remaining, trades, s)
      else
        '(remaining', trades', s') ←
          matchMarketBuyLevel fuel order (OrderBook.price level) remaining trades s;
        matchMarketBuyLevels fuel order askDepth' remaining' trades' s'
  end.

Fixpoint matchMarketSellLevels (fuel : nat) (order : ptr)
    (bidDepth : list OrderBook.DepthLevel) (remaining : Z)
    (trades : list Trade.t) (s : state) : option (Z * list Trade.t * state) :=
  match bidDepth with
  | [] => Some (remaining, trades, s)
  | level :: bidDepth' =>
      if remaining =? 0 then Some (remaining, trades, s)
      else
        '(remaining', trades', s') ←
          matchMarketSellLevel fuel order (OrderBook.price level) remaining trades s;
        matchMarketSellLevels fuel order bidDepth' remaining' trades' s'
  end.

Definition matchMarketBuyOrder (fuel : nat) (order : ptr) (s : state)
    : option (list Trade.t * state) :=
  o ← store s !! order;
  let remaining := Order.remainingQuantity_ o in
  let askDepth := OrderBook.getAskDepth 100 (orderBook_ (engine s)) in
  '(_, trades, s1) ← matchMarketBuyLevels fuel order askDepth remaining [] s;
  s2 ← orderUpdate order s1;
  Some (trades, s2).

Definition matchMarketSellOrder (fuel : nat) (order : ptr) (s : state)
    : option (list Trade.t * state) :=
  o ← store s !! order;
  let remaining := Order.remainingQuantity_ o in
  let bidDepth := OrderBook.getBidDepth 100 (orderBook_ (engine s)) in
  '(_, trades, s1) ← matchMarketSellLevels fuel order bidDepth remaining [] s;
  s2 ← orderUpdate order s1;
  Some (trades, s2).

Definition matchMarketOrder (fuel : nat) (order : ptr) (s : state)
    : option (list Trade.t * state) :=
  o ← store s !! order;
  '(trades, s1) ← match Order.side_ o with
                  | BUY => matchMarketBuyOrder fuel order s
                  | SELL => matchMarketSellOrder fuel order s
                  end;
  let st := stats_ (engine s1) in
  let st' := mkStats (totalTrades st) (totalVolume st) (totalValue st)
               (u64 (marketOrdersMatched st + 1)) (limitOrdersMatched st) in
  Some (trades, mkState (store s1) (set_stats st' (engine s1)) (trace s1)).

Fixpoint matchLimitBuyLoop (fuel : nat) (order : ptr) (limitPrice remaining : Z)
    (trades : list Trade.t) (s : state) : option (list Trade.t * state) :=
  if remaining >? 0 then
    match OrderBook.getBestAsk (orderBook_ (engine s)) with
    | None => Some (trades, s)
    | Some bestAsk =>
        if bestAsk >? limitPrice then Some (trades, s)
        else
          match getBestAskOrder (engine s) with
          | None => Some (trades, s)
          | Some sellOrder =>
              match fuel with
              | O => None
              | S fuel' =>
                  '(remaining', trades', s') ←
                    execute BUY order sellOrder bestAsk remaining trades s;
                  matchLimitBuyLoop fuel' order limitPrice remaining' trades' s'
              end
          end
    end
  else Some (trades, s).

Fixpoint matchLimitSellLoop (fuel : nat) (order : ptr) (limitPrice remaining : Z)
    (trades : list Trade.t) (s : state) : option (list Trade.t * state) :=
  if remaining >? 0 then
    match OrderBook.getBestBid (orderBook_ (engine s)) with
    | None => Some (trades, s)
    | Some bestBid =>
        if bestBid <? limitPrice then Some (trades, s)
        else
          match getBestBidOrder (engine s) with
          | None => Some (trades, s)
          | Some buyOrder =>
              match fuel with
              | O => None
              | S fuel' =>
                  '(remaining', trades', s') ←
                    execute SELL order buyOrder bestBid remaining trades s;
                  matchLimitSellLoop fuel' order limitPrice remaining' trades' s'
              end
          end
    end
  else Some (trades, s).

Definition matchLimitBuyOrder (fuel : nat) (order : ptr) (s : state)
    : option (list Trade.t * state) :=
  o ← store s !! order;
  '(trades, s1) ← matchLimitBuyLoop fuel order (Order.price_ o)
                    (Order.remainingQuantity_ o) [] s;
  s2 ← orderUpdate order s1;
  Some (trades, s2).

Definition matchLimitSellOrder (fuel : nat) (order : ptr) (s : state)
    : option (list Trade.t * state) :=
  o ← store s !! order;
  '(trades, s1) ← matchLimitSellLoop fuel order (Order.price_ o)
                    (Order.remainingQuantity_ o) [] s;
  s2 ← orderUpdate order s1;
  Some (trades, s2).

Definition matchLimitOrder (fuel : nat) (order : ptr) (s : state)
    : option (list Trade.t * state) :=
  o ← store s !! order;
  '(trades, s1) ← match Order.side_ o with
                  | BUY => matchLimitBuyOrder fuel order s
                  | SELL => matchLimitSellOrder fuel order s
                  end;
  o1 ← store s1 !! order;
  b2 ← (if Order.remainingQuantity_ o1 >? 0 then
          '(_, b) ← OrderBook.addOrder (store s1) order (orderBook_ (engine s1));
          Some b
        else Some (orderBook_ (engine s1)));
  let st := stats_ (engine s1) in
  let st' := mkStats (totalTrades st) (totalVolume st) (totalValue st)
               (marketOrdersMatched st) (u64 (limitOrdersMatched st + 1)) in
  Some (trades, mkState (store s1) (set_stats st' (set_book b2 (engine s1))) (trace s1)).

(** The trade callback, called once per returned trade. *)
Definition notifyTrades (trades : list Trade.t) (s : state) : state :=
  if tradeCallback_ (engine s) then
    mkState (store s) (engine s) (trace s ++ (TradeEvent <$> trades))
  else s.

Definition submitOrder (fuel : nat) (order : ptr) (s : state)
    : option (list Trade.t * state) :=
  o ← store s !! order;
  if negb (String.eqb (Order.symbol_ o) (symbol_ (engine s))) then Some ([], s)
  else
    '(trades, s1) ← match Order.type_ o with
                    | MARKET => matchMarketOrder fuel order s
                    | LIMIT => matchLimitOrder fuel order s
                    | STOP | STOP_LIMIT => Some ([], s)
                    end;
    Some (trades, notifyTrades trades s1).

End MatchingEngine.

(** ** risk/risk_manager.hpp *)

Module RiskManager.

Record Position := mkPosition {
  symbol : string;
  quantity : Z;            (* int64_t: positive = long, negative = short *)
  averagePrice : float;
  realizedPnL : float;
  unrealizedPnL : float;
  totalBought : Z;
  totalSold : Z
}.

(** The default constructor: what [operator[]] inserts for a new key. *)
Definition Position_default : Position :=
  mkPosition "" 0 0%float 0%float 0%float 0 0.

Definition isFlat (p : Position) : bool := quantity p =? 0.

Record RiskLimits := mkLimits {
  maxOrderSize : Z;
  maxOrderValue : float;
  maxPositionSize : Z;
  maxPositionValue : float;
  maxDailyLoss : float;
  maxDrawdown : float;
  maxOrdersPerSecond : Z
}.

Definition RiskLimits_default : RiskLimits :=
  mkLimits 10000 (Z2double 1000000) 50000 (Z2double 5000000)
           (Z2double 100000) (Z2double 200000) 100.

Inductive ValidationResult :=
| ACCEPTED
| REJECTED_ORDER_SIZE
| REJECTED_ORDER_VALUE
| REJECTED_POSITION_LIMIT
| REJECTED_POSITION_VALUE
| REJECTED_DAILY_LOSS
| REJECTED_DRAWDOWN
| REJECTED_RATE_LIMIT.

Record t := mk {
  limits_ : RiskLimits;
  positions_ : gmap string Position;
  dailyPnL_ : float;
  peakEquity_ : float;
  currentEquity_ : float
}.

Definition make (limits : RiskLimits) : t :=
  mk limits ∅ 0%float 0%float 0%float.

Definition set_positions (ps : gmap string Position) (rm : t) : t :=
  mk (limits_ rm) ps (dailyPnL_ rm) (peakEquity_ rm) (currentEquity_ rm).

(** [positions_[symbol]]: the entry at [symbol], default-constructed and
    inserted when the key is new. *)
Definition positions_at (sym : string) (ps : gmap string Position)
    : Position * gmap string Position :=
  match ps !! sym with
  | Some p => (p, ps)
  | None => (Position_default, <[sym := Position_default]> ps)
  end.

(** The price the value checks use. *)
Definition orderPrice (order : Order.t) (currentPrice : float) : float :=
  match Order.type_ order with
  | MARKET => currentPrice
  | _ => priceToDouble (Order.price_ order)
  end.

Definition validateOrder (order : Order.t) (currentPrice : float) (rm : t)
    : ValidationResult * t :=
  if Order.quantity_ order >? maxOrderSize (limits_ rm) then
    (REJECTED_ORDER_SIZE, rm)
  else
    let orderPrice := orderPrice order currentPrice in
    let orderValue := PrimFloat.mul (Z2double (Order.quantity_ order)) orderPrice in
    if dgt orderValue (maxOrderValue (limits_ rm)) then (REJECTED_ORDER_VALUE, rm)
    else
      let '(position, ps) := positions_at (Order.symbol_ order) (positions_ rm) in
      let rm := set_positions ps rm in
      let newQuantity :=
        match Order.side_ order with
        | BUY => i64 (quantity position + Order.quantity_ order)
        | SELL => i64 (quantity position - Order.quantity_ order)
        end in
      if abs64 newQuantity >? maxPositionSize (limits_ rm) then
        (REJECTED_POSITION_LIMIT, rm)
      else
        let newPositionValue := PrimFloat.mul (Z2double (abs64 newQuantity)) orderPrice in
        if dgt newPositionValue (maxPositionValue (limits_ rm)) then
          (REJECTED_POSITION_VALUE, rm)
        else if dlt (dailyPnL_ rm) (PrimFloat.opp (maxDailyLoss (limits_ rm))) then
          (REJECTED_DAILY_LOSS, rm)
        else
          let drawdown := PrimFloat.sub (peakEquity_ rm) (currentEquity_ rm) in
          if dgt drawdown (maxDrawdown (limits_ rm)) then (REJECTED_DRAWDOWN, rm)
          else (ACCEPTED, rm).

(** The position after the trade, and the profit it realizes (if any). *)
Definition applyTrade (tradePrice : float) (tradeQty : Z) (isBuy : bool)
    (p : Position) : Position * option float :=
  if isBuy then
    let bought := u64 (totalBought p + tradeQty) in
    if quantity p >=? 0 then
      (* Adding to long or opening long *)
      let avg :=
        PrimFloat.div
          (PrimFloat.add (PrimFloat.mul (Z2double (quantity p)) (averagePrice p))
                         (PrimFloat.mul (Z2double tradeQty) tradePrice))
          (Z2double (u64 (quantity p + tradeQty))) in
      (mkPosition (symbol p) (i64 (quantity p + tradeQty)) avg (realizedPnL p)
                  (unrealizedPnL p) bought (totalSold p), None)
    else
      (* Covering short *)
      let closingQty := Z.min (i64 tradeQty) (abs64 (quantity p)) in
      let pnl := PrimFloat.mul (Z2double closingQty)
                   (PrimFloat.sub (averagePrice p) tradePrice) in
      let q := i64 (quantity p + tradeQty) in
      (mkPosition (symbol p) q
                  (if q >? 0 then tradePrice else averagePrice p)
                  (PrimFloat.add (realizedPnL p) pnl)
                  (unrealizedPnL p) bought (totalSold p), Some pnl)
  else
    let sold := u64 (totalSold p + tradeQty) in
    if quantity p <=? 0 then
      (* Adding to short or opening short *)
      let avg :=
        PrimFloat.div
          (PrimFloat.add (PrimFloat.mul (Z2double (abs64 (quantity p))) (averagePrice p))
                         (PrimFloat.mul (Z2double tradeQty) tradePrice))
          (Z2double (u64 (abs64 (quantity p) + tradeQty))) in
      (mkPosition (symbol p) (i64 (quantity p - tradeQty)) avg (realizedPnL p)
                  (unrealizedPnL p) (totalBought p) sold, None)
    else
      (* Closing long *)
      let closingQty := Z.min (i64 tradeQty) (quantity p) in
      let pnl := PrimFloat.mul (Z2double closingQty)
                   (PrimFloat.sub tradePrice (averagePrice p)) in
      let q := i64 (quantity p - tradeQty) in
      (mkPosition (symbol p) q
                  (if q <? 0 then tradePrice else averagePrice p)
                  (PrimFloat.add (realizedPnL p) pnl)
                  (unrealizedPnL p) (totalBought p) sold, Some pnl).

#[global] Arguments applyTrade : simpl never.

Definition set_symbol (sym : string) (p : Position) : Position :=
  mkPosition sym (quantity p) (averagePrice p) (realizedPnL p) (unrealizedPnL p)
             (totalBought p) (totalSold p).

(** The order in which a loop over the position table visits its entries.
    [std::unordered_map] leaves it open: every entry is visited once, in an
    order that the contents of the table do not determine for the reader of
    the code.  The loops below take the order as an argument, so that what
    is proved of them holds for every order. *)
Record iteration := mkIteration {
  visit : gmap string Position → list (string * Position);
  visit_once : ∀ ps, visit ps ≡ₚ map_to_list ps
}.

(** One such order, for evaluating the loops on a concrete table. *)
Definition key_order : iteration :=
  mkIteration map_to_list (λ ps, Permutation_refl (map_to_list ps)).

(** The equity loop: the unrealized profits are added to [start] one by
    one, in the order of the visit. *)
Definition sumUnrealized (it : iteration) (start : float)
    (ps : gmap string Position) : float :=
  foldl (λ acc kv, PrimFloat.add acc (unrealizedPnL kv.2)) start (visit it ps).

Definition updatePosition (it : iteration) (trade : Trade.t) (aggressorSide : Side)
    (rm : t) : t :=
  let sym := Trade.symbol_ trade in
  let '(position, ps) := positions_at sym (positions_ rm) in
  let position :=
    if String.eqb (symbol position) "" then set_symbol sym position else position in
  let tradePrice := priceToDouble (Trade.price_ trade) in
  let tradeQty := Trade.quantity_ trade in
  let isBuy := bool_decide (aggressorSide = BUY) in
  let '(position', pnl) := applyTrade tradePrice tradeQty isBuy position in
  let daily :=
    match pnl with
    | Some x => PrimFloat.add (dailyPnL_ rm) x
    | None => dailyPnL_ rm
    end in
  let ps' := <[sym := position']> ps in
  let equity := sumUnrealized it daily ps' in
  mk (limits_ rm) ps' daily
     (if dgt equity (peakEquity_ rm) then equity else peakEquity_ rm)
     equity.

(** The read-only lookup: a static empty position stands for a missing
    key, and the table is left as it is. *)
Definition getPosition (sym : string) (rm : t) : Position :=
  default Position_default (positions_ rm !! sym).

Definition getDailyPnL (rm : t) : float := dailyPnL_ rm.

Definition getCurrentDrawdown (rm : t) : float :=
  PrimFloat.sub (peakEquity_ rm) (currentEquity_ rm).

Definition getMarketValue (currentPrice : float) (p : Position) : float :=
  PrimFloat.mul (Z2double (abs64 (quantity p))) currentPrice.

(** [Position::updateUnrealizedPnL]. *)
Definition markPosition (currentPrice : float) (p : Position) : Position :=
  mkPosition (symbol p) (quantity p) (averagePrice p) (realizedPnL p)
    (if quantity p =? 0 then 0%float
     else PrimFloat.mul (Z2double (quantity p))
            (PrimFloat.sub currentPrice (averagePrice p)))
    (totalBought p) (totalSold p).

(** [RiskManager::updateUnrealizedPnL]: the position is looked up with
    [find], and nothing happens when the symbol has no entry. *)
Definition updateUnrealizedPnL (sym : string) (currentPrice : float) (rm : t) : t :=
  match positions_ rm !! sym with
  | Some p => set_positions (<[sym := markPosition currentPrice p]> (positions_ rm)) rm
  | None => rm
  end.

Definition getTotalPnL (it : iteration) (rm : t) : float :=
  sumUnrealized it (dailyPnL_ rm) (positions_ rm).

Definition clearRealized (p : Position) : Position :=
  mkPosition (symbol p) (quantity p) (averagePrice p) 0%float (unrealizedPnL p)
    (totalBought p) (totalSold p).

Definition resetDaily (rm : t) : t :=
  mk (limits_ rm) (clearRealized <$> positions_ rm) 0%float (peakEquity_ rm)
     (currentEquity_ rm).

Definition getLimits (rm : t) : RiskLimits := limits_ rm.

Definition setLimits (limits : RiskLimits) (rm : t) : t :=
  mk limits (positions_ rm) (dailyPnL_ rm) (peakEquity_ rm) (currentEquity_ rm).

End RiskManager.

(** ** The caller's side *)

(** [std::make_shared<Order>(...)]: the order is placed at a handle the
    store does not use yet. *)
Definition make_shared (o : Order.t) (h : heap) : ptr * gmap positive Order.t :=
  let p := fresh (dom h) in (p, <[p := o]> h).

Definition new_order (o : Order.t) (s : MatchingEngine.state)
    : ptr * MatchingEngine.state :=
  let '(p, h) := make_shared o (MatchingEngine.store s) in
  (p, MatchingEngine.mkState h (MatchingEngine.engine s) (MatchingEngine.trace s)).

(** A fresh engine for [symbol], with no order object and no callback call
    yet. *)
Definition fresh_engine (symbol : string) : MatchingEngine.state :=
  MatchingEngine.mkState ∅ (MatchingEngine.make symbol) [].

(** ** Vocabulary of the specification *)

Definition side_levels (sd : Side) (b : OrderBook.t) : gmap Z PriceLevel.t :=
  match sd with
  | BUY => OrderBook.bids_ b
  | SELL => OrderBook.asks_ b
  end.

(** The sum of the remaining quantities of the orders queued at a level. *)
Fixpoint sum_remaining (h : heap) (q : list ptr) : option Z :=
  match q with
  | [] => Some 0
  | p :: q' => o ← h !! p; r ← sum_remaining h q'; Some (Order.remainingQuantity_ o + r)
  end.

(** The book holds an order with id [orderId]: the id-index has the id, or
    an order with that id is queued at some level. *)
Definition book_holds_id (h : heap) (b : OrderBook.t) (orderId : Z) : Prop :=
  is_Some (OrderBook.orderMap_ b !! orderId) ∨
  ∃ sd pr level p o, side_levels sd b !! pr = Some level ∧
    p ∈ PriceLevel.orders_ level ∧ h !! p = Some o ∧ Order.id_ o = orderId.

(** Consistency of the id-index with the price levels, over the store the
    handles point into: an indexed handle is live, carries the id it is
    indexed under and is queued at the level of its own side and price;
    a queued handle is live and indexed under its id; no level queues a
    handle twice. *)
Record wf (h : heap) (b : OrderBook.t) : Prop := mk_wf {
  wf_index : ∀ orderId p, OrderBook.orderMap_ b !! orderId = Some p →
    ∃ o level, h !! p = Some o ∧ Order.id_ o = orderId ∧
      side_levels (Order.side_ o) b !! Order.price_ o = Some level ∧
      p ∈ PriceLevel.orders_ level;
  wf_level : ∀ sd pr level p, side_levels sd b !! pr = Some level →
    p ∈ PriceLevel.orders_ level →
    ∃ o, h !! p = Some o ∧ OrderBook.orderMap_ b !! Order.id_ o = Some p ∧
      Order.side_ o = sd ∧ Order.price_ o = pr;
  wf_nodup : ∀ sd pr level, side_levels sd b !! pr = Some level →
    NoDup (PriceLevel.orders_ level)
}.

(** The book [cancelOrder] leaves when the handle of the order [o] sits at
    position [i] of [level]: the level has subtracted the remaining
    quantity of the order as cancelled, which is 0. *)
Definition cancelled_book (b : OrderBook.t) (o : Order.t) (level : PriceLevel.t)
    (i : nat) : OrderBook.t :=
  let m := side_levels (Order.side_ o) b in
  let m' :=
    if bool_decide (delete i (PriceLevel.orders_ level) = []) then
      delete (Order.price_ o) m
    else
      <[Order.price_ o := PriceLevel.mk (PriceLevel.price_ level)
                            (u64 (PriceLevel.totalQuantity_ level - 0))
                            (delete i (PriceLevel.orders_ level))]> m in
  match Order.side_ o with
  | BUY => OrderBook.mk (OrderBook.symbol_ b) m' (OrderBook.asks_ b)
             (delete (Order.id_ o) (OrderBook.orderMap_ b))
  | SELL => OrderBook.mk (OrderBook.symbol_ b) (OrderBook.bids_ b) m'
              (delete (Order.id_ o) (OrderBook.orderMap_ b))
  end.

(** The book [addOrder] leaves when it accepts the order [o] at handle [p]. *)
Definition added_book (b : OrderBook.t) (p : positive) (o : Order.t)
    : OrderBook.t :=
  let m := side_levels (Order.side_ o) b in
  let level := default (PriceLevel.make (Order.price_ o)) (m !! Order.price_ o) in
  let level' := PriceLevel.mk (PriceLevel.price_ level)
                  (u64 (PriceLevel.totalQuantity_ level + Order.remainingQuantity_ o))
                  (PriceLevel.orders_ level ++ [p]) in
  let m' := <[Order.price_ o := level']> m in
  match Order.side_ o with
  | BUY => OrderBook.mk (OrderBook.symbol_ b) m' (OrderBook.asks_ b)
             (<[Order.id_ o := p]> (OrderBook.orderMap_ b))
  | SELL => OrderBook.mk (OrderBook.symbol_ b) (OrderBook.bids_ b) m'
              (<[Order.id_ o := p]> (OrderBook.orderMap_ b))
  end.

(** What else the book keeps: a level is stored under its own price and
    queues at least one order, and an indexed order carries the symbol of
    the book. *)
Record levels_ok (h : heap) (b : OrderBook.t) : Prop := mk_levels_ok {
  lv_price : ∀ sd pr level, side_levels sd b !! pr = Some level →
    PriceLevel.price_ level = pr;
  lv_nonempty : ∀ sd pr level, side_levels sd b !! pr = Some level →
    PriceLevel.orders_ level ≠ [];
  lv_symbol : ∀ orderId p o, OrderBook.orderMap_ b !! orderId = Some p →
    h !! p = Some o → Order.symbol_ o = OrderBook.symbol_ b
}.

(** The queue and the cached total of the level at a price of a side; the
    empty queue and 0 when the side has no level there. *)
Definition queue_at (sd : Side) (pr : Z) (b : OrderBook.t) : list positive :=
  default [] (PriceLevel.orders_ <$> side_levels sd b !! pr).
Definition total_at (sd : Side) (pr : Z) (b : OrderBook.t) : Z :=
  default 0 (PriceLevel.totalQuantity_ <$> side_levels sd b !! pr).

(** What a reachable state of an engine for [symbol] satisfies. *)
Record engine_ok (symbol : string) (s : MatchingEngine.state) : Prop := mk_engine_ok {
  eo_wf : wf (MatchingEngine.store s)
             (MatchingEngine.orderBook_ (MatchingEngine.engine s));
  eo_levels : levels_ok (MatchingEngine.store s)
                 (MatchingEngine.orderBook_ (MatchingEngine.engine s));
  eo_symbol : MatchingEngine.symbol_ (MatchingEngine.engine s) = symbol;
  eo_book_symbol :
    OrderBook.symbol_ (MatchingEngine.orderBook_ (MatchingEngine.engine s)) = symbol
}.

(** The calls the callbacks have received once the order-update callback,
    if there is one, has been told about [order]. *)
Definition told (order : positive) (o : Order.t) (s : MatchingEngine.state)
    : list MatchingEngine.event :=
  if MatchingEngine.orderUpdateCallback_ (MatchingEngine.engine s) then
    MatchingEngine.trace s ++ [MatchingEngine.OrderUpdateEvent order o]
  else MatchingEngine.trace s.

(** The engine with one more market order, or limit order, counted. *)
Definition count_market (e : MatchingEngine.t) : MatchingEngine.t :=
  let st := MatchingEngine.stats_ e in
  MatchingEngine.set_stats
    (MatchingEngine.mkStats (MatchingEngine.totalTrades st)
       (MatchingEngine.totalVolume st) (MatchingEngine.totalValue st)
       (u64 (MatchingEngine.marketOrdersMatched st + 1))
       (MatchingEngine.limitOrdersMatched st)) e.
Definition count_limit (e : MatchingEngine.t) : MatchingEngine.t :=
  let st := MatchingEngine.stats_ e in
  MatchingEngine.set_stats
    (MatchingEngine.mkStats (MatchingEngine.totalTrades st)
       (MatchingEngine.totalVolume st) (MatchingEngine.totalValue st)
       (MatchingEngine.marketOrdersMatched st)
       (u64 (MatchingEngine.limitOrdersMatched st + 1))) e.

(** The rejection reason of the first failing check of a list, ACCEPTED
    when none fails.  A check is paired with [true] when it fails. *)
Fixpoint first_failing (checks : list (bool * RiskManager.ValidationResult))
    : RiskManager.ValidationResult :=
  match checks with
  | [] => RiskManager.ACCEPTED
  | (fails, reason) :: checks' => if fails then reason else first_failing checks'
  end.

(** The effective price of the value checks: the reference price for a
    market order, the order's own price (in display units) otherwise. *)
Definition effectivePrice (order : Order.t) (referencePrice : float) : float :=
  if bool_decide (Order.type_ order = MARKET) then referencePrice
  else priceToDouble (Order.price_ order).

(** [a ≤ b] as the specification writes its value and loss checks: on
    [double], and false when an operand is a NaN. *)
Definition dle (a b : float) : bool := PrimFloat.leb a b.

(** The signed position a full fill of the order would lead to, as the
    specification writes it: currentPos + quantity for a buy and
    currentPos − quantity for a sell, in the integers. *)
Definition prospectivePosition (order : Order.t) (rm : RiskManager.t) : Z :=
  let current := RiskManager.quantity (RiskManager.getPosition (Order.symbol_ order) rm) in
  match Order.side_ order with
  | BUY => current + Order.quantity_ order
  | SELL => current - Order.quantity_ order
  end.

(** The six checks of the specification, in its order and in its words:
      1. quantity ≤ maxOrderSize
      2. quantity × effectivePrice ≤ maxOrderValue
      3. |currentPos ± quantity| ≤ maxPositionSize
      4. |prospectivePos| × effectivePrice ≤ maxPositionValue
      5. dailyPnL ≥ −maxDailyLoss
      6. peakEquity − currentEquity ≤ maxDrawdown
    A check fails when its inequality does not hold. *)
Definition risk_checks (order : Order.t) (referencePrice : float) (rm : RiskManager.t)
    : list (bool * RiskManager.ValidationResult) :=
  let limits := RiskManager.limits_ rm in
  let price := effectivePrice order referencePrice in
  let prospective := Z.abs (prospectivePosition order rm) in
  [ (negb (Order.quantity_ order <=? RiskManager.maxOrderSize limits),
     RiskManager.REJECTED_ORDER_SIZE);
    (negb (dle (PrimFloat.mul (Z2double (Order.quantity_ order)) price)
               (RiskManager.maxOrderValue limits)),
     RiskManager.REJECTED_ORDER_VALUE);
    (negb (prospective <=? RiskManager.maxPositionSize limits),
     RiskManager.REJECTED_POSITION_LIMIT);
    (negb (dle (PrimFloat.mul (Z2double prospective) price)
               (RiskManager.maxPositionValue limits)),
     RiskManager.REJECTED_POSITION_VALUE);
    (negb (dle (PrimFloat.opp (RiskManager.maxDailyLoss limits))
               (RiskManager.dailyPnL_ rm)),
     RiskManager.REJECTED_DAILY_LOSS);
    (negb (dle (PrimFloat.sub (RiskManager.peakEquity_ rm)
                              (RiskManager.currentEquity_ rm))
               (RiskManager.maxDrawdown limits)),
     RiskManager.REJECTED_DRAWDOWN) ].

(** The amounts and limits that the value and loss checks compare. *)
Definition compared_values (order : Order.t) (referencePrice : float)
    (rm : RiskManager.t) : list float :=
  let limits := RiskManager.limits_ rm in
  let price := effectivePrice order referencePrice in
  [ PrimFloat.mul (Z2double (Order.quantity_ order)) price;
    RiskManager.maxOrderValue limits;
    PrimFloat.mul (Z2double (Z.abs (prospectivePosition order rm))) price;
    RiskManager.maxPositionValue limits;
    RiskManager.dailyPnL_ rm;
    PrimFloat.opp (RiskManager.maxDailyLoss limits);
    PrimFloat.sub (RiskManager.peakEquity_ rm) (RiskManager.currentEquity_ rm);
    RiskManager.maxDrawdown limits ].

(** None of the values is a NaN. *)
Definition no_nan (values : list float) : bool :=
  forallb (λ x, negb (PrimFloat.is_nan x)) values.



(** A price survives the conversion to display units and back, or comes
    back one hundredth lower. *)
Definition price_round_trip_ok (p : Z) : bool :=
  match doubleToPrice (priceToDouble p) with
  | Some v => (v =? p) || (v =? p - 1)
  | None => false
  end.

(** The same for the [n] prices from [p] on. *)
Fixpoint prices_round_trip_ok (n : nat) (p : Z) : bool :=
  match n with
  | O => true
  | S n' => price_round_trip_ok p && prices_round_trip_ok n' (p + 1)
  end.

(** ** Scenarios *)

(** Scenario 1 of the specification: SELL LIMIT 150.00 x 100 (id 1), then
    BUY LIMIT 150.00 x 100 (id 2), on a fresh engine.  The result is the one
    of the second [submitOrder]. *)
Definition simple_cross (fuel : nat)
    : option (list Trade.t * MatchingEngine.state) :=
  let '(p1, s) := new_order (Order.make 1 "AAPL" SELL LIMIT 15000 100)
                    (fresh_engine "AAPL") in
  '(_, s) ← MatchingEngine.submitOrder fuel p1 s;
  let '(p2, s) := new_order (Order.make 2 "AAPL" BUY LIMIT 15000 100) s in
  MatchingEngine.submitOrder fuel p2 s.

(** An ask at 150.00 and a bid at 149.00 rest on a fresh engine; the bid is
    then modified to 151.00.  The result is the pair of states before and
    after the modification. *)
Definition modify_across (fuel : nat)
    : option (MatchingEngine.state * MatchingEngine.state) :=
  let '(p1, s) := new_order (Order.make 1 "AAPL" SELL LIMIT 15000 100)
                    (fresh_engine "AAPL") in
  '(_, s) ← MatchingEngine.submitOrder fuel p1 s;
  let '(p2, s) := new_order (Order.make 2 "AAPL" BUY LIMIT 14900 100) s in
  '(_, s) ← MatchingEngine.submitOrder fuel p2 s;
  '(_, s') ← MatchingEngine.modifyOrder 2 15100 100 s;
  Some (s, s').

(** Two bids of 100 and 200 at 150.00 are added to an empty book. *)
Definition two_bids : option (gmap positive Order.t * OrderBook.t) :=
  let '(p1, h) := make_shared (Order.make 1 "AAPL" BUY LIMIT 15000 100) ∅ in
  let '(p2, h) := make_shared (Order.make 2 "AAPL" BUY LIMIT 15000 200) h in
  '(_, b) ← OrderBook.addOrder h p1 (OrderBook.make "AAPL");
  '(_, b) ← OrderBook.addOrder h p2 b;
  Some (h, b).

(** The first of the two bids is then cancelled. *)
Definition cancel_one_of_two : option (gmap positive Order.t * OrderBook.t) :=
  '(h, b) ← two_bids;
  '(_, h, b) ← OrderBook.cancelOrder 1 h b;
  Some (h, b).

(** ** The runs of an engine *)

(** What a caller can do to an order object it holds a handle of. *)
Inductive caller_call :=
| CallFillQuantity (qty : Z)
| CallCancel
| CallSetStatus (status : OrderStatus).

Definition apply_call (c : caller_call) (o : Order.t) : Order.t :=
  match c with
  | CallFillQuantity qty => Order.fillQuantity qty o
  | CallCancel => Order.cancel o
  | CallSetStatus status => Order.setStatus status o
  end.

(** One step of an engine and its caller: the caller creates an order
    object, calls a modifier on an order object, calls one of the three
    public operations of the engine, or adds an order to the book it got
    from [getOrderBook]. *)
Inductive step : MatchingEngine.state → MatchingEngine.state → Prop :=
| step_new o s :
    step s (new_order o s).2
| step_call c p o s :
    MatchingEngine.store s !! p = Some o →
    step s (MatchingEngine.mkState (<[p := apply_call c o]> (MatchingEngine.store s))
              (MatchingEngine.engine s) (MatchingEngine.trace s))
| step_submit fuel order s trades s' :
    MatchingEngine.submitOrder fuel order s = Some (trades, s') → step s s'
| step_cancel orderId s r s' :
    MatchingEngine.cancelOrder orderId s = Some (r, s') → step s s'
| step_modify orderId newPrice newQuantity s r s' :
    MatchingEngine.modifyOrder orderId newPrice newQuantity s = Some (r, s') →
    step s s'
| step_book_add order s r b :
    OrderBook.addOrder (MatchingEngine.store s) order
      (MatchingEngine.orderBook_ (MatchingEngine.engine s)) = Some (r, b) →
    step s (MatchingEngine.mkState (MatchingEngine.store s)
              (MatchingEngine.set_book b (MatchingEngine.engine s))
              (MatchingEngine.trace s)).

(** The states an engine for [symbol] can be in. *)
Definition reachable (symbol : string) (s : MatchingEngine.state) : Prop :=
  rtc step (fresh_engine symbol) s.

(** * Properties *)

(** ** The matching loops *)

Section matching_loops.
Import MatchingEngine.

Lemma getBestAskOrder_null e : getBestAskOrder e = None.
Proof. unfold getBestAskOrder. by case_bool_decide. Qed.

Lemma getBestBidOrder_null e : getBestBidOrder e = None.
Proof. unfold getBestBidOrder. by case_bool_decide. Qed.

Lemma matchLimitBuyLoop_idle fuel order limitPrice remaining trades s :
  matchLimitBuyLoop fuel order limitPrice remaining trades s = Some (trades, s).
Proof.
  destruct fuel; simpl; rewrite getBestAskOrder_null; by repeat case_match.
Qed.

Lemma matchLimitSellLoop_idle fuel order limitPrice remaining trades s :
  matchLimitSellLoop fuel order limitPrice remaining trades s = Some (trades, s).
Proof.
  destruct fuel; simpl; rewrite getBestBidOrder_null; by repeat case_match.
Qed.

Lemma matchMarketBuyLevel_idle fuel order levelPrice remaining trades s :
  matchMarketBuyLevel fuel order levelPrice remaining trades s
  = Some (remaining, trades, s).
Proof.
  destruct fuel; simpl; rewrite getBestAskOrder_null; by repeat case_match.
Qed.

Lemma matchMarketSellLevel_idle fuel order levelPrice remaining trades s :
  matchMarketSellLevel fuel order levelPrice remaining trades s
  = Some (remaining, trades, s).
Proof.
  destruct fuel; simpl; rewrite getBestBidOrder_null; by repeat case_match.
Qed.

Lemma matchMarketBuyLevels_idle fuel order askDepth remaining trades s :
  matchMarketBuyLevels fuel order askDepth remaining trades s
  = Some (remaining, trades, s).
Proof.
  induction askDepth as [|level askDepth IH]; simpl; [done|].
  case_match; [done|]. by rewrite matchMarketBuyLevel_idle.
Qed.

Lemma matchMarketSellLevels_idle fuel order bidDepth remaining trades s :
  matchMarketSellLevels fuel order bidDepth remaining trades s
  = Some (remaining, trades, s).
Proof.
  induction bidDepth as [|level bidDepth IH]; simpl; [done|].
  case_match; [done|]. by rewrite matchMarketSellLevel_idle.
Qed.

(** What a market order does to the state: the order-update callback is
    told about the aggressor and the market counter moves. *)
Lemma matchMarketOrder_result fuel order o s :
  store s !! order = Some o →
  ∃ s', matchMarketOrder fuel order s = Some ([], s') ∧
        store s' = store s ∧
        orderBook_ (engine s') = orderBook_ (engine s) ∧
        tradeCallback_ (engine s') = tradeCallback_ (engine s).
Proof.
  intros Ho. unfold matchMarketOrder, matchMarketBuyOrder, matchMarketSellOrder.
  rewrite Ho; simpl.
  destruct (Order.side_ o); rewrite ?Ho; simpl.
  - rewrite matchMarketBuyLevels_idle; simpl. unfold orderUpdate.
    destruct (orderUpdateCallback_ (engine s)); rewrite ?Ho; simpl; eauto.
  - rewrite matchMarketSellLevels_idle; simpl. unfold orderUpdate.
    destruct (orderUpdateCallback_ (engine s)); rewrite ?Ho; simpl; eauto.
Qed.

End matching_loops.

(** ** Claims about the matching engine *)

(** C1.  The simple cross of scenario 1 is expected to return one trade
    (buy 2, sell 1, price 15000, quantity 100) and to leave the book empty.
    The code returns no trade from the second [submitOrder], whatever the
    bound on the loops, and both orders rest: the best bid and the best ask
    are 15000, both orders are still NEW with 100 remaining, and no trade
    was counted. *)
Theorem simple_cross_emits_no_trade (fuel : nat) :
  ∃ s, simple_cross fuel = Some ([], s) ∧
       OrderBook.getBestBid (MatchingEngine.orderBook_ (MatchingEngine.engine s)) = Some 15000 ∧
       OrderBook.getBestAsk (MatchingEngine.orderBook_ (MatchingEngine.engine s)) = Some 15000 ∧
       MatchingEngine.store s !! 1%positive = Some (Order.make 1 "AAPL" SELL LIMIT 15000 100) ∧
       MatchingEngine.store s !! 2%positive = Some (Order.make 2 "AAPL" BUY LIMIT 15000 100) ∧
       MatchingEngine.totalTrades (MatchingEngine.stats_ (MatchingEngine.engine s)) = 0.
Proof.
  destruct fuel; (eexists; split; [vm_compute; reflexivity|]); vm_compute; auto.
Qed.

(** C2.  A book at rest is expected never to be crossed: best bid < best
    ask whenever both sides are non-empty.  After the two submissions of
    scenario 1 both sides are non-empty and the best bid equals the best
    ask. *)
Theorem simple_cross_leaves_book_crossed (fuel : nat) :
  ∃ trades s bid ask,
    simple_cross fuel = Some (trades, s) ∧
    OrderBook.getBestBid (MatchingEngine.orderBook_ (MatchingEngine.engine s)) = Some bid ∧
    OrderBook.getBestAsk (MatchingEngine.orderBook_ (MatchingEngine.engine s)) = Some ask ∧
    ¬ bid < ask.
Proof.
  destruct fuel; (do 4 eexists; split; [vm_compute; reflexivity|]);
    (split; [vm_compute; reflexivity|]); (split; [vm_compute; reflexivity|]); lia.
Qed.

(** A modification is not matched either: the replacement order goes
    straight to the book, and a book that was not crossed is crossed
    afterwards. *)
Lemma modify_crosses_book (fuel : nat) :
  ∃ s s',
    modify_across fuel = Some (s, s') ∧
    OrderBook.getBestBid (MatchingEngine.orderBook_ (MatchingEngine.engine s)) = Some 14900 ∧
    OrderBook.getBestAsk (MatchingEngine.orderBook_ (MatchingEngine.engine s)) = Some 15000 ∧
    OrderBook.getBestBid (MatchingEngine.orderBook_ (MatchingEngine.engine s')) = Some 15100 ∧
    OrderBook.getBestAsk (MatchingEngine.orderBook_ (MatchingEngine.engine s')) = Some 15000.
Proof.
  destruct fuel; (do 2 eexists; split; [vm_compute; reflexivity|]); by vm_compute.
Qed.

(** C3.  A level's cached total is expected to equal the sum of the
    remaining quantities queued at it after every book operation.  After
    the cancel of [cancel_one_of_two] the level at 15000 holds one order
    with 200 remaining and its cached total is still 300: the cancelled
    order's remaining quantity was set to 0 before the level subtracted it. *)
Theorem cancel_leaves_stale_total :
  ∃ h b level,
    cancel_one_of_two = Some (h, b) ∧
    OrderBook.bids_ b !! 15000 = Some level ∧
    sum_remaining h (PriceLevel.orders_ level) = Some 200 ∧
    PriceLevel.totalQuantity_ level = 300 ∧
    OrderBook.getTotalBidQuantity b = 300.
Proof.
  do 3 eexists. split; [vm_compute; reflexivity|].
  split; [vm_compute; reflexivity|]. by vm_compute.
Qed.

(** C8.  An order whose symbol is not the engine's is rejected: the trade
    list is empty and the whole state is as before the call, that is the
    book, the statistics, every order object (the submitted one included)
    and the record of callback calls. *)
Theorem submitOrder_symbol_mismatch fuel s order o :
  MatchingEngine.store s !! order = Some o →
  Order.symbol_ o ≠ MatchingEngine.symbol_ (MatchingEngine.engine s) →
  MatchingEngine.submitOrder fuel order s = Some ([], s).
Proof.
  intros Ho Hsym. unfold MatchingEngine.submitOrder. rewrite Ho; simpl.
  apply String.eqb_neq in Hsym. by rewrite Hsym.
Qed.

Lemma submitOrder_symbol_mismatch_witness :
  let s := (new_order (Order.make 7 "MSFT" BUY LIMIT 30000 10) (fresh_engine "AAPL")).2 in
  MatchingEngine.submitOrder 5 1%positive s = Some ([], s).
Proof.
  apply (submitOrder_symbol_mismatch 5 _ 1%positive
           (Order.make 7 "MSFT" BUY LIMIT 30000 10)).
  - vm_compute. reflexivity.
  - vm_compute. discriminate.
Defined.

(** C10.  An order of type STOP or STOP_LIMIT with the engine's symbol falls
    through the dispatch: the trade list is empty and the whole state (book,
    statistics, order objects, callback calls) is unchanged. *)
Theorem submitOrder_stop_falls_through fuel s order o :
  MatchingEngine.store s !! order = Some o →
  Order.type_ o = STOP ∨ Order.type_ o = STOP_LIMIT →
  MatchingEngine.submitOrder fuel order s = Some ([], s).
Proof.
  intros Ho Hty. unfold MatchingEngine.submitOrder. rewrite Ho; simpl.
  case_match; [done|].
  destruct Hty as [-> | ->]; simpl; unfold MatchingEngine.notifyTrades;
    destruct s as [h e tr]; simpl; destruct (MatchingEngine.tradeCallback_ e);
    simpl; by rewrite ?app_nil_r.
Qed.

Lemma submitOrder_stop_falls_through_witness :
  let s := (new_order (Order.make 7 "AAPL" BUY STOP 30000 10) (fresh_engine "AAPL")).2 in
  MatchingEngine.submitOrder 5 1%positive s = Some ([], s).
Proof.
  apply (submitOrder_stop_falls_through 5 _ 1%positive
           (Order.make 7 "AAPL" BUY STOP 30000 10)).
  - vm_compute. reflexivity.
  - left. reflexivity.
Defined.

(** C9.  A MARKET order with the engine's symbol is never inserted: the
    call returns, the book after it is the book before it, so the book holds
    the aggressor's id afterwards only if it did before, and the order
    object keeps whatever quantity was left unfilled without resting. *)
Theorem market_order_never_rests fuel s order o :
  MatchingEngine.store s !! order = Some o →
  Order.type_ o = MARKET →
  Order.symbol_ o = MatchingEngine.symbol_ (MatchingEngine.engine s) →
  ∃ trades s',
    MatchingEngine.submitOrder fuel order s = Some (trades, s') ∧
    MatchingEngine.orderBook_ (MatchingEngine.engine s')
      = MatchingEngine.orderBook_ (MatchingEngine.engine s) ∧
    (¬ book_holds_id (MatchingEngine.store s)
         (MatchingEngine.orderBook_ (MatchingEngine.engine s)) (Order.id_ o) →
     ¬ book_holds_id (MatchingEngine.store s')
         (MatchingEngine.orderBook_ (MatchingEngine.engine s')) (Order.id_ o)).
Proof.
  intros Ho Hty Hsym.
  destruct (matchMarketOrder_result fuel order o s Ho) as (s' & Hm & Hst & Hb & Hcb).
  exists [], (MatchingEngine.notifyTrades [] s').
  unfold MatchingEngine.submitOrder. rewrite Ho; simpl.
  rewrite Hsym, String.eqb_refl; simpl. rewrite Hty, Hm; simpl.
  assert (MatchingEngine.notifyTrades [] s' = s') as ->.
  { unfold MatchingEngine.notifyTrades. destruct s' as [h e tr]; simpl.
    destruct (MatchingEngine.tradeCallback_ e); simpl; by rewrite ?app_nil_r. }
  split; [done|]. split; [done|]. by rewrite Hst, Hb.
Qed.

Lemma market_order_never_rests_witness :
  let s := (new_order (Order.make_market 9 "AAPL" BUY 250) (fresh_engine "AAPL")).2 in
  ∃ trades s',
    MatchingEngine.submitOrder 5 1%positive s = Some (trades, s') ∧
    MatchingEngine.orderBook_ (MatchingEngine.engine s')
      = MatchingEngine.orderBook_ (MatchingEngine.engine s) ∧
    (¬ book_holds_id (MatchingEngine.store s)
         (MatchingEngine.orderBook_ (MatchingEngine.engine s)) 9 →
     ¬ book_holds_id (MatchingEngine.store s')
         (MatchingEngine.orderBook_ (MatchingEngine.engine s')) 9).
Proof.
  apply (market_order_never_rests 5 _ 1%positive (Order.make_market 9 "AAPL" BUY 250)).
  - vm_compute. reflexivity.
  - reflexivity.
  - reflexivity.
Defined.

(** ** The order book *)

Section order_book.
Import OrderBook.

(** The search by id finds the queued handle [p] when every queued handle is
    live and [p] is the only one whose order has the id. *)
Lemma find_if_index (h : heap) orderId (q : list positive) p :
  p ∈ q →
  (∀ p', p' ∈ q → ∃ o', h !! p' = Some o' ∧ (Order.id_ o' = orderId → p' = p)) →
  (∃ o, h !! p = Some o ∧ Order.id_ o = orderId) →
  ∃ i, PriceLevel.find_if h orderId q = Some (Some i) ∧ q !! i = Some p.
Proof.
  intros Hin Hall (o & Ho & Hid).
  induction q as [|a q IH]; [by apply elem_of_nil in Hin|].
  simpl. destruct (Hall a) as (oa & Ha & Hida); [by left|].
  rewrite Ha. simpl.
  destruct (decide (Order.id_ oa = orderId)) as [Heq|Hne].
  - apply Z.eqb_eq in Heq as Heqb. rewrite Heqb. exists 0%nat.
    split; [done|]. simpl. f_equal. by apply Hida.
  - apply Z.eqb_neq in Hne as Hneb. rewrite Hneb.
    destruct IH as (i & Hi & Hqi).
    + apply elem_of_cons in Hin as [->|Hin]; [|done]. congruence.
    + intros p' Hp'. apply Hall. by right.
    + rewrite Hi. simpl. by exists (S i).
Qed.

Lemma elem_of_delete_index (q : list positive) i p x :
  NoDup q → q !! i = Some p → x ∈ delete i q ↔ x ∈ q ∧ x ≠ p.
Proof.
  intros Hnd Hi. pose proof (delete_Permutation _ _ _ Hi) as Hperm.
  assert (NoDup (p :: delete i q)) as Hnd' by (by rewrite <- Hperm).
  apply NoDup_cons in Hnd' as [Hnot _].
  pose proof (elem_of_Permutation_proper x _ _ Hperm) as Hiff.
  rewrite Hiff, elem_of_cons. split.
  - intros Hx. split; [by right|]. by intros ->.
  - by intros [[->|Hx] Hne].
Qed.

Lemma NoDup_delete_index (q : list positive) i : NoDup q → NoDup (delete i q).
Proof. intros Hnd. eapply sublist_NoDup; [done | apply sublist_delete]. Qed.

(** The side map after the removal of the handle found at position [i] of
    the level at [pr]: the level is erased when that empties it. *)
Lemma removeFromSide_found (h : heap) orderId pr (m : gmap Z PriceLevel.t) level i p o :
  m !! pr = Some level →
  PriceLevel.find_if h orderId (PriceLevel.orders_ level) = Some (Some i) →
  PriceLevel.orders_ level !! i = Some p →
  h !! p = Some o →
  removeFromSide h orderId pr m
  = Some (if bool_decide (delete i (PriceLevel.orders_ level) = []) then delete pr m
          else <[pr := PriceLevel.mk (PriceLevel.price_ level)
                         (u64 (PriceLevel.totalQuantity_ level - Order.remainingQuantity_ o))
                         (delete i (PriceLevel.orders_ level))]> m).
Proof.
  intros Hm Hfind Hi Ho. unfold removeFromSide, PriceLevel.removeOrder.
  rewrite Hm, Hfind. simpl. rewrite Hi. simpl. rewrite Ho. simpl.
  unfold PriceLevel.isEmpty. simpl. by case_bool_decide.
Qed.

Lemma side_levels_other sd sd' (b : t) (m : gmap Z PriceLevel.t) idx :
  sd' ≠ sd →
  side_levels sd'
    (match sd with
     | BUY => mk (symbol_ b) m (asks_ b) idx
     | SELL => mk (symbol_ b) (bids_ b) m idx
     end) = side_levels sd' b.
Proof. by destruct sd, sd'. Qed.

Lemma side_levels_same sd (b : t) (m : gmap Z PriceLevel.t) idx :
  side_levels sd
    (match sd with
     | BUY => mk (symbol_ b) m (asks_ b) idx
     | SELL => mk (symbol_ b) (bids_ b) m idx
     end) = m.
Proof. by destruct sd. Qed.

Lemma orderMap_set_side sd (b : t) (m : gmap Z PriceLevel.t) idx :
  orderMap_
    (match sd with
     | BUY => mk (symbol_ b) m (asks_ b) idx
     | SELL => mk (symbol_ b) (bids_ b) m idx
     end) = idx.
Proof. by destruct sd. Qed.

(** [cancelOrder] on an indexed id, step by step: the order object is
    cancelled first, the level then loses the handle in the store that
    already holds the cancelled order (so the level subtracts 0 from its
    total), and the index entry goes last. *)
Lemma cancelOrder_indexed h b orderId p :
  wf h b → orderMap_ b !! orderId = Some p →
  ∃ o level i,
    h !! p = Some o ∧ Order.id_ o = orderId ∧
    side_levels (Order.side_ o) b !! Order.price_ o = Some level ∧
    PriceLevel.orders_ level !! i = Some p ∧
    removeFromSide (<[p := Order.cancel o]> h) orderId (Order.price_ o)
      (side_levels (Order.side_ o) b)
    = Some (side_levels (Order.side_ o) (cancelled_book b o level i)) ∧
    cancelOrder orderId h b
    = Some (true, <[p := Order.cancel o]> h, cancelled_book b o level i).
Proof.
  intros Hwf Hidx.
  destruct (wf_index h b Hwf orderId p Hidx) as (o & level & Ho & Hid & Hlevel & Hin).
  set (h1 := <[p := Order.cancel o]> h).
  assert (h1 !! p = Some (Order.cancel o)) as Hp1 by apply lookup_insert_eq.
  destruct (find_if_index h1 orderId (PriceLevel.orders_ level) p) as (i & Hfind & Hi).
  { done. }
  { intros p' Hp'.
    destruct (wf_level h b Hwf _ _ _ p' Hlevel Hp') as (o' & Ho' & Hidx' & _).
    destruct (decide (p' = p)) as [->|Hne]; [by eauto|].
    exists o'. split; [by unfold h1; rewrite lookup_insert_ne|].
    intros Heq. rewrite Heq, Hidx in Hidx'. congruence. }
  { by exists (Order.cancel o). }
  pose proof (removeFromSide_found h1 orderId (Order.price_ o)
                (side_levels (Order.side_ o) b) level i p (Order.cancel o)
                Hlevel Hfind Hi Hp1) as Hrem.
  simpl in Hrem.
  exists o, level, i. repeat (split; [done|]).
  assert (removeFromSide h1 orderId (Order.price_ o) (side_levels (Order.side_ o) b)
          = Some (side_levels (Order.side_ o) (cancelled_book b o level i))) as Hrem'.
  { rewrite Hrem. unfold cancelled_book. cbv zeta. by rewrite side_levels_same. }
  split; [done|].
  unfold cancelOrder. rewrite Hidx, Ho. simpl. fold h1. rewrite Hp1. simpl.
  unfold removeFromBidSide, removeFromAskSide, cancelled_book. cbv zeta.
  rewrite Hid.
  destruct (Order.side_ o); simpl in Hrem; rewrite Hrem; done.
Qed.

(** The levels of the book after a cancel, against the levels before. *)
Lemma cancelled_book_levels h b o level i p :
  wf h b →
  h !! p = Some o →
  side_levels (Order.side_ o) b !! Order.price_ o = Some level →
  PriceLevel.orders_ level !! i = Some p →
  (∀ sd pr level', side_levels sd (cancelled_book b o level i) !! pr = Some level' →
     ∃ level0, side_levels sd b !! pr = Some level0 ∧
       NoDup (PriceLevel.orders_ level') ∧
       ∀ x, x ∈ PriceLevel.orders_ level' ↔ x ∈ PriceLevel.orders_ level0 ∧ x ≠ p) ∧
  (∀ sd pr level0 x, side_levels sd b !! pr = Some level0 →
     x ∈ PriceLevel.orders_ level0 → x ≠ p →
     ∃ level', side_levels sd (cancelled_book b o level i) !! pr = Some level' ∧
       x ∈ PriceLevel.orders_ level').
Proof.
  intros Hwf Ho Hlevel Hi.
  pose proof (wf_nodup h b Hwf _ _ _ Hlevel) as Hnd.
  assert (∀ sd pr level0, side_levels sd b !! pr = Some level0 →
            (sd, pr) ≠ (Order.side_ o, Order.price_ o) →
            ∀ x, x ∈ PriceLevel.orders_ level0 → x ≠ p) as Helsewhere.
  { intros sd pr level0 Hl0 Hne x Hx ->.
    destruct (wf_level h b Hwf _ _ _ p Hl0 Hx) as (o' & Ho' & _ & Hsd & Hpr).
    rewrite Ho in Ho'. injection Ho' as <-. congruence. }
  split.
  - intros sd pr level' Hl'. unfold cancelled_book in Hl'. cbv zeta in Hl'.
    destruct (decide (sd = Order.side_ o)) as [->|Hsd].
    + rewrite side_levels_same in Hl'.
      destruct (decide (pr = Order.price_ o)) as [->|Hpr].
      * case_bool_decide as Hempty; [by rewrite lookup_delete_eq in Hl'|].
        rewrite lookup_insert_eq in Hl'. injection Hl' as <-. simpl.
        exists level. split; [done|]. split; [by apply NoDup_delete_index|].
        intros x. by apply elem_of_delete_index.
      * assert (side_levels (Order.side_ o) b !! pr = Some level') as Hl0.
        { case_bool_decide; [by rewrite lookup_delete_ne in Hl'
                            | by rewrite lookup_insert_ne in Hl']. }
        exists level'. split; [done|]. split; [by eapply wf_nodup|].
        intros x. split; [|by intros [? _]].
        intros Hx. split; [done|]. eapply Helsewhere; [exact Hl0| |done]. congruence.
    + rewrite side_levels_other in Hl' by done.
      exists level'. split; [done|]. split; [by eapply wf_nodup|].
      intros x. split; [|by intros [? _]].
      intros Hx. split; [done|]. eapply Helsewhere; [exact Hl'| |done]. congruence.
  - intros sd pr level0 x Hl0 Hx Hne. unfold cancelled_book. cbv zeta.
    destruct (decide (sd = Order.side_ o)) as [->|Hsd].
    + rewrite side_levels_same.
      destruct (decide (pr = Order.price_ o)) as [->|Hpr].
      * rewrite Hlevel in Hl0. injection Hl0 as <-.
        assert (x ∈ delete i (PriceLevel.orders_ level)) as Hx'
          by (by apply (elem_of_delete_index _ i p)).
        case_bool_decide as Hempty.
        { rewrite Hempty in Hx'. by apply elem_of_nil in Hx'. }
        rewrite lookup_insert_eq. eexists. split; [done|]. done.
      * exists level0. split; [|done].
        case_bool_decide; [by rewrite lookup_delete_ne | by rewrite lookup_insert_ne].
    + rewrite side_levels_other by done. eauto.
Qed.

(** C7.  Cancelling an id the index does not have returns false and
    leaves the book and every order object as they were.  Cancelling an
    indexed id of a consistent book returns true; the order object gets
    status CANCELLED and remaining quantity 0 and every other object is
    untouched; the level removal runs on the store that already holds the
    cancelled order; afterwards the index has lost the id, no level queues
    the handle, and the book holds no order with that id. *)
Theorem cancelOrder_spec (h : heap) (b : t) (orderId : Z) :
  (orderMap_ b !! orderId = None → cancelOrder orderId h b = Some (false, h, b)) ∧
  (∀ p, wf h b → orderMap_ b !! orderId = Some p →
     ∃ o b',
       h !! p = Some o ∧
       cancelOrder orderId h b = Some (true, <[p := Order.cancel o]> h, b') ∧
       Order.status_ (Order.cancel o) = CANCELLED ∧
       Order.remainingQuantity_ (Order.cancel o) = 0 ∧
       removeFromSide (<[p := Order.cancel o]> h) orderId (Order.price_ o)
         (side_levels (Order.side_ o) b)
       = Some (side_levels (Order.side_ o) b') ∧
       orderMap_ b' = delete orderId (orderMap_ b) ∧
       (∀ sd pr level, side_levels sd b' !! pr = Some level →
          p ∉ PriceLevel.orders_ level) ∧
       ¬ book_holds_id (<[p := Order.cancel o]> h) b' orderId).
Proof.
  split.
  - intros Hnone. unfold cancelOrder. by rewrite Hnone.
  - intros p Hwf Hidx.
    destruct (cancelOrder_indexed h b orderId p Hwf Hidx)
      as (o & level & i & Ho & Hid & Hlevel & Hi & Hrem & Hcancel).
    destruct (cancelled_book_levels h b o level i p Hwf Ho Hlevel Hi) as [Hafter _].
    exists o, (cancelled_book b o level i).
    repeat (split; [done|]).
    assert (orderMap_ (cancelled_book b o level i) = delete orderId (orderMap_ b)) as Hmap.
    { unfold cancelled_book. cbv zeta. by rewrite orderMap_set_side, Hid. }
    split; [done|]. split.
    + intros sd pr level' Hl' Hin.
      destruct (Hafter sd pr level' Hl') as (level0 & _ & _ & Hiff).
      destruct (proj1 (Hiff p) Hin) as [_ Hne]. done.
    + intros [Hindexed | (sd & pr & level' & x & o' & Hl' & Hx & Ho' & Hid')].
      * rewrite Hmap, lookup_delete_eq in Hindexed. by destruct Hindexed.
      * destruct (Hafter sd pr level' Hl') as (level0 & Hl0 & _ & Hiff).
        destruct (proj1 (Hiff x) Hx) as [Hx0 Hne].
        rewrite lookup_insert_ne in Ho' by done.
        destruct (wf_level h b Hwf _ _ _ x Hl0 Hx0) as (o'' & Ho'' & Hidx'' & _).
        rewrite Ho' in Ho''. injection Ho'' as <-.
        rewrite Hid', Hidx in Hidx''. congruence.
Qed.

(** *** The consistency of the book is kept by its operations *)

Lemma wf_make h sym : wf h (make sym).
Proof.
  split.
  - intros orderId p. unfold make. simpl. by rewrite lookup_empty.
  - intros sd pr level p. destruct sd; simpl; by rewrite lookup_empty.
  - intros sd pr level. destruct sd; simpl; by rewrite lookup_empty.
Qed.

(** A new order object does not disturb the book. *)
Lemma wf_make_shared h b o :
  wf h b → wf (make_shared o h).2 b.
Proof.
  intros Hwf. unfold make_shared. simpl.
  assert (h !! fresh (dom h) = None) as Hfresh.
  { apply not_elem_of_dom. apply is_fresh. }
  split.
  - intros orderId p Hidx.
    destruct (wf_index h b Hwf orderId p Hidx) as (o' & level & Ho' & ?).
    exists o', level. split; [|done].
    rewrite lookup_insert_ne; [done|]. intros <-. congruence.
  - intros sd pr level p Hl Hp.
    destruct (wf_level h b Hwf sd pr level p Hl Hp) as (o' & Ho' & ?).
    exists o'. split; [|done].
    rewrite lookup_insert_ne; [done|]. intros <-. congruence.
  - by apply (wf_nodup h b Hwf).
Qed.

(** A modifier of an order object keeps the id, the side and the price. *)
Lemma apply_call_keys c o :
  Order.id_ (apply_call c o) = Order.id_ o ∧
  Order.side_ (apply_call c o) = Order.side_ o ∧
  Order.price_ (apply_call c o) = Order.price_ o.
Proof. by destruct c. Qed.

Lemma wf_store_update h b p o o' :
  wf h b → h !! p = Some o →
  Order.id_ o' = Order.id_ o → Order.side_ o' = Order.side_ o →
  Order.price_ o' = Order.price_ o →
  wf (<[p := o']> h) b.
Proof.
  intros Hwf Ho Hid Hsd Hpr. split.
  - intros orderId x Hidx.
    destruct (wf_index h b Hwf orderId x Hidx) as (ox & level & Hx & Hidx' & Hl & Hin).
    destruct (decide (x = p)) as [->|Hne].
    + rewrite Ho in Hx. injection Hx as <-.
      exists o', level. rewrite lookup_insert_eq, Hid, Hsd, Hpr. done.
    + exists ox, level. by rewrite lookup_insert_ne.
  - intros sd pr level x Hl Hin.
    destruct (wf_level h b Hwf sd pr level x Hl Hin) as (ox & Hx & Hidx & Hsd' & Hpr').
    destruct (decide (x = p)) as [->|Hne].
    + rewrite Ho in Hx. injection Hx as <-.
      exists o'. rewrite lookup_insert_eq, Hid, Hsd, Hpr. done.
    + exists ox. by rewrite lookup_insert_ne.
  - by apply (wf_nodup h b Hwf).
Qed.

Lemma wf_cancelOrder h b orderId r h' b' :
  wf h b → cancelOrder orderId h b = Some (r, h', b') → wf h' b'.
Proof.
  intros Hwf Hc.
  destruct (orderMap_ b !! orderId) as [p|] eqn:Hidx.
  2:{ unfold cancelOrder in Hc. rewrite Hidx in Hc. by injection Hc as <- <- <-. }
  destruct (cancelOrder_indexed h b orderId p Hwf Hidx)
    as (o & level & i & Ho & Hid & Hlevel & Hi & _ & Hcancel).
  rewrite Hcancel in Hc. injection Hc as <- <- <-.
  destruct (cancelled_book_levels h b o level i p Hwf Ho Hlevel Hi) as [Hafter Hkept].
  assert (orderMap_ (cancelled_book b o level i) = delete orderId (orderMap_ b)) as Hmap.
  { unfold cancelled_book. cbv zeta. by rewrite orderMap_set_side, Hid. }
  assert (∀ x o', x ≠ p → h !! x = Some o' → orderMap_ b !! Order.id_ o' = Some x →
            Order.id_ o' ≠ orderId) as Hother.
  { intros x o' Hne _ Hx Heq. rewrite Heq, Hidx in Hx. congruence. }
  split.
  - intros orderId' p'. rewrite Hmap. intros Hidx'.
    apply lookup_delete_Some in Hidx' as [Hne Hidx'].
    destruct (wf_index h b Hwf orderId' p' Hidx') as (o' & level0 & Ho' & Hid' & Hl0 & Hin).
    assert (p' ≠ p) as Hpp by (intros ->; congruence).
    destruct (Hkept _ _ _ p' Hl0 Hin Hpp) as (level' & Hl' & Hin').
    exists o', level'. by rewrite lookup_insert_ne.
  - intros sd pr level' x Hl' Hx.
    destruct (Hafter sd pr level' Hl') as (level0 & Hl0 & _ & Hiff).
    destruct (proj1 (Hiff x) Hx) as [Hx0 Hne].
    destruct (wf_level h b Hwf _ _ _ x Hl0 Hx0) as (o' & Ho' & Hidx' & Hsd & Hpr).
    exists o'. rewrite lookup_insert_ne by done. rewrite Hmap.
    rewrite lookup_delete_ne by (intros Heq; by eapply Hother).
    done.
  - intros sd pr level' Hl'.
    by destruct (Hafter sd pr level' Hl') as (level0 & _ & Hnd & _).
Qed.

Lemma addOrder_result h p b r b' :
  addOrder h p b = Some (r, b') →
  (r = false ∧ b' = b) ∨
  (r = true ∧ ∃ o, h !! p = Some o ∧ orderMap_ b !! Order.id_ o = None ∧
     b' = added_book b p o).
Proof.
  unfold addOrder. destruct (h !! p) as [o|] eqn:Ho; simpl; [|done].
  case_match; [intros [= <- <-]; by left|].
  destruct (orderMap_ b !! Order.id_ o) eqn:Hidx; [intros [= <- <-]; by left|].
  intros Hadd. right.
  unfold addToBidSide, addToAskSide, PriceLevel.addOrder in Hadd.
  rewrite Ho in Hadd. simpl in Hadd.
  assert (r = true ∧ b' = added_book b p o) as [-> ->]; [|by eauto].
  unfold added_book. cbv zeta.
  destruct (Order.side_ o); simpl in Hadd |- *;
    case_match; simpl in Hadd; try done;
    by injection Hadd as <- <-.
Qed.

Lemma wf_addOrder h b p r b' :
  wf h b → addOrder h p b = Some (r, b') → wf h b'.
Proof.
  intros Hwf Hadd.
  destruct (addOrder_result h p b r b' Hadd)
    as [[_ ->] | (_ & o & Ho & Hnew & ->)]; [done|].
  set (m := side_levels (Order.side_ o) b).
  set (level := default (PriceLevel.make (Order.price_ o)) (m !! Order.price_ o)).
  assert (∀ x, x ∈ PriceLevel.orders_ level →
            m !! Order.price_ o = Some level) as Hreal.
  { intros x. unfold level. destruct (m !! Order.price_ o); simpl; [done|].
    intros Hx. by apply elem_of_nil in Hx. }
  assert (∀ sd pr level' x,
            side_levels sd (added_book b p o) !! pr = Some level' →
            x ∈ PriceLevel.orders_ level' →
            (x = p ∧ sd = Order.side_ o ∧ pr = Order.price_ o) ∨
            (∃ level0, side_levels sd b !! pr = Some level0 ∧
                       x ∈ PriceLevel.orders_ level0)) as Hafter.
  { intros sd pr level' x Hl' Hx. unfold added_book in Hl'. cbv zeta in Hl'.
    destruct (decide (sd = Order.side_ o)) as [->|Hsd].
    - rewrite side_levels_same in Hl'.
      destruct (decide (pr = Order.price_ o)) as [->|Hpr].
      + rewrite lookup_insert_eq in Hl'. injection Hl' as <-. simpl in Hx.
        apply elem_of_app in Hx as [Hx|Hx].
        * right. exists level. split; [by eapply Hreal | done].
        * left. by apply list_elem_of_singleton in Hx.
      + rewrite lookup_insert_ne in Hl' by done. right. eauto.
    - rewrite side_levels_other in Hl' by done. right. eauto. }
  assert (∀ sd pr level0 x, side_levels sd b !! pr = Some level0 →
            x ∈ PriceLevel.orders_ level0 →
            ∃ level', side_levels sd (added_book b p o) !! pr = Some level' ∧
                      x ∈ PriceLevel.orders_ level') as Hkept.
  { intros sd pr level0 x Hl0 Hx. unfold added_book. cbv zeta.
    destruct (decide (sd = Order.side_ o)) as [->|Hsd].
    - rewrite side_levels_same.
      destruct (decide (pr = Order.price_ o)) as [->|Hpr].
      + rewrite lookup_insert_eq. eexists. split; [done|]. simpl.
        apply elem_of_app. left. fold m level. unfold level.
        fold m in Hl0. by rewrite Hl0.
      + rewrite lookup_insert_ne by done. eauto.
    - rewrite side_levels_other by done. eauto. }
  assert (orderMap_ (added_book b p o) = <[Order.id_ o := p]> (orderMap_ b)) as Hmap.
  { unfold added_book. cbv zeta. by rewrite orderMap_set_side. }
  assert (p ∉ PriceLevel.orders_ level) as Hnotin.
  { intros Hin. pose proof (Hreal p Hin) as Hl.
    destruct (wf_level h b Hwf _ _ _ p Hl Hin) as (o' & Ho' & Hidx' & _).
    rewrite Ho in Ho'. injection Ho' as <-. congruence. }
  split.
  - intros orderId x. rewrite Hmap. intros Hidx.
    apply lookup_insert_Some in Hidx as [[<- <-] | [Hne Hidx]].
    + exists o. eexists. split; [done|]. split; [done|].
      unfold added_book. cbv zeta. rewrite side_levels_same, lookup_insert_eq.
      split; [done|]. simpl. apply elem_of_app. right. by apply list_elem_of_singleton.
    + destruct (wf_index h b Hwf orderId x Hidx) as (o' & level0 & Ho' & Hid' & Hl0 & Hin).
      destruct (Hkept _ _ _ x Hl0 Hin) as (level' & Hl' & Hin').
      exists o', level'. done.
  - intros sd pr level' x Hl' Hx. rewrite Hmap.
    destruct (Hafter sd pr level' x Hl' Hx)
      as [(-> & -> & ->) | (level0 & Hl0 & Hx0)].
    + exists o. by rewrite lookup_insert_eq.
    + destruct (wf_level h b Hwf _ _ _ x Hl0 Hx0) as (o' & Ho' & Hidx' & Hsd & Hpr).
      exists o'. rewrite lookup_insert_ne; [done|]. congruence.
  - intros sd pr level' Hl'. unfold added_book in Hl'. cbv zeta in Hl'.
    destruct (decide (sd = Order.side_ o)) as [->|Hsd].
    + rewrite side_levels_same in Hl'.
      destruct (decide (pr = Order.price_ o)) as [->|Hpr].
      * rewrite lookup_insert_eq in Hl'. injection Hl' as <-. simpl.
        apply NoDup_app. split; [|split].
        -- fold m level. unfold level.
           destruct (m !! Order.price_ o) as [level0|] eqn:Hl0; simpl.
           ++ by eapply wf_nodup.
           ++ apply NoDup_nil_2.
        -- fold m level. intros x Hx Hx'.
           apply list_elem_of_singleton in Hx' as ->. done.
        -- apply NoDup_singleton.
      * rewrite lookup_insert_ne in Hl' by done. by eapply wf_nodup.
    + rewrite side_levels_other in Hl' by done. by eapply wf_nodup.
Qed.

Lemma wf_modifyOrder h b orderId newPrice newQuantity r h' b' :
  wf h b → modifyOrder orderId newPrice newQuantity h b = Some (r, h', b') → wf h' b'.
Proof.
  intros Hwf Hm. unfold modifyOrder in Hm.
  destruct (orderMap_ b !! orderId) as [oldOrder|]; [|by injection Hm as <- <- <-].
  destruct (h !! oldOrder) as [old|]; simpl in Hm; [|done].
  match type of Hm with
  | context [cancelOrder orderId ?h1 b] =>
      destruct (cancelOrder orderId h1 b) as [[[r2 h2] b2]|] eqn:Hc; simpl in Hm; [|done];
      assert (wf h1 b) as Hwf1
  end.
  { apply (wf_make_shared h b
             (Order.make orderId (Order.symbol_ old) (Order.side_ old)
                (Order.type_ old) newPrice newQuantity) Hwf). }
  pose proof (wf_cancelOrder _ _ _ _ _ _ Hwf1 Hc) as Hwf2.
  match type of Hm with
  | context [addOrder h2 ?p b2] =>
      destruct (addOrder h2 p b2) as [[r3 b3]|] eqn:Ha; simpl in Hm; [|done]
  end.
  injection Hm as <- <- <-. by eapply wf_addOrder.
Qed.

Lemma wf_two_bids h b : two_bids = Some (h, b) → wf h b.
Proof.
  unfold two_bids.
  destruct (make_shared (Order.make 1 "AAPL" BUY LIMIT 15000 100) ∅) as [p1 h1].
  destruct (make_shared (Order.make 2 "AAPL" BUY LIMIT 15000 200) h1) as [p2 h2].
  destruct (addOrder h2 p1 (make "AAPL")) as [[r1 b1]|] eqn:H1; simpl; [|done].
  destruct (addOrder h2 p2 b1) as [[r2 b2]|] eqn:H2; simpl; [|done].
  intros [= <- <-].
  eapply wf_addOrder; [|exact H2]. eapply wf_addOrder; [|exact H1]. apply wf_make.
Qed.

Lemma cancelOrder_spec_witness :
  ∃ h b, two_bids = Some (h, b) ∧
    ∃ o b',
      h !! 1%positive = Some o ∧
      cancelOrder 1 h b = Some (true, <[1%positive := Order.cancel o]> h, b') ∧
      Order.status_ (Order.cancel o) = CANCELLED ∧
      Order.remainingQuantity_ (Order.cancel o) = 0 ∧
      removeFromSide (<[1%positive := Order.cancel o]> h) 1 (Order.price_ o)
        (side_levels (Order.side_ o) b)
      = Some (side_levels (Order.side_ o) b') ∧
      orderMap_ b' = delete 1 (orderMap_ b) ∧
      (∀ sd pr level, side_levels sd b' !! pr = Some level →
         1%positive ∉ PriceLevel.orders_ level) ∧
      ¬ book_holds_id (<[1%positive := Order.cancel o]> h) b' 1.
Proof.
  do 2 eexists. split; [vm_compute; reflexivity|].
  apply (proj2 (cancelOrder_spec _ _ 1) 1%positive).
  - apply wf_two_bids. vm_compute. reflexivity.
  - vm_compute. reflexivity.
Defined.

End order_book.

(** ** Claims about the risk manager *)

Section risk.
Import RiskManager.

Lemma positions_at_fst sym ps :
  (positions_at sym ps).1 = default Position_default (ps !! sym).
Proof. unfold positions_at. by destruct (ps !! sym). Qed.

(** What [validateOrder] does leave alone: the limits, the three scalars
    and every entry the table already had; a lookup through [getPosition]
    cannot tell the difference. *)
Lemma validateOrder_frame order currentPrice rm :
  let rm' := (validateOrder order currentPrice rm).2 in
  limits_ rm' = limits_ rm ∧ dailyPnL_ rm' = dailyPnL_ rm ∧
  peakEquity_ rm' = peakEquity_ rm ∧ currentEquity_ rm' = currentEquity_ rm ∧
  (∀ sym, getPosition sym rm' = getPosition sym rm) ∧
  (∀ sym p, positions_ rm !! sym = Some p → positions_ rm' !! sym = Some p).
Proof.
  unfold validateOrder, getPosition, positions_at.
  destruct (positions_ rm !! Order.symbol_ order) eqn:E;
    repeat case_match; simpl; repeat split; try done;
    try (intros sym; destruct (decide (Order.symbol_ order = sym)) as [<-|Hne];
         [by rewrite lookup_insert_eq, E | by rewrite lookup_insert_ne]);
    try (intros sym p Hp; destruct (decide (Order.symbol_ order = sym)) as [<-|Hne];
         [congruence | by rewrite lookup_insert_ne]).
Qed.

(** Once the size and value checks have passed, the table is the one the
    subscript operator leaves behind. *)
Lemma validateOrder_table order currentPrice rm :
  (validateOrder order currentPrice rm).1 ≠ REJECTED_ORDER_SIZE →
  (validateOrder order currentPrice rm).1 ≠ REJECTED_ORDER_VALUE →
  positions_ (validateOrder order currentPrice rm).2
  = (positions_at (Order.symbol_ order) (positions_ rm)).2.
Proof.
  unfold validateOrder.
  destruct (positions_at (Order.symbol_ order) (positions_ rm)) as [position ps].
  repeat case_match; simpl; congruence.
Qed.

(** C4.  [validateOrder] is expected to leave the position table as it
    was, the set of symbols with an entry included.  On a manager with an
    empty table, a LIMIT BUY of 100 AAPL at 150.00 is accepted and the table
    has an entry for AAPL afterwards: the default position, which the
    lookup inserted. *)
Theorem validateOrder_inserts_position :
  let rm := make RiskLimits_default in
  let order := Order.make 1 "AAPL" BUY LIMIT 15000 100 in
  let result := validateOrder order (Z2double 150) rm in
  positions_ rm !! "AAPL" = None ∧
  dom (positions_ rm) = ∅ ∧
  result.1 = ACCEPTED ∧
  positions_ result.2 !! "AAPL" = Some Position_default ∧
  dom (positions_ result.2) = {["AAPL"]}.
Proof.
  cbv zeta.
  assert ((validateOrder (Order.make 1 "AAPL" BUY LIMIT 15000 100) (Z2double 150)
             (make RiskLimits_default)).1 = ACCEPTED) as Hacc by (by vm_compute).
  assert (positions_ (validateOrder (Order.make 1 "AAPL" BUY LIMIT 15000 100)
                        (Z2double 150) (make RiskLimits_default)).2
          = <["AAPL" := Position_default]> ∅) as ->.
  { rewrite validateOrder_table; rewrite ?Hacc; try done. }
  simpl. split; [done|]. split; [apply dom_empty_L|]. split; [done|].
  split; [apply lookup_insert_eq|].
  rewrite dom_insert_L, dom_empty_L. set_solver.
Qed.

Lemma i64_small z : - 2 ^ 63 ≤ z < 2 ^ 63 → i64 z = z.
Proof. intros Hz. unfold i64. rewrite Z.mod_small; lia. Qed.

Lemma SFcompare_antisym x y : SFcompare y x = CompOpp <$> SFcompare x y.
Proof.
  destruct x as [[]|[]| |[] mx ex], y as [[]|[]| |[] my ey]; simpl; try done;
    rewrite (Z.compare_antisym ex ey);
    destruct (ex ?= ey) eqn:E; simpl; try done;
    change (PosDef.Pos.compare_cont Eq my mx) with (Pos.compare_cont Eq my mx);
    change (PosDef.Pos.compare_cont Eq mx my) with (Pos.compare_cont Eq mx my);
    rewrite (ZC4 my mx); by destruct (Pos.compare_cont Eq mx my).
Qed.

Lemma SFcompare_defined x y :
  SFcompare x x ≠ None → SFcompare y y ≠ None → is_Some (SFcompare x y).
Proof.
  destruct x as [[]|[]| |[] mx ex], y as [[]|[]| |[] my ey]; simpl; by eauto.
Qed.

(** On operands that are not NaN, [a > b] is the failure of [a ≤ b]. *)
Lemma dgt_not_dle a b :
  PrimFloat.is_nan a = false → PrimFloat.is_nan b = false →
  dgt a b = negb (dle a b).
Proof.
  unfold PrimFloat.is_nan, dgt, dle. intros Ha Hb.
  rewrite FloatAxioms.eqb_spec in Ha, Hb.
  rewrite FloatAxioms.ltb_spec, FloatAxioms.leb_spec.
  unfold SFeqb in Ha, Hb. unfold SFltb, SFleb.
  destruct (SFcompare_defined (Prim2SF a) (Prim2SF b)) as [c Hc].
  - destruct (SFcompare (Prim2SF a) (Prim2SF a)); done.
  - destruct (SFcompare (Prim2SF b) (Prim2SF b)); done.
  - rewrite (SFcompare_antisym (Prim2SF a) (Prim2SF b)), Hc. by destruct c.
Qed.

Lemma gtb_not_leb a b : (a >? b) = negb (a <=? b).
Proof. destruct (Z.gtb_spec a b), (Z.leb_spec a b); simpl; done || lia. Qed.

(** The prospective position the code computes, with its int64 wrap-around
    and its [std::abs], is the one of the specification as long as that one
    is an int64 other than INT64_MIN. *)
Lemma prospective_in_range order rm :
  - 2 ^ 63 < prospectivePosition order rm < 2 ^ 63 →
  abs64 (match Order.side_ order with
         | BUY => i64 (quantity (getPosition (Order.symbol_ order) rm)
                       + Order.quantity_ order)
         | SELL => i64 (quantity (getPosition (Order.symbol_ order) rm)
                        - Order.quantity_ order)
         end)
  = Z.abs (prospectivePosition order rm).
Proof.
  unfold prospectivePosition, abs64. intros Hr.
  destruct (Order.side_ order).
  - rewrite (i64_small (_ + _)) by lia. apply i64_small. lia.
  - rewrite (i64_small (_ - _)) by lia. apply i64_small. lia.
Qed.

(** C5, as the code has it.  As long as the prospective position
    currentPos ± quantity is an int64 other than INT64_MIN and none of the
    amounts and limits compared by the value and loss checks is a NaN, the
    verdict of [validateOrder] is the rejection reason of the first failing
    check among order size, order value, position size, position value,
    daily loss and drawdown, in that order, and ACCEPTED when none fails.
    Whatever the values are, an order larger than maxOrderSize is rejected
    for its size, and the price of the value checks is the reference price
    for a MARKET order and the order's own price otherwise. *)
Theorem validateOrder_first_failing_check order referencePrice rm :
  (- 2 ^ 63 < prospectivePosition order rm < 2 ^ 63 →
   no_nan (compared_values order referencePrice rm) = true →
   (validateOrder order referencePrice rm).1
   = first_failing (risk_checks order referencePrice rm)) ∧
  (Order.quantity_ order > maxOrderSize (limits_ rm) →
   (validateOrder order referencePrice rm).1 = REJECTED_ORDER_SIZE) ∧
  (Order.type_ order = MARKET → orderPrice order referencePrice = referencePrice) ∧
  (Order.type_ order ≠ MARKET →
   orderPrice order referencePrice = priceToDouble (Order.price_ order)).
Proof.
  assert (orderPrice order referencePrice = effectivePrice order referencePrice) as Hp.
  { unfold orderPrice, effectivePrice. by destruct (Order.type_ order). }
  split; [|repeat split].
  - intros Hrange Hnan.
    pose proof (prospective_in_range order rm Hrange) as Habs.
    unfold no_nan, compared_values in Hnan. cbn [forallb] in Hnan.
    rewrite !andb_true_iff, !negb_true_iff in Hnan.
    destruct Hnan as (N1 & N2 & N3 & N4 & N5 & N6 & N7 & N8 & _).
    unfold validateOrder, risk_checks. cbv zeta.
    rewrite Hp.
    pose proof (positions_at_fst (Order.symbol_ order) (positions_ rm)) as Hq.
    destruct (positions_at (Order.symbol_ order) (positions_ rm)) as [position ps].
    cbn [fst] in Hq. fold (getPosition (Order.symbol_ order) rm) in Hq.
    rewrite Hq. cbn [limits_ dailyPnL_ peakEquity_ currentEquity_ set_positions].
    rewrite Habs.
    change (dlt (dailyPnL_ rm) (PrimFloat.opp (maxDailyLoss (limits_ rm))))
      with (dgt (PrimFloat.opp (maxDailyLoss (limits_ rm))) (dailyPnL_ rm)).
    rewrite (dgt_not_dle _ _ N1 N2), (dgt_not_dle _ _ N3 N4), (dgt_not_dle _ _ N6 N5),
      (dgt_not_dle _ _ N7 N8), !gtb_not_leb.
    cbn [first_failing].
    by repeat case_match.
  - intros Hq. unfold validateOrder.
    by replace (Order.quantity_ order >? maxOrderSize (limits_ rm)) with true by lia.
  - intros Hty. unfold orderPrice. by rewrite Hty.
  - intros Hty. unfold orderPrice. by destruct (Order.type_ order).
Qed.

Lemma validateOrder_first_failing_check_witness :
  let limits := mkLimits 1000 (Z2double 150000) 5000 (Z2double 5000000)
                  (Z2double 50000) (Z2double 200000) 100 in
  let tooLarge := Order.make 2 "AAPL" BUY LIMIT 15000 2000 in
  let tooDear := Order.make 3 "AAPL" BUY LIMIT 15100 1000 in
  let tooMany := Order.make 4 "AAPL" SELL LIMIT 1000 1000 in
  (validateOrder tooLarge (Z2double 150) (make limits)).1 = REJECTED_ORDER_SIZE ∧
  (validateOrder tooDear (Z2double 150) (make limits)).1
  = first_failing (risk_checks tooDear (Z2double 150) (make limits)) ∧
  first_failing (risk_checks tooDear (Z2double 150) (make limits))
  = REJECTED_ORDER_VALUE ∧
  (validateOrder tooMany (Z2double 150) (make RiskLimits_default)).1
  = first_failing (risk_checks tooMany (Z2double 150) (make RiskLimits_default)) ∧
  first_failing (risk_checks tooMany (Z2double 150) (make RiskLimits_default))
  = ACCEPTED.
Proof.
  cbv zeta.
  split; [apply (validateOrder_first_failing_check
                   (Order.make 2 "AAPL" BUY LIMIT 15000 2000)); simpl; lia|].
  split; [apply (validateOrder_first_failing_check
                   (Order.make 3 "AAPL" BUY LIMIT 15100 1000));
          [by vm_compute | vm_compute; reflexivity]|].
  split; [vm_compute; reflexivity|].
  split; [apply (validateOrder_first_failing_check
                   (Order.make 4 "AAPL" SELL LIMIT 1000 1000));
          [by vm_compute | vm_compute; reflexivity]|].
  vm_compute. reflexivity.
Defined.

(** C5, as stated, fails.  With maxOrderSize at 2^64 − 1, a LIMIT BUY of
    2^64 − 1 units at price 0 from a flat position passes the size and
    value checks; the prospective position 0 + (2^64 − 1) is far above
    maxPositionSize = 50000, so the position-size check is the first to
    fail, but the order is ACCEPTED: as an int64 the prospective position
    is −1.  And a MARKET BUY of 100 validated at a reference price that is
    a NaN has an order value that is not ≤ maxOrderValue, so the
    order-value check is the first to fail, but the order is ACCEPTED:
    the code rejects when value > maxOrderValue, which a NaN never is. *)
Lemma validateOrder_accepts_failing_check :
  let wide := mkLimits (2 ^ 64 - 1) (Z2double 1000000) 50000 (Z2double 5000000)
                (Z2double 100000) (Z2double 200000) 100 in
  let huge := Order.make 1 "AAPL" BUY LIMIT 0 (2 ^ 64 - 1) in
  let market := Order.make_market 2 "AAPL" BUY 100 in
  first_failing (risk_checks huge (Z2double 0) (make wide)) = REJECTED_POSITION_LIMIT ∧
  (validateOrder huge (Z2double 0) (make wide)).1 = ACCEPTED ∧
  first_failing (risk_checks market PrimFloat.nan (make RiskLimits_default))
  = REJECTED_ORDER_VALUE ∧
  (validateOrder market PrimFloat.nan (make RiskLimits_default)).1 = ACCEPTED.
Proof. cbv zeta. repeat split; vm_compute; reflexivity. Qed.

(** The position and the daily profit after [updatePosition], in terms of
    the position before. *)
Lemma updatePosition_position it tr side rm :
  let sym := Trade.symbol_ tr in
  let p := getPosition sym rm in
  let named := if String.eqb (symbol p) "" then set_symbol sym p else p in
  let r := applyTrade (priceToDouble (Trade.price_ tr)) (Trade.quantity_ tr)
             (bool_decide (side = BUY)) named in
  getPosition sym (updatePosition it tr side rm) = r.1 ∧
  dailyPnL_ (updatePosition it tr side rm)
  = match r.2 with
    | Some x => PrimFloat.add (dailyPnL_ rm) x
    | None => dailyPnL_ rm
    end.
Proof.
  cbv zeta. unfold updatePosition, getPosition.
  rewrite <- (positions_at_fst (Trade.symbol_ tr) (positions_ rm)).
  destruct (positions_at (Trade.symbol_ tr) (positions_ rm)) as [position ps].
  simpl.
  destruct (applyTrade _ _ _ _) as [position' pnl]. simpl.
  by rewrite lookup_insert_eq.
Qed.

(** The fields of a position that a change of its symbol leaves alone. *)
Lemma named_fields sym (p : Position) :
  let named := if String.eqb (symbol p) "" then set_symbol sym p else p in
  quantity named = quantity p ∧ averagePrice named = averagePrice p ∧
  realizedPnL named = realizedPnL p.
Proof. cbv zeta. by destruct (String.eqb (symbol p) ""). Qed.






End risk.

(** ** The consistency of the book along the runs of an engine *)

Section runs.
Import MatchingEngine.

Lemma orderUpdate_frame order s s' :
  orderUpdate order s = Some s' → store s' = store s ∧ engine s' = engine s.
Proof.
  unfold orderUpdate. destruct (orderUpdateCallback_ (engine s)).
  - destruct (store s !! order); simpl; [|done]. by intros [= <-].
  - by intros [= <-].
Qed.

Lemma notifyTrades_frame trades s :
  store (notifyTrades trades s) = store s ∧ engine (notifyTrades trades s) = engine s.
Proof. unfold notifyTrades. by destruct (tradeCallback_ (engine s)). Qed.

(** A limit order is matched against nothing and then offered to the book. *)
Lemma matchLimitOrder_result fuel order s trades s' :
  matchLimitOrder fuel order s = Some (trades, s') →
  trades = [] ∧ store s' = store s ∧
  (orderBook_ (engine s') = orderBook_ (engine s) ∨
   ∃ r, OrderBook.addOrder (store s) order (orderBook_ (engine s))
        = Some (r, orderBook_ (engine s'))).
Proof.
  unfold matchLimitOrder, matchLimitBuyOrder, matchLimitSellOrder.
  destruct (store s !! order) as [o|] eqn:Ho; simpl; [|done].
  intros Hm.
  assert (∃ s1, orderUpdate order s = Some s1 ∧
            (o1 ← store s1 !! order;
             b2 ← (if Order.remainingQuantity_ o1 >? 0 then
                     '(_, b) ← OrderBook.addOrder (store s1) order (orderBook_ (engine s1));
                     Some b
                   else Some (orderBook_ (engine s1)));
             Some ([] : list Trade.t,
                   mkState (store s1)
                     (set_stats
                        (mkStats (totalTrades (stats_ (engine s1)))
                           (totalVolume (stats_ (engine s1)))
                           (totalValue (stats_ (engine s1)))
                           (marketOrdersMatched (stats_ (engine s1)))
                           (u64 (limitOrdersMatched (stats_ (engine s1)) + 1)))
                        (set_book b2 (engine s1))) (trace s1)))
            = Some (trades, s')) as (s1 & Hu & Hrest).
  { destruct (Order.side_ o); simpl in Hm;
      rewrite ?matchLimitBuyLoop_idle, ?matchLimitSellLoop_idle in Hm; simpl in Hm;
      destruct (orderUpdate order s) as [s1|]; simpl in Hm; try done; eauto. }
  destruct (orderUpdate_frame order s s1 Hu) as [Hst He].
  rewrite Hst, He, Ho in Hrest. simpl in Hrest.
  destruct (Order.remainingQuantity_ o >? 0).
  - destruct (OrderBook.addOrder (store s) order (orderBook_ (engine s)))
      as [[r b]|] eqn:Ha; simpl in Hrest; [|done].
    injection Hrest as <- <-. simpl. split; [done|]. split; [done|]. right. eauto.
  - simpl in Hrest. injection Hrest as <- <-. simpl. auto.
Qed.

Lemma wf_submitOrder fuel order s trades s' :
  wf (store s) (orderBook_ (engine s)) →
  submitOrder fuel order s = Some (trades, s') →
  wf (store s') (orderBook_ (engine s')).
Proof.
  intros Hwf. unfold submitOrder.
  destruct (store s !! order) as [o|] eqn:Ho; simpl; [|done].
  case_match; [by intros [= <- <-]|].
  destruct (Order.type_ o).
  - destruct (matchMarketOrder_result fuel order o s Ho) as (s1 & Hm & Hst & Hb & _).
    rewrite Hm. simpl. intros [= <- <-].
    destruct (notifyTrades_frame [] s1) as [-> ->]. by rewrite Hst, Hb.
  - destruct (matchLimitOrder fuel order s) as [[trades1 s1]|] eqn:Hm; simpl; [|done].
    intros [= <- <-].
    destruct (notifyTrades_frame trades1 s1) as [-> ->].
    destruct (matchLimitOrder_result _ _ _ _ _ Hm) as (_ & Hst & [Hb | (r & Ha)]).
    + by rewrite Hst, Hb.
    + rewrite Hst. by eapply wf_addOrder.
  - simpl. intros [= <- <-]. by destruct (notifyTrades_frame [] s) as [-> ->].
  - simpl. intros [= <- <-]. by destruct (notifyTrades_frame [] s) as [-> ->].
Qed.

Lemma wf_step s s' :
  step s s' →
  wf (store s) (orderBook_ (engine s)) → wf (store s') (orderBook_ (engine s')).
Proof.
  intros Hstep Hwf.
  destruct Hstep as [o s | c p o s Ho | fuel order s trades s' Hs
    | orderId s r s' Hc | orderId newPrice newQuantity s r s' Hm
    | order s r b Ha].
  - unfold new_order.
    pose proof (wf_make_shared (store s) (orderBook_ (engine s)) o Hwf) as Hwf'.
    by destruct (make_shared o (store s)).
  - simpl. destruct (apply_call_keys c o) as (Hid & Hsd & Hpr).
    by eapply wf_store_update.
  - by eapply wf_submitOrder.
  - unfold cancelOrder in Hc.
    destruct (OrderBook.cancelOrder orderId (store s) (orderBook_ (engine s)))
      as [[[r' h'] b']|] eqn:Hc'; simpl in Hc; [|done].
    injection Hc as <- <-. simpl. by eapply wf_cancelOrder.
  - unfold modifyOrder in Hm.
    destruct (OrderBook.modifyOrder orderId newPrice newQuantity (store s)
                (orderBook_ (engine s)))
      as [[[r' h'] b']|] eqn:Hm'; simpl in Hm; [|done].
    injection Hm as <- <-. simpl. by eapply wf_modifyOrder.
  - simpl. by eapply wf_addOrder.
Qed.

Lemma wf_run s s' :
  rtc step s s' →
  wf (store s) (orderBook_ (engine s)) → wf (store s') (orderBook_ (engine s')).
Proof.
  induction 1 as [s | s1 s2 s3 Hstep _ IH]; [done|].
  intros Hwf. apply IH. by eapply wf_step.
Qed.

(** Every state an engine can be in has a consistent book. *)
Lemma reachable_wf symbol s :
  reachable symbol s → wf (store s) (orderBook_ (engine s)).
Proof. intros Hrun. eapply wf_run; [exact Hrun|]. apply wf_make. Qed.

End runs.

(** * Further properties of the code *)

(** ** Orders and prices *)

Section orders.
Import Order.

Lemma u64_small z : 0 ≤ z < 2 ^ 64 → u64 z = z.
Proof. intros Hz. unfold u64. by rewrite Z.mod_small. Qed.

(** X1.  [fillQuantity] never takes more than what remains: the remaining
    quantity goes down by min(qty, remaining) and never below 0, the status
    becomes FILLED exactly when nothing remains and PARTIALLY_FILLED
    otherwise, and the id, symbol, side, type, price and original quantity
    are kept. *)
Theorem fillQuantity_clamps qty o :
  0 ≤ remainingQuantity_ o < 2 ^ 64 → 0 ≤ qty →
  let o' := fillQuantity qty o in
  remainingQuantity_ o' = remainingQuantity_ o - Z.min qty (remainingQuantity_ o) ∧
  0 ≤ remainingQuantity_ o' ≤ remainingQuantity_ o ∧
  (status_ o' = FILLED ↔ remainingQuantity_ o' = 0) ∧
  (status_ o' = PARTIALLY_FILLED ↔ remainingQuantity_ o' ≠ 0) ∧
  id_ o' = id_ o ∧ symbol_ o' = symbol_ o ∧ side_ o' = side_ o ∧
  type_ o' = type_ o ∧ price_ o' = price_ o ∧ quantity_ o' = quantity_ o.
Proof.
  intros Hrem Hqty. cbv zeta. unfold fillQuantity. simpl.
  assert (u64 (remainingQuantity_ o
               - (if qty >? remainingQuantity_ o then remainingQuantity_ o else qty))
          = remainingQuantity_ o - Z.min qty (remainingQuantity_ o)) as ->.
  { destruct (qty >? remainingQuantity_ o) eqn:E.
    - rewrite Z.min_r by lia. rewrite u64_small; lia.
    - rewrite Z.min_l by lia. rewrite u64_small; lia. }
  repeat split; try lia;
    destruct (remainingQuantity_ o - Z.min qty (remainingQuantity_ o) =? 0) eqn:E;
    try done; try lia.
Qed.

Lemma fillQuantity_clamps_witness :
  let o' := fillQuantity 500 (make 1 "AAPL" BUY LIMIT 15000 200) in
  remainingQuantity_ o' = 0 ∧ status_ o' = FILLED.
Proof.
  cbv zeta.
  destruct (fillQuantity_clamps 500 (make 1 "AAPL" BUY LIMIT 15000 200))
    as (Hrem & _ & Hfilled & _); [simpl; lia | lia |].
  split; [exact Hrem | apply Hfilled; exact Hrem].
Defined.

(** X2.  An order with nothing remaining comes out of [fillQuantity] as
    FILLED whatever its status was: a cancelled or rejected order that is
    filled again reports FILLED. *)
Theorem fillQuantity_overwrites_status qty o :
  remainingQuantity_ o = 0 → 0 ≤ qty →
  status_ (fillQuantity qty o) = FILLED ∧
  remainingQuantity_ (fillQuantity qty o) = 0.
Proof.
  intros Hrem Hqty. unfold fillQuantity. simpl. rewrite Hrem.
  destruct (qty >? 0) eqn:E; simpl.
  - done.
  - assert (qty = 0) as -> by lia. done.
Qed.

Lemma fillQuantity_overwrites_status_witness :
  status_ (fillQuantity 10 (cancel (make 1 "AAPL" BUY LIMIT 15000 200))) = FILLED ∧
  remainingQuantity_ (fillQuantity 10 (cancel (make 1 "AAPL" BUY LIMIT 15000 200))) = 0.
Proof.
  apply (fillQuantity_overwrites_status 10
           (cancel (make 1 "AAPL" BUY LIMIT 15000 200))); [reflexivity | lia].
Defined.

(** X3.  [canMatch] does not depend on which of the two orders is asked. *)
Theorem canMatch_symmetric a b : canMatch a b = canMatch b a.
Proof.
  unfold canMatch.
  rewrite (String.eqb_sym (symbol_ b) (symbol_ a)).
  rewrite (orb_comm (remainingQuantity_ b =? 0)).
  rewrite (orb_comm (bool_decide (type_ b = MARKET))).
  destruct (side_ a), (side_ b); simpl; try done;
    repeat case_match; try done; lia.
Qed.

(** X4.  Two orders that [canMatch] accepts are on opposite sides, in the
    same symbol, both with a remaining quantity, and, unless one of them is
    a market order, the buyer's price is at least the seller's. *)
Theorem canMatch_sound a b :
  canMatch a b = true →
  side_ a ≠ side_ b ∧ symbol_ a = symbol_ b ∧
  remainingQuantity_ a ≠ 0 ∧ remainingQuantity_ b ≠ 0 ∧
  (type_ a ≠ MARKET → type_ b ≠ MARKET →
   match side_ a with
   | BUY => price_ b ≤ price_ a
   | SELL => price_ a ≤ price_ b
   end).
Proof.
  unfold canMatch. case_bool_decide as Hside; [done|].
  destruct (String.eqb (symbol_ a) (symbol_ b)) eqn:Hsym; simpl; [|done].
  apply String.eqb_eq in Hsym.
  destruct (remainingQuantity_ a =? 0) eqn:Ha; simpl; [done|].
  destruct (remainingQuantity_ b =? 0) eqn:Hb; simpl; [done|].
  intros Hm. repeat (split; [done || lia|]).
  intros Hta Htb.
  rewrite bool_decide_eq_false_2 in Hm by done.
  rewrite bool_decide_eq_false_2 in Hm by done.
  simpl in Hm. destruct (side_ a); lia.
Qed.

Lemma canMatch_sound_witness :
  let bid := make 2 "AAPL" BUY LIMIT 15000 100 in
  let ask := make 1 "AAPL" SELL LIMIT 14950 100 in
  side_ bid ≠ side_ ask ∧ symbol_ bid = symbol_ ask ∧
  remainingQuantity_ bid ≠ 0 ∧ remainingQuantity_ ask ≠ 0 ∧
  (type_ bid ≠ MARKET → type_ ask ≠ MARKET → price_ ask ≤ price_ bid).
Proof.
  cbv zeta.
  apply (canMatch_sound (make 2 "AAPL" BUY LIMIT 15000 100)
           (make 1 "AAPL" SELL LIMIT 14950 100)).
  reflexivity.
Defined.

End orders.

Lemma prices_round_trip_ok_elim n p q :
  prices_round_trip_ok n p = true → p ≤ q < p + Z.of_nat n →
  price_round_trip_ok q = true.
Proof.
  revert p. induction n as [|n IH]; intros p Hall Hq; [lia|].
  simpl in Hall. apply andb_true_iff in Hall as [Hp Hrest].
  destruct (decide (q = p)) as [->|Hne]; [done|].
  apply (IH (p + 1)); [done | lia].
Qed.

(** X5.  A price between 0.00 and 999.99 that is converted to display
    units and back is the same price or one hundredth less, and the loss
    does occur: 0.29 comes back as 0.28. *)
Theorem price_round_trip p :
  0 ≤ p < 100000 →
  (doubleToPrice (priceToDouble p) = Some p ∨
   doubleToPrice (priceToDouble p) = Some (p - 1)) ∧
  doubleToPrice (priceToDouble 29) = Some 28.
Proof.
  intros Hp. split; [|by vm_compute].
  assert (prices_round_trip_ok (Z.to_nat 100000) 0 = true) as Hall
    by (vm_compute; reflexivity).
  assert (price_round_trip_ok p = true) as Hok.
  { apply (prices_round_trip_ok_elim _ _ _ Hall). lia. }
  unfold price_round_trip_ok in Hok.
  destruct (doubleToPrice (priceToDouble p)) as [v|]; [|done].
  apply orb_true_iff in Hok as [Hv|Hv]; [left | right]; f_equal; lia.
Qed.

Lemma price_round_trip_witness :
  (doubleToPrice (priceToDouble 15000) = Some 15000 ∨
   doubleToPrice (priceToDouble 15000) = Some (15000 - 1)) ∧
  doubleToPrice (priceToDouble 29) = Some 28.
Proof. apply (price_round_trip 15000). lia. Defined.

(** ** The ordered view of a side of the book *)

Section ordered_view.
Context {V : Type} (before : Z → Z → bool).
Hypothesis before_trans : ∀ x y z, before x y = true → before y z = true → before x z = true.
Hypothesis before_total : ∀ x y, x ≠ y → before x y = false → before y x = true.

Lemma elem_of_insert_in_order (kv x : Z * V) l :
  x ∈ insert_in_order before kv l ↔ x = kv ∨ x ∈ l.
Proof.
  induction l as [|kv' l IH]; simpl.
  - rewrite list_elem_of_singleton, elem_of_nil. tauto.
  - destruct (before kv.1 kv'.1).
    + by rewrite elem_of_cons.
    + rewrite !elem_of_cons, IH. tauto.
Qed.

Lemma length_insert_in_order (kv : Z * V) l :
  length (insert_in_order before kv l) = S (length l).
Proof.
  induction l as [|kv' l IH]; simpl; [done|].
  destruct (before kv.1 kv'.1); simpl; by rewrite ?IH.
Qed.

Lemma insert_in_order_sorted (kv : Z * V) l :
  StronglySorted (λ a b : Z * V, before a.1 b.1 = true) l →
  (∀ x, x ∈ l → x.1 ≠ kv.1) →
  StronglySorted (λ a b : Z * V, before a.1 b.1 = true) (insert_in_order before kv l).
Proof.
  induction l as [|kv' l IH]; intros Hs Hne; simpl.
  - repeat constructor.
  - apply StronglySorted_cons in Hs as [Hall Hs].
    destruct (before kv.1 kv'.1) eqn:Hb.
    + apply StronglySorted_cons. split; [|by apply StronglySorted_cons].
      constructor; [done|]. rewrite Forall_forall in Hall |- *.
      intros x Hx. eapply before_trans; [exact Hb|]. by apply Hall.
    + apply StronglySorted_cons. split.
      * rewrite Forall_forall in Hall |- *. intros x Hx.
        apply elem_of_insert_in_order in Hx as [->|Hx]; [|by apply Hall].
        apply before_total; [|done]. intros Heq. eapply (Hne kv'); [by left | done].
      * apply IH; [done|]. intros x Hx. apply Hne. by right.
Qed.

Lemma foldr_insert_in_order (l : list (Z * V)) :
  NoDup l.*1 →
  let r := foldr (insert_in_order before) [] l in
  (∀ x, x ∈ r ↔ x ∈ l) ∧ length r = length l ∧
  StronglySorted (λ a b : Z * V, before a.1 b.1 = true) r.
Proof.
  induction l as [|kv l IH]; intros Hnd; simpl.
  - split; [done|]. split; [done|]. constructor.
  - rewrite fmap_cons in Hnd. apply NoDup_cons in Hnd as [Hnotin Hnd].
    destruct (IH Hnd) as (Hel & Hlen & Hs). cbv zeta in Hel, Hlen, Hs.
    split; [|split].
    + intros x. rewrite elem_of_insert_in_order, elem_of_cons, Hel. done.
    + by rewrite length_insert_in_order, Hlen.
    + apply insert_in_order_sorted; [done|].
      intros x Hx Heq. apply Hnotin. rewrite <- Heq.
      apply list_elem_of_fmap. exists x. split; [done|]. by apply Hel.
Qed.

(** The ordered view lists the entries of the map, each once, with every
    entry before the ones that follow it. *)
Lemma in_order_spec (m : gmap Z V) :
  (∀ k v, (k, v) ∈ in_order before m ↔ m !! k = Some v) ∧
  length (in_order before m) = size m ∧
  StronglySorted (λ a b : Z * V, before a.1 b.1 = true) (in_order before m).
Proof.
  unfold in_order.
  destruct (foldr_insert_in_order (map_to_list m) (NoDup_fst_map_to_list m))
    as (Hel & Hlen & Hs).
  cbv zeta in Hel, Hlen, Hs. split; [|split].
  - intros k v. by rewrite Hel, elem_of_map_to_list.
  - by rewrite Hlen, length_map_to_list.
  - done.
Qed.

(** The first entry of the ordered view: none when the map is empty,
    otherwise an entry no key of the map comes before. *)
Lemma in_order_head (m : gmap Z V) :
  match head (in_order before m) with
  | None => m = ∅
  | Some kv => m !! kv.1 = Some kv.2 ∧
               ∀ k, is_Some (m !! k) → k ≠ kv.1 → before kv.1 k = true
  end.
Proof.
  destruct (in_order_spec m) as (Hel & Hlen & Hs).
  destruct (in_order before m) as [|[k0 v0] l] eqn:E; simpl.
  - apply map_size_empty_inv. by rewrite <- Hlen.
  - split; [apply Hel; by left|].
    intros k [v Hk] Hne. apply Hel in Hk.
    apply elem_of_cons in Hk as [Hk|Hk]; [by injection Hk|].
    apply StronglySorted_cons in Hs as [Hall _].
    rewrite Forall_forall in Hall. by apply (Hall (k, v)).
Qed.

End ordered_view.

Section best_prices.
Import OrderBook.

Lemma gtb_trans x y z : Z.gtb x y = true → Z.gtb y z = true → Z.gtb x z = true.
Proof. lia. Qed.
Lemma gtb_total x y : x ≠ y → Z.gtb x y = false → Z.gtb y x = true.
Proof. lia. Qed.
Lemma ltb_trans x y z : Z.ltb x y = true → Z.ltb y z = true → Z.ltb x z = true.
Proof. lia. Qed.
Lemma ltb_total x y : x ≠ y → Z.ltb x y = false → Z.ltb y x = true.
Proof. lia. Qed.

(** X6.  [getBestBid] is empty exactly when no bid level exists and is
    otherwise the highest price with a bid level; [getBestAsk] is empty
    exactly when no ask level exists and is otherwise the lowest price with
    an ask level. *)
Theorem best_prices_are_extremes b :
  match getBestBid b with
  | None => bids_ b = ∅
  | Some p => is_Some (bids_ b !! p) ∧ ∀ p', is_Some (bids_ b !! p') → p' ≤ p
  end ∧
  match getBestAsk b with
  | None => asks_ b = ∅
  | Some p => is_Some (asks_ b !! p) ∧ ∀ p', is_Some (asks_ b !! p') → p ≤ p'
  end.
Proof.
  unfold getBestBid, getBestAsk, bids_in_order, asks_in_order. split.
  - pose proof (in_order_head Z.gtb gtb_trans gtb_total (bids_ b)) as H.
    destruct (head (in_order Z.gtb (bids_ b))) as [[p level]|]; simpl in *; [|done].
    destruct H as [Hp Hmax]. split; [by eauto|].
    intros p' Hp'. destruct (decide (p' = p)) as [->|Hne]; [lia|].
    specialize (Hmax p' Hp' Hne). lia.
  - pose proof (in_order_head Z.ltb ltb_trans ltb_total (asks_ b)) as H.
    destruct (head (in_order Z.ltb (asks_ b))) as [[p level]|]; simpl in *; [|done].
    destruct H as [Hp Hmin]. split; [by eauto|].
    intros p' Hp'. destruct (decide (p' = p)) as [->|Hne]; [lia|].
    specialize (Hmin p' Hp' Hne). lia.
Qed.

Lemma StronglySorted_weaken {A} (R1 R2 : A → A → Prop) (l : list A) :
  (∀ x y, R1 x y → R2 x y) → StronglySorted R1 l → StronglySorted R2 l.
Proof.
  intros Himpl. induction 1 as [|x l Hs IH Hall]; constructor; [done|].
  eapply Forall_impl; [exact Hall|]. intros y. apply Himpl.
Qed.

Lemma depth_view (before : Z → Z → bool) (m : gmap Z PriceLevel.t) n :
  (∀ x y z, before x y = true → before y z = true → before x z = true) →
  (∀ x y, x ≠ y → before x y = false → before y x = true) →
  let depth := depth_of <$> take n (in_order before m) in
  length depth = min n (size m) ∧
  StronglySorted (λ d d', before (price d) (price d') = true) depth ∧
  ∀ d, d ∈ depth →
    ∃ level, m !! price d = Some level ∧
      quantity d = PriceLevel.totalQuantity_ level ∧
      orderCount d = length (PriceLevel.orders_ level).
Proof.
  intros Htr Htot. cbv zeta.
  destruct (in_order_spec before Htr Htot m) as (Hel & Hlen & Hs).
  split; [|split].
  - by rewrite length_fmap, length_take, Hlen.
  - eapply (StronglySorted_fmap depth_of); [|].
    + intros x y Hxy. exact Hxy.
    + rewrite <- (take_drop n (in_order before m)) in Hs.
      by apply StronglySorted_app_1_l in Hs.
  - intros d Hd. apply list_elem_of_fmap in Hd as ([k level] & -> & Hkv).
    apply subseteq_take in Hkv. apply Hel in Hkv.
    exists level. done.
Qed.

(** X7.  [getBidDepth n] and [getAskDepth n] list min(n, number of levels)
    levels of their side, bids by strictly falling price and asks by
    strictly rising price, each with the cached total and the number of
    orders of the level at that price. *)
Theorem depth_spec n b :
  (length (getBidDepth n b) = min n (size (bids_ b)) ∧
   StronglySorted (λ d d', price d > price d') (getBidDepth n b) ∧
   ∀ d, d ∈ getBidDepth n b →
     ∃ level, bids_ b !! price d = Some level ∧
       quantity d = PriceLevel.totalQuantity_ level ∧
       orderCount d = length (PriceLevel.orders_ level)) ∧
  (length (getAskDepth n b) = min n (size (asks_ b)) ∧
   StronglySorted (λ d d', price d < price d') (getAskDepth n b) ∧
   ∀ d, d ∈ getAskDepth n b →
     ∃ level, asks_ b !! price d = Some level ∧
       quantity d = PriceLevel.totalQuantity_ level ∧
       orderCount d = length (PriceLevel.orders_ level)).
Proof.
  unfold getBidDepth, getAskDepth, bids_in_order, asks_in_order. split.
  - destruct (depth_view Z.gtb (bids_ b) n gtb_trans gtb_total)
      as (Hlen & Hs & Hel).
    split; [done|]. split; [|done].
    eapply StronglySorted_weaken; [|exact Hs]. intros d d' Hdd. simpl in Hdd. lia.
  - destruct (depth_view Z.ltb (asks_ b) n ltb_trans ltb_total)
      as (Hlen & Hs & Hel).
    split; [done|]. split; [|done].
    eapply StronglySorted_weaken; [|exact Hs]. intros d d' Hdd. simpl in Hdd. lia.
Qed.

End best_prices.

(** ** More on the order book *)

Section book_more.
Import OrderBook.

Lemma added_book_lookup b p o sd pr :
  side_levels sd (added_book b p o) !! pr
  = if decide (sd = Order.side_ o ∧ pr = Order.price_ o) then
      let level := default (PriceLevel.make (Order.price_ o))
                     (side_levels (Order.side_ o) b !! Order.price_ o) in
      Some (PriceLevel.mk (PriceLevel.price_ level)
              (u64 (PriceLevel.totalQuantity_ level + Order.remainingQuantity_ o))
              (PriceLevel.orders_ level ++ [p]))
    else side_levels sd b !! pr.
Proof.
  unfold added_book. cbv zeta.
  destruct (decide (sd = Order.side_ o)) as [->|Hsd].
  - rewrite side_levels_same.
    destruct (decide (pr = Order.price_ o)) as [->|Hpr].
    + rewrite lookup_insert_eq. by rewrite decide_True.
    + rewrite lookup_insert_ne by done. rewrite decide_False; [done|]. by intros [_ ?].
  - rewrite side_levels_other by done. rewrite decide_False; [done|]. by intros [? _].
Qed.

Lemma cancelled_book_lookup b o level i sd pr :
  side_levels sd (cancelled_book b o level i) !! pr
  = if decide (sd = Order.side_ o ∧ pr = Order.price_ o) then
      if bool_decide (delete i (PriceLevel.orders_ level) = []) then None
      else Some (PriceLevel.mk (PriceLevel.price_ level)
                   (u64 (PriceLevel.totalQuantity_ level - 0))
                   (delete i (PriceLevel.orders_ level)))
    else side_levels sd b !! pr.
Proof.
  unfold cancelled_book. cbv zeta.
  destruct (decide (sd = Order.side_ o)) as [->|Hsd].
  - rewrite side_levels_same.
    destruct (decide (pr = Order.price_ o)) as [->|Hpr].
    + rewrite decide_True by done.
      case_bool_decide; [by rewrite lookup_delete_eq | by rewrite lookup_insert_eq].
    + rewrite decide_False by (by intros [_ ?]).
      case_bool_decide; [by rewrite lookup_delete_ne | by rewrite lookup_insert_ne].
  - rewrite side_levels_other by done. rewrite decide_False; [done|]. by intros [? _].
Qed.

Lemma added_book_index b p o :
  orderMap_ (added_book b p o) = <[Order.id_ o := p]> (orderMap_ b) ∧
  symbol_ (added_book b p o) = symbol_ b.
Proof. unfold added_book. cbv zeta. by destruct (Order.side_ o). Qed.

Lemma cancelled_book_index b o level i :
  orderMap_ (cancelled_book b o level i) = delete (Order.id_ o) (orderMap_ b) ∧
  symbol_ (cancelled_book b o level i) = symbol_ b.
Proof. unfold cancelled_book. cbv zeta. by destruct (Order.side_ o). Qed.

(** [addOrder] accepts a live order with the symbol of the book and an id
    the index does not have, provided the level it joins is stored under
    its own price. *)
Lemma addOrder_accepted h p b o :
  h !! p = Some o →
  Order.symbol_ o = symbol_ b →
  orderMap_ b !! Order.id_ o = None →
  (∀ level, side_levels (Order.side_ o) b !! Order.price_ o = Some level →
            PriceLevel.price_ level = Order.price_ o) →
  addOrder h p b = Some (true, added_book b p o).
Proof.
  intros Ho Hsym Hidx Hpr. unfold addOrder. rewrite Ho. simpl.
  rewrite Hsym, String.eqb_refl. simpl. rewrite Hidx.
  unfold addToBidSide, addToAskSide, PriceLevel.addOrder, added_book.
  rewrite Ho. simpl. cbv zeta.
  assert (PriceLevel.price_
            (default (PriceLevel.make (Order.price_ o))
               (side_levels (Order.side_ o) b !! Order.price_ o))
          = Order.price_ o) as Hlv.
  { destruct (side_levels (Order.side_ o) b !! Order.price_ o) eqn:E; simpl; [|done].
    by apply Hpr. }
  destruct (Order.side_ o); simpl in Hlv |- *;
    rewrite Hlv, Z.eqb_refl; simpl; done.
Qed.

Lemma addOrder_refused h p b o :
  h !! p = Some o →
  Order.symbol_ o ≠ symbol_ b ∨ is_Some (orderMap_ b !! Order.id_ o) →
  addOrder h p b = Some (false, b).
Proof.
  intros Ho Hwhy. unfold addOrder. rewrite Ho. simpl.
  destruct (String.eqb (Order.symbol_ o) (symbol_ b)) eqn:Hsym; simpl; [|done].
  apply String.eqb_eq in Hsym.
  destruct Hwhy as [Hne | [x Hx]]; [done|]. by rewrite Hx.
Qed.

Lemma addOrder_true h p b b' :
  addOrder h p b = Some (true, b') →
  ∃ o, h !! p = Some o ∧ Order.symbol_ o = symbol_ b ∧
       orderMap_ b !! Order.id_ o = None ∧ b' = added_book b p o.
Proof.
  intros Hadd.
  destruct (addOrder_result h p b true b' Hadd)
    as [[? _] | (_ & o & Ho & Hnew & ->)]; [done|].
  exists o. repeat (split; [done|]). split; [|done].
  unfold addOrder in Hadd. rewrite Ho in Hadd. simpl in Hadd.
  destruct (String.eqb (Order.symbol_ o) (symbol_ b)) eqn:Hsym; simpl in Hadd; [|done].
  by apply String.eqb_eq in Hsym.
Qed.

(** *** The levels stay well kept *)

Lemma levels_ok_make h sym : levels_ok h (make sym).
Proof.
  split.
  - intros sd pr level. destruct sd; simpl; by rewrite lookup_empty.
  - intros sd pr level. destruct sd; simpl; by rewrite lookup_empty.
  - intros orderId p o. simpl. by rewrite lookup_empty.
Qed.

Lemma levels_ok_store_update h b p o o' :
  levels_ok h b → h !! p = Some o → Order.symbol_ o' = Order.symbol_ o →
  levels_ok (<[p := o']> h) b.
Proof.
  intros Hok Ho Hsym. split.
  - apply (lv_price h b Hok).
  - apply (lv_nonempty h b Hok).
  - intros orderId x ox Hidx Hx.
    destruct (decide (x = p)) as [->|Hne].
    + rewrite lookup_insert_eq in Hx. injection Hx as <-. rewrite Hsym.
      by eapply (lv_symbol h b Hok).
    + rewrite lookup_insert_ne in Hx by done. by eapply (lv_symbol h b Hok).
Qed.

Lemma levels_ok_make_shared h b o :
  wf h b → levels_ok h b → levels_ok (make_shared o h).2 b.
Proof.
  intros Hwf Hok. unfold make_shared. simpl.
  assert (h !! fresh (dom h) = None) as Hfresh.
  { apply not_elem_of_dom. apply is_fresh. }
  split.
  - apply (lv_price h b Hok).
  - apply (lv_nonempty h b Hok).
  - intros orderId x ox Hidx Hx.
    destruct (wf_index h b Hwf orderId x Hidx) as (o' & level & Ho' & _).
    rewrite lookup_insert_ne in Hx by (intros <-; congruence).
    by eapply (lv_symbol h b Hok).
Qed.

Lemma levels_ok_addOrder h b p r b' :
  levels_ok h b → addOrder h p b = Some (r, b') → levels_ok h b'.
Proof.
  intros Hok Hadd. destruct r.
  2:{ destruct (addOrder_result h p b false b' Hadd) as [[_ ->] | [? _]]; done. }
  destruct (addOrder_true h p b b' Hadd) as (o & Ho & Hsym & Hnew & ->).
  destruct (added_book_index b p o) as [Hmap Hsymb].
  split.
  - intros sd pr level' Hl'. rewrite added_book_lookup in Hl'.
    case_decide as Hd.
    + destruct Hd as [-> ->]. cbv zeta in Hl'. injection Hl' as <-. simpl.
      destruct (side_levels (Order.side_ o) b !! Order.price_ o) eqn:E; simpl; [|done].
      by eapply (lv_price h b Hok).
    + by eapply (lv_price h b Hok).
  - intros sd pr level' Hl'. rewrite added_book_lookup in Hl'.
    case_decide as Hd.
    + cbv zeta in Hl'. injection Hl' as <-. simpl.
      intros Hnil. by apply app_eq_nil in Hnil as [_ ?].
    + by eapply (lv_nonempty h b Hok).
  - intros orderId x ox. rewrite Hmap, Hsymb. intros Hidx Hx.
    apply lookup_insert_Some in Hidx as [[<- <-] | [Hne Hidx]].
    + rewrite Ho in Hx. by injection Hx as <-.
    + by eapply (lv_symbol h b Hok).
Qed.

Lemma levels_ok_cancelOrder h b orderId r h' b' :
  wf h b → levels_ok h b → cancelOrder orderId h b = Some (r, h', b') →
  levels_ok h' b'.
Proof.
  intros Hwf Hok Hc.
  destruct (orderMap_ b !! orderId) as [p|] eqn:Hidx.
  2:{ unfold cancelOrder in Hc. rewrite Hidx in Hc. by injection Hc as <- <- <-. }
  destruct (cancelOrder_indexed h b orderId p Hwf Hidx)
    as (o & level & i & Ho & Hid & Hlevel & Hi & _ & Hcancel).
  rewrite Hcancel in Hc. injection Hc as <- <- <-.
  destruct (cancelled_book_index b o level i) as [Hmap Hsymb].
  split.
  - intros sd pr level' Hl'. rewrite cancelled_book_lookup in Hl'.
    case_decide as Hd.
    + destruct Hd as [-> ->]. case_bool_decide; [done|].
      injection Hl' as <-. simpl. by eapply (lv_price h b Hok).
    + by eapply (lv_price h b Hok).
  - intros sd pr level' Hl'. rewrite cancelled_book_lookup in Hl'.
    case_decide as Hd.
    + case_bool_decide; [done|]. by injection Hl' as <-.
    + by eapply (lv_nonempty h b Hok).
  - intros orderId' x ox. rewrite Hmap, Hsymb. intros Hidx' Hx.
    apply lookup_delete_Some in Hidx' as [Hne Hidx'].
    destruct (decide (x = p)) as [->|Hxp].
    + rewrite lookup_insert_eq in Hx. injection Hx as <-. simpl.
      by eapply (lv_symbol h b Hok).
    + rewrite lookup_insert_ne in Hx by done. by eapply (lv_symbol h b Hok).
Qed.

(** X8.  On a well-kept book [addOrder] of a live order never throws.  It
    returns true exactly when the order has the symbol of the book and an
    id the index does not have yet; otherwise the book is left as it was.
    An accepted order is found again under its id, joins the tail of the
    queue at its side and price, adds its remaining quantity to the cached
    total there, and leaves every other level and index entry alone. *)
Theorem addOrder_spec h b p o :
  levels_ok h b → h !! p = Some o →
  ∃ r b',
    addOrder h p b = Some (r, b') ∧
    (r = true ↔ Order.symbol_ o = symbol_ b ∧ orderMap_ b !! Order.id_ o = None) ∧
    (r = false → b' = b) ∧
    (r = true →
       getOrder (Order.id_ o) b' = Some p ∧
       (∀ id', id' ≠ Order.id_ o → getOrder id' b' = getOrder id' b) ∧
       queue_at (Order.side_ o) (Order.price_ o) b'
       = queue_at (Order.side_ o) (Order.price_ o) b ++ [p] ∧
       total_at (Order.side_ o) (Order.price_ o) b'
       = u64 (total_at (Order.side_ o) (Order.price_ o) b + Order.remainingQuantity_ o) ∧
       (∀ sd pr, ¬ (sd = Order.side_ o ∧ pr = Order.price_ o) →
          side_levels sd b' !! pr = side_levels sd b !! pr)).
Proof.
  intros Hok Ho.
  destruct (decide (Order.symbol_ o = symbol_ b)) as [Hsym|Hsym].
  2:{ exists false, b. split; [apply (addOrder_refused h p b o Ho); by left|].
      split; [|done]. split; [done|]. by intros [? _]. }
  destruct (orderMap_ b !! Order.id_ o) as [x|] eqn:Hidx.
  { exists false, b. split; [apply (addOrder_refused h p b o Ho); right; by eauto|].
    split; [|done]. split; [done|]. intros [_ Hn]. congruence. }
  exists true, (added_book b p o).
  split. { apply addOrder_accepted; try done. intros level. apply (lv_price h b Hok). }
  split; [done|]. split; [done|]. intros _.
  destruct (added_book_index b p o) as [Hmap _].
  unfold getOrder, queue_at, total_at. rewrite Hmap.
  split; [apply lookup_insert_eq|].
  split; [intros id' Hne; by rewrite lookup_insert_ne|].
  rewrite added_book_lookup, decide_True by done. cbv zeta.
  split; [|split].
  - simpl. by destruct (side_levels (Order.side_ o) b !! Order.price_ o).
  - simpl. by destruct (side_levels (Order.side_ o) b !! Order.price_ o).
  - intros sd pr Hne. by rewrite added_book_lookup, decide_False.
Qed.

Lemma addOrder_spec_witness :
  let o := Order.make 1 "AAPL" BUY LIMIT 15000 100 in
  let h : gmap positive Order.t := {[ 1%positive := o ]} in
  ∃ r b',
    addOrder h 1%positive (make "AAPL") = Some (r, b') ∧
    (r = true ↔ Order.symbol_ o = symbol_ (make "AAPL") ∧
                orderMap_ (make "AAPL") !! Order.id_ o = None) ∧
    (r = false → b' = make "AAPL") ∧
    (r = true →
       getOrder (Order.id_ o) b' = Some 1%positive ∧
       (∀ id', id' ≠ Order.id_ o → getOrder id' b' = getOrder id' (make "AAPL")) ∧
       queue_at (Order.side_ o) (Order.price_ o) b'
       = queue_at (Order.side_ o) (Order.price_ o) (make "AAPL") ++ [1%positive] ∧
       total_at (Order.side_ o) (Order.price_ o) b'
       = u64 (total_at (Order.side_ o) (Order.price_ o) (make "AAPL")
              + Order.remainingQuantity_ o) ∧
       (∀ sd pr, ¬ (sd = Order.side_ o ∧ pr = Order.price_ o) →
          side_levels sd b' !! pr = side_levels sd (make "AAPL") !! pr)).
Proof.
  cbv zeta.
  apply (addOrder_spec {[ 1%positive := Order.make 1 "AAPL" BUY LIMIT 15000 100 ]}
           (make "AAPL") 1%positive (Order.make 1 "AAPL" BUY LIMIT 15000 100)).
  - apply levels_ok_make.
  - apply lookup_singleton_eq.
Defined.

(** X9.  Whatever a call of [cancelOrder] did, the same call right after it
    returns false and changes nothing. *)
Theorem cancelOrder_twice orderId h b r h' b' :
  cancelOrder orderId h b = Some (r, h', b') →
  cancelOrder orderId h' b' = Some (false, h', b').
Proof.
  unfold cancelOrder at 1.
  destruct (orderMap_ b !! orderId) as [p|] eqn:Hidx.
  2:{ intros [= <- <- <-]. unfold cancelOrder. by rewrite Hidx. }
  destruct (h !! p) as [o|]; simpl; [|done].
  rewrite lookup_insert_eq. simpl.
  unfold removeFromBidSide, removeFromAskSide.
  destruct (Order.side_ o); simpl;
    match goal with
    | |- context [removeFromSide ?a ?b ?c ?d] =>
        destruct (removeFromSide a b c d); simpl; [|done]
    end;
    intros [= <- <- <-]; unfold cancelOrder; simpl; by rewrite lookup_delete_eq.
Qed.

Lemma cancelOrder_twice_witness :
  ∃ h b h' b',
    two_bids = Some (h, b) ∧
    cancelOrder 1 h b = Some (true, h', b') ∧
    cancelOrder 1 h' b' = Some (false, h', b').
Proof.
  do 4 eexists. split; [vm_compute; reflexivity|].
  match goal with
  | |- ?A ∧ _ => assert A as HA by (vm_compute; reflexivity)
  end.
  split; [exact HA|]. exact (cancelOrder_twice _ _ _ _ _ _ HA).
Defined.

Lemma filter_all_ne (l : list positive) p :
  p ∉ l → filter (λ x, x ≠ p) l = l.
Proof.
  induction l as [|a l IH]; intros Hnot; [done|].
  apply not_elem_of_cons in Hnot as [Hne Hnot].
  rewrite filter_cons_True by done. by rewrite IH.
Qed.

Lemma delete_index_filter (l : list positive) i p :
  NoDup l → l !! i = Some p → delete i l = filter (λ x, x ≠ p) l.
Proof.
  revert i. induction l as [|a l IH]; intros i Hnd Hi; [done|].
  apply NoDup_cons in Hnd as [Hnotin Hnd].
  destruct i as [|i]; simpl in Hi.
  - injection Hi as ->. simpl.
    rewrite filter_cons_False by (by intros ?). by rewrite filter_all_ne.
  - assert (a ≠ p) as Hne.
    { intros ->. apply Hnotin. by eapply list_elem_of_lookup_2. }
    simpl. rewrite filter_cons_True by done. f_equal. by apply IH.
Qed.

(** X10.  [cancelOrder] of an indexed id takes the order out of the queue
    at its side and price and keeps the other orders of that queue in their
    order; the cached total of the level, when the level stays, is not
    reduced; every other level and every other index entry is untouched. *)
Theorem cancelOrder_keeps_queue h b orderId p :
  wf h b → orderMap_ b !! orderId = Some p →
  ∃ o b',
    h !! p = Some o ∧
    cancelOrder orderId h b = Some (true, <[p := Order.cancel o]> h, b') ∧
    queue_at (Order.side_ o) (Order.price_ o) b'
    = filter (λ x, x ≠ p) (queue_at (Order.side_ o) (Order.price_ o) b) ∧
    (queue_at (Order.side_ o) (Order.price_ o) b' ≠ [] →
     total_at (Order.side_ o) (Order.price_ o) b'
     = u64 (total_at (Order.side_ o) (Order.price_ o) b)) ∧
    (∀ sd pr, ¬ (sd = Order.side_ o ∧ pr = Order.price_ o) →
       side_levels sd b' !! pr = side_levels sd b !! pr) ∧
    (∀ id', id' ≠ orderId → getOrder id' b' = getOrder id' b).
Proof.
  intros Hwf Hidx.
  destruct (cancelOrder_indexed h b orderId p Hwf Hidx)
    as (o & level & i & Ho & Hid & Hlevel & Hi & _ & Hcancel).
  exists o, (cancelled_book b o level i).
  split; [done|]. split; [done|].
  pose proof (wf_nodup h b Hwf _ _ _ Hlevel) as Hnd.
  pose proof (delete_index_filter _ _ _ Hnd Hi) as Hdel.
  destruct (cancelled_book_index b o level i) as [Hmap _].
  unfold queue_at, total_at, getOrder.
  rewrite cancelled_book_lookup, decide_True by done. rewrite Hlevel. simpl.
  split; [|split; [|split]].
  - case_bool_decide as He; simpl; [by rewrite <- Hdel, He | done].
  - case_bool_decide as He; simpl; [done|]. intros _. by rewrite Z.sub_0_r.
  - intros sd pr Hne. by rewrite cancelled_book_lookup, decide_False.
  - intros id' Hne. rewrite Hmap, Hid. by rewrite lookup_delete_ne.
Qed.

Lemma cancelOrder_keeps_queue_witness :
  ∃ h b, two_bids = Some (h, b) ∧
    ∃ o b',
      h !! 1%positive = Some o ∧
      cancelOrder 1 h b = Some (true, <[1%positive := Order.cancel o]> h, b') ∧
      queue_at (Order.side_ o) (Order.price_ o) b'
      = filter (λ x, x ≠ 1%positive) (queue_at (Order.side_ o) (Order.price_ o) b) ∧
      (queue_at (Order.side_ o) (Order.price_ o) b' ≠ [] →
       total_at (Order.side_ o) (Order.price_ o) b'
       = u64 (total_at (Order.side_ o) (Order.price_ o) b)) ∧
      (∀ sd pr, ¬ (sd = Order.side_ o ∧ pr = Order.price_ o) →
         side_levels sd b' !! pr = side_levels sd b !! pr) ∧
      (∀ id', id' ≠ 1 → getOrder id' b' = getOrder id' b).
Proof.
  do 2 eexists. split; [vm_compute; reflexivity|].
  apply (cancelOrder_keeps_queue _ _ 1 1%positive).
  - apply wf_two_bids. vm_compute. reflexivity.
  - vm_compute. reflexivity.
Defined.

(** X11.  An order that [addOrder] accepted and [cancelOrder] then removes
    leaves the index and every queue of the book as they were before the
    two calls, and a level that did not exist in between is gone again;
    the cached total of a level that did exist stays raised by the
    remaining quantity the order had when it was added. *)
Theorem add_then_cancel h b p b1 :
  wf h b → levels_ok h b → addOrder h p b = Some (true, b1) →
  ∃ o b2,
    h !! p = Some o ∧
    cancelOrder (Order.id_ o) h b1 = Some (true, <[p := Order.cancel o]> h, b2) ∧
    orderMap_ b2 = orderMap_ b ∧
    (∀ sd pr, queue_at sd pr b2 = queue_at sd pr b) ∧
    (∀ sd pr, is_Some (side_levels sd b2 !! pr) ↔ is_Some (side_levels sd b !! pr)) ∧
    (is_Some (side_levels (Order.side_ o) b !! Order.price_ o) →
     total_at (Order.side_ o) (Order.price_ o) b2
     = u64 (u64 (total_at (Order.side_ o) (Order.price_ o) b
                 + Order.remainingQuantity_ o))).
Proof.
  intros Hwf Hok Hadd.
  destruct (addOrder_true h p b b1 Hadd) as (o & Ho & Hsym & Hnew & ->).
  pose proof (wf_addOrder h b p true _ Hwf Hadd) as Hwf1.
  destruct (added_book_index b p o) as [Hmap1 _].
  assert (orderMap_ (added_book b p o) !! Order.id_ o = Some p) as Hidx1
    by (rewrite Hmap1; apply lookup_insert_eq).
  destruct (cancelOrder_indexed h _ _ p Hwf1 Hidx1)
    as (o' & level1 & i & Ho' & Hid' & Hlevel1 & Hi & _ & Hcancel).
  rewrite Ho in Ho'. injection Ho' as <-.
  exists o, (cancelled_book (added_book b p o) o level1 i).
  split; [done|]. split; [done|].
  set (m := side_levels (Order.side_ o) b) in *.
  set (level0 := default (PriceLevel.make (Order.price_ o)) (m !! Order.price_ o)).
  rewrite added_book_lookup, decide_True in Hlevel1 by done.
  cbv zeta in Hlevel1. fold m level0 in Hlevel1. injection Hlevel1 as <-.
  simpl in Hi.
  pose proof (wf_nodup h _ Hwf1 (Order.side_ o) (Order.price_ o)) as Hnd.
  rewrite added_book_lookup, decide_True in Hnd by done. cbv zeta in Hnd.
  fold m level0 in Hnd. specialize (Hnd _ eq_refl). simpl in Hnd.
  apply NoDup_app in Hnd as (_ & Hnotin & _).
  assert (i = length (PriceLevel.orders_ level0)) as ->.
  { destruct (decide (i < length (PriceLevel.orders_ level0))%nat) as [Hlt|Hge].
    - rewrite lookup_app_l in Hi by done.
      exfalso. eapply Hnotin; [by eapply list_elem_of_lookup_2 | by left].
    - rewrite lookup_app_r in Hi by lia.
      destruct (i - length (PriceLevel.orders_ level0))%nat eqn:E; [lia|done]. }
  assert (delete (length (PriceLevel.orders_ level0)) (PriceLevel.orders_ level0 ++ [p])
          = PriceLevel.orders_ level0) as Hdel.
  { rewrite delete_middle. apply app_nil_r. }
  assert (PriceLevel.orders_ level0 = [] ↔ m !! Order.price_ o = None) as Hnone.
  { unfold level0. destruct (m !! Order.price_ o) as [l0|] eqn:E; simpl.
    - split; [|done]. intros Hnil. exfalso. by eapply (lv_nonempty h b Hok).
    - done. }
  destruct (cancelled_book_index (added_book b p o) o
              (PriceLevel.mk (PriceLevel.price_ level0)
                 (u64 (PriceLevel.totalQuantity_ level0 + Order.remainingQuantity_ o))
                 (PriceLevel.orders_ level0 ++ [p]))
              (length (PriceLevel.orders_ level0))) as [Hmap2 _].
  split; [rewrite Hmap2, Hmap1; by apply delete_insert_id|].
  assert (∀ sd pr, ¬ (sd = Order.side_ o ∧ pr = Order.price_ o) →
            side_levels sd (cancelled_book (added_book b p o) o
              (PriceLevel.mk (PriceLevel.price_ level0)
                 (u64 (PriceLevel.totalQuantity_ level0 + Order.remainingQuantity_ o))
                 (PriceLevel.orders_ level0 ++ [p]))
              (length (PriceLevel.orders_ level0))) !! pr
            = side_levels sd b !! pr) as Hother.
  { intros sd pr Hne.
    rewrite cancelled_book_lookup, decide_False by done.
    by rewrite added_book_lookup, decide_False. }
  split; [|split].
  - intros sd pr. unfold queue_at.
    destruct (decide (sd = Order.side_ o ∧ pr = Order.price_ o)) as [[-> ->]|Hne];
      [|by rewrite Hother].
    rewrite cancelled_book_lookup, decide_True by done. simpl. rewrite Hdel.
    fold m. unfold level0.
    case_bool_decide as He; simpl.
    + apply Hnone in He. by rewrite He.
    + by destruct (m !! Order.price_ o).
  - intros sd pr.
    destruct (decide (sd = Order.side_ o ∧ pr = Order.price_ o)) as [[-> ->]|Hne];
      [|by rewrite Hother].
    rewrite cancelled_book_lookup, decide_True by done. simpl. rewrite Hdel.
    fold m. case_bool_decide as He.
    + apply Hnone in He. rewrite He. done.
    + split; [intros _|by eauto].
      destruct (m !! Order.price_ o) eqn:E; [by eauto|].
      exfalso. apply He. by apply Hnone.
  - intros [l0 Hl0]. unfold total_at.
    rewrite cancelled_book_lookup, decide_True by done. simpl. rewrite Hdel.
    fold m. case_bool_decide as He.
    + apply Hnone in He. congruence.
    + simpl. rewrite Z.sub_0_r. unfold level0. by rewrite Hl0.
Qed.

Lemma add_then_cancel_witness :
  let o := Order.make 1 "AAPL" BUY LIMIT 15000 100 in
  let h : gmap positive Order.t := {[ 1%positive := o ]} in
  ∃ b1, addOrder h 1%positive (make "AAPL") = Some (true, b1) ∧
    ∃ o' b2,
      h !! 1%positive = Some o' ∧
      cancelOrder (Order.id_ o') h b1
      = Some (true, <[1%positive := Order.cancel o']> h, b2) ∧
      orderMap_ b2 = orderMap_ (make "AAPL") ∧
      (∀ sd pr, queue_at sd pr b2 = queue_at sd pr (make "AAPL")) ∧
      (∀ sd pr, is_Some (side_levels sd b2 !! pr)
                ↔ is_Some (side_levels sd (make "AAPL") !! pr)) ∧
      (is_Some (side_levels (Order.side_ o') (make "AAPL") !! Order.price_ o') →
       total_at (Order.side_ o') (Order.price_ o') b2
       = u64 (u64 (total_at (Order.side_ o') (Order.price_ o') (make "AAPL")
                   + Order.remainingQuantity_ o'))).
Proof.
  cbv zeta.
  assert (addOrder {[ 1%positive := Order.make 1 "AAPL" BUY LIMIT 15000 100 ]}
            1%positive (make "AAPL")
          = Some (true, added_book (make "AAPL") 1%positive
                          (Order.make 1 "AAPL" BUY LIMIT 15000 100))) as Hadd.
  { apply addOrder_accepted;
      first [ apply lookup_singleton_eq | done
            | intros level; simpl; by rewrite lookup_empty ]. }
  eexists. split; [exact Hadd|].
  exact (add_then_cancel _ _ _ _ (wf_make _ "AAPL") (levels_ok_make _ "AAPL") Hadd).
Defined.

Lemma levels_ok_two_bids h b : two_bids = Some (h, b) → levels_ok h b.
Proof.
  unfold two_bids.
  destruct (make_shared (Order.make 1 "AAPL" BUY LIMIT 15000 100) ∅) as [p1 h1].
  destruct (make_shared (Order.make 2 "AAPL" BUY LIMIT 15000 200) h1) as [p2 h2].
  destruct (addOrder h2 p1 (make "AAPL")) as [[r1 b1]|] eqn:H1; simpl; [|done].
  destruct (addOrder h2 p2 b1) as [[r2 b2]|] eqn:H2; simpl; [|done].
  intros [= <- <-].
  eapply levels_ok_addOrder; [|exact H2]. eapply levels_ok_addOrder; [|exact H1].
  apply levels_ok_make.
Qed.

(** X12.  [modifyOrder] of an id the index does not have returns false and
    changes nothing.  On a consistent, well-kept book, [modifyOrder] of an
    indexed id returns true: the old order object is cancelled, the id is
    indexed to a new order object with the new price and quantity (and the
    old symbol, side and type, status NEW), and the new object stands at
    the tail of the queue at the new price, behind every order that was
    queued there, also when the price is the old one; the old object is
    queued nowhere and every other index entry is untouched. *)
Theorem modifyOrder_spec h b orderId newPrice newQuantity :
  (orderMap_ b !! orderId = None →
   modifyOrder orderId newPrice newQuantity h b = Some (false, h, b)) ∧
  (∀ p, wf h b → levels_ok h b → orderMap_ b !! orderId = Some p →
     ∃ old b',
       let newOrder := fresh (dom h) in
       let replacement :=
         Order.make orderId (Order.symbol_ old) (Order.side_ old) (Order.type_ old)
           newPrice newQuantity in
       h !! p = Some old ∧
       newOrder ≠ p ∧
       modifyOrder orderId newPrice newQuantity h b
       = Some (true, <[p := Order.cancel old]> (<[newOrder := replacement]> h), b') ∧
       getOrder orderId b' = Some newOrder ∧
       queue_at (Order.side_ old) newPrice b'
       = filter (λ x, x ≠ p) (queue_at (Order.side_ old) newPrice b) ++ [newOrder] ∧
       (∀ sd pr, p ∉ queue_at sd pr b') ∧
       (∀ id', id' ≠ orderId → getOrder id' b' = getOrder id' b)).
Proof.
  split.
  { intros Hnone. unfold modifyOrder. by rewrite Hnone. }
  intros p Hwf Hok Hidx.
  destruct (wf_index h b Hwf orderId p Hidx) as (old & level0 & Hold & Hid & Hl0 & Hin0).
  set (newOrder := fresh (dom h)).
  set (replacement := Order.make orderId (Order.symbol_ old) (Order.side_ old)
                        (Order.type_ old) newPrice newQuantity).
  set (h1 := <[newOrder := replacement]> h).
  assert (h !! newOrder = None) as Hfresh.
  { apply not_elem_of_dom. apply is_fresh. }
  assert (newOrder ≠ p) as Hne by (intros Heq; rewrite Heq in Hfresh; congruence).
  assert (wf h1 b) as Hwf1 by apply (wf_make_shared h b replacement Hwf).
  assert (levels_ok h1 b) as Hok1 by apply (levels_ok_make_shared h b replacement Hwf Hok).
  destruct (cancelOrder_indexed h1 b orderId p Hwf1 Hidx)
    as (old' & level & i & Hold' & _ & Hlevel & Hi & _ & Hcancel).
  assert (h1 !! p = Some old) as Hold1 by (unfold h1; by rewrite lookup_insert_ne).
  rewrite Hold1 in Hold'. injection Hold' as <-.
  set (h2 := <[p := Order.cancel old]> h1) in *.
  set (b2 := cancelled_book b old level i) in *.
  pose proof (wf_cancelOrder _ _ _ _ _ _ Hwf1 Hcancel) as Hwf2.
  pose proof (levels_ok_cancelOrder _ _ _ _ _ _ Hwf1 Hok1 Hcancel) as Hok2.
  destruct (cancelled_book_index b old level i) as [Hmap2 Hsym2].
  fold b2 in Hmap2, Hsym2.
  assert (h2 !! newOrder = Some replacement) as Hnew2.
  { unfold h2, h1. rewrite lookup_insert_ne by done. apply lookup_insert_eq. }
  assert (addOrder h2 newOrder b2 = Some (true, added_book b2 newOrder replacement))
    as Hadd.
  { apply addOrder_accepted; [done| | |].
    - simpl. rewrite Hsym2. by eapply (lv_symbol h b Hok).
    - simpl. rewrite Hmap2, Hid. apply lookup_delete_eq.
    - intros lv. apply (lv_price h2 b2 Hok2). }
  exists old, (added_book b2 newOrder replacement). cbv zeta.
  fold newOrder replacement h1 h2.
  split; [done|]. split; [done|]. split.
  { unfold modifyOrder. rewrite Hidx, Hold. simpl.
    fold newOrder replacement h1. rewrite Hcancel. simpl. fold h2 b2.
    rewrite Hadd. done. }
  destruct (added_book_index b2 newOrder replacement) as [Hmap3 _].
  pose proof (wf_nodup h1 b Hwf1 _ _ _ Hlevel) as Hnd.
  assert (∀ sd pr, p ∉ queue_at sd pr b2) as Hgone.
  { intros sd pr Hp. unfold queue_at in Hp.
    destruct (side_levels sd b2 !! pr) as [lv|] eqn:Hlv; simpl in Hp;
      [|by apply elem_of_nil in Hp].
    destruct (cancelled_book_levels h1 b old level i p Hwf1 Hold1 Hlevel Hi) as [Hafter _].
    destruct (Hafter sd pr lv Hlv) as (lv0 & _ & _ & Hiff).
    by destruct (proj1 (Hiff p) Hp). }
  assert (queue_at (Order.side_ old) newPrice b2
          = filter (λ x, x ≠ p) (queue_at (Order.side_ old) newPrice b)) as Hq2.
  { unfold queue_at. unfold b2. rewrite cancelled_book_lookup.
    case_decide as Hd.
    - destruct Hd as [_ ->]. rewrite Hlevel. simpl.
      rewrite <- (delete_index_filter _ _ _ Hnd Hi).
      case_bool_decide as He; simpl; [by rewrite He | done].
    - destruct (side_levels (Order.side_ old) b !! newPrice) as [lv|] eqn:Hlv;
        simpl; [|done].
      symmetry. apply filter_all_ne. intros Hp.
      destruct (wf_level h b Hwf _ _ _ p Hlv Hp) as (o' & Ho' & _ & _ & Hpr).
      rewrite Hold in Ho'. injection Ho' as <-. apply Hd. done. }
  split; [|split; [|split]].
  - unfold getOrder. rewrite Hmap3. simpl. apply lookup_insert_eq.
  - rewrite <- Hq2. unfold queue_at.
    rewrite added_book_lookup, decide_True by done. cbv zeta. simpl.
    by destruct (side_levels (Order.side_ old) b2 !! newPrice).
  - intros sd pr Hp. unfold queue_at in Hp.
    rewrite added_book_lookup in Hp. case_decide as Hd.
    + cbv zeta in Hp. simpl in Hp. destruct Hd as [-> ->].
      apply elem_of_app in Hp as [Hp|Hp].
      * apply (Hgone (Order.side_ old) newPrice).
        unfold queue_at.
        destruct (side_levels (Order.side_ old) b2 !! newPrice); simpl in Hp |- *;
          [done | by apply elem_of_nil in Hp].
      * apply list_elem_of_singleton in Hp. congruence.
    + by apply (Hgone sd pr).
  - intros id' Hne'. unfold getOrder. rewrite Hmap3, Hmap2, Hid. simpl.
    rewrite lookup_insert_ne by done. by rewrite lookup_delete_ne.
Qed.

Lemma modifyOrder_spec_witness :
  ∃ h b, two_bids = Some (h, b) ∧
    ∃ old b',
      h !! 1%positive = Some old ∧
      fresh (dom h) ≠ 1%positive ∧
      modifyOrder 1 15000 100 h b
      = Some (true,
              <[1%positive := Order.cancel old]>
                (<[fresh (dom h) := Order.make 1 (Order.symbol_ old) (Order.side_ old)
                                      (Order.type_ old) 15000 100]> h), b') ∧
      getOrder 1 b' = Some (fresh (dom h)) ∧
      queue_at (Order.side_ old) 15000 b'
      = filter (λ x, x ≠ 1%positive) (queue_at (Order.side_ old) 15000 b)
        ++ [fresh (dom h)] ∧
      (∀ sd pr, 1%positive ∉ queue_at sd pr b') ∧
      (∀ id', id' ≠ 1 → getOrder id' b' = getOrder id' b).
Proof.
  do 2 eexists. split; [vm_compute; reflexivity|].
  apply (proj2 (modifyOrder_spec _ _ 1 15000 100) 1%positive).
  - apply wf_two_bids. vm_compute. reflexivity.
  - apply levels_ok_two_bids. vm_compute. reflexivity.
  - vm_compute. reflexivity.
Defined.

End book_more.

(** ** More on the matching engine *)

Section engine_more.
Import MatchingEngine.

Lemma orderUpdate_told order o s :
  store s !! order = Some o →
  orderUpdate order s = Some (mkState (store s) (engine s) (told order o s)).
Proof.
  intros Ho. unfold orderUpdate, told.
  destruct (orderUpdateCallback_ (engine s)); [by rewrite Ho|by destruct s].
Qed.

Lemma matchMarketOrder_exact fuel order o s :
  store s !! order = Some o →
  matchMarketOrder fuel order s
  = Some ([], mkState (store s) (count_market (engine s)) (told order o s)).
Proof.
  intros Ho. unfold matchMarketOrder, matchMarketBuyOrder, matchMarketSellOrder.
  rewrite Ho. simpl.
  destruct (Order.side_ o); rewrite ?Ho; simpl;
    rewrite ?matchMarketBuyLevels_idle, ?matchMarketSellLevels_idle; simpl;
    rewrite (orderUpdate_told order o s Ho); simpl; done.
Qed.

Lemma matchLimitOrder_exact fuel order o s :
  store s !! order = Some o →
  matchLimitOrder fuel order s
  = (b2 ← (if Order.remainingQuantity_ o >? 0 then
             '(_, b) ← OrderBook.addOrder (store s) order (orderBook_ (engine s));
             Some b
           else Some (orderBook_ (engine s)));
     Some ([], mkState (store s) (count_limit (set_book b2 (engine s)))
                 (told order o s))).
Proof.
  intros Ho. unfold matchLimitOrder, matchLimitBuyOrder, matchLimitSellOrder.
  rewrite Ho. simpl.
  destruct (Order.side_ o); rewrite ?Ho; simpl;
    rewrite ?matchLimitBuyLoop_idle, ?matchLimitSellLoop_idle; simpl;
    rewrite (orderUpdate_told order o s Ho); simpl; rewrite ?Ho; simpl; done.
Qed.

Lemma notifyTrades_nil s : notifyTrades [] s = s.
Proof.
  unfold notifyTrades. destruct s as [h e tr]. simpl.
  destruct (tradeCallback_ e); simpl; by rewrite ?app_nil_r.
Qed.

Lemma TradeEvent_told tr order o s :
  TradeEvent tr ∈ told order o s → TradeEvent tr ∈ trace s.
Proof.
  unfold told. destruct (orderUpdateCallback_ (engine s)); [|done].
  intros Hin. apply elem_of_app in Hin as [Hin|Hin]; [done|].
  by apply list_elem_of_singleton in Hin.
Qed.

(** X13.  [submitOrder] never produces a trade: whenever it returns, the
    trade list is empty, no order object has been filled or changed, the
    trade counters (count, volume, value) are as before, and the trade
    callback has not been called. *)
Theorem submitOrder_never_trades fuel order s trades s' :
  submitOrder fuel order s = Some (trades, s') →
  trades = [] ∧ store s' = store s ∧
  totalTrades (stats_ (engine s')) = totalTrades (stats_ (engine s)) ∧
  totalVolume (stats_ (engine s')) = totalVolume (stats_ (engine s)) ∧
  totalValue (stats_ (engine s')) = totalValue (stats_ (engine s)) ∧
  (∀ tr, TradeEvent tr ∈ trace s' → TradeEvent tr ∈ trace s).
Proof.
  unfold submitOrder.
  destruct (store s !! order) as [o|] eqn:Ho; simpl; [|done].
  case_match; [by intros [= <- <-]|].
  destruct (Order.type_ o).
  - rewrite (matchMarketOrder_exact fuel order o s Ho). simpl.
    rewrite notifyTrades_nil. intros [= <- <-]. simpl.
    repeat (split; [done|]). intros tr. apply TradeEvent_told.
  - rewrite (matchLimitOrder_exact fuel order o s Ho).
    match goal with
    | |- context [if ?c then ?x else ?y] =>
        destruct (if c then x else y) as [b2|]; simpl; [|done]
    end.
    rewrite notifyTrades_nil. intros [= <- <-]. simpl.
    repeat (split; [done|]). intros tr. apply TradeEvent_told.
  - simpl. rewrite notifyTrades_nil. by intros [= <- <-].
  - simpl. rewrite notifyTrades_nil. by intros [= <- <-].
Qed.

Lemma submitOrder_never_trades_witness :
  let s := (new_order (Order.make 1 "AAPL" SELL LIMIT 15000 100)
              (fresh_engine "AAPL")).2 in
  ∃ trades s',
    submitOrder 3 1%positive s = Some (trades, s') ∧
    trades = [] ∧ store s' = store s ∧
    totalTrades (stats_ (engine s')) = totalTrades (stats_ (engine s)) ∧
    totalVolume (stats_ (engine s')) = totalVolume (stats_ (engine s)) ∧
    totalValue (stats_ (engine s')) = totalValue (stats_ (engine s)) ∧
    (∀ tr, TradeEvent tr ∈ trace s' → TradeEvent tr ∈ trace s).
Proof.
  cbv zeta. do 2 eexists.
  match goal with
  | |- ?A ∧ _ => assert A as HA by (vm_compute; reflexivity)
  end.
  split; [exact HA|]. exact (submitOrder_never_trades _ _ _ _ _ HA).
Defined.

(** *** What every reachable state satisfies *)

Lemma addOrder_symbol h p b r b' :
  OrderBook.addOrder h p b = Some (r, b') → OrderBook.symbol_ b' = OrderBook.symbol_ b.
Proof.
  intros Hadd.
  destruct (addOrder_result h p b r b' Hadd) as [[_ ->] | (_ & o & _ & _ & ->)]; [done|].
  apply added_book_index.
Qed.

Lemma cancelOrder_symbol orderId h b r h' b' :
  OrderBook.cancelOrder orderId h b = Some (r, h', b') →
  OrderBook.symbol_ b' = OrderBook.symbol_ b.
Proof.
  unfold OrderBook.cancelOrder.
  destruct (OrderBook.orderMap_ b !! orderId) as [p|]; [|by intros [= <- <- <-]].
  destruct (h !! p) as [o|]; simpl; [|done].
  rewrite lookup_insert_eq. simpl.
  unfold OrderBook.removeFromBidSide, OrderBook.removeFromAskSide.
  destruct (Order.side_ o); simpl;
    match goal with
    | |- context [OrderBook.removeFromSide ?a ?b ?c ?d] =>
        destruct (OrderBook.removeFromSide a b c d); simpl; [|done]
    end;
    by intros [= <- <- <-].
Qed.

Lemma modifyOrder_kept orderId newPrice newQuantity h b r h' b' :
  wf h b → levels_ok h b →
  OrderBook.modifyOrder orderId newPrice newQuantity h b = Some (r, h', b') →
  levels_ok h' b' ∧ OrderBook.symbol_ b' = OrderBook.symbol_ b.
Proof.
  intros Hwf Hok Hm. unfold OrderBook.modifyOrder in Hm.
  destruct (OrderBook.orderMap_ b !! orderId) as [oldOrder|];
    [|by injection Hm as <- <- <-].
  destruct (h !! oldOrder) as [old|]; simpl in Hm; [|done].
  match type of Hm with
  | context [OrderBook.cancelOrder orderId ?h1 b] =>
      destruct (OrderBook.cancelOrder orderId h1 b) as [[[r2 h2] b2]|] eqn:Hc;
      simpl in Hm; [|done];
      assert (wf h1 b) as Hwf1;
      [|assert (levels_ok h1 b) as Hok1]
  end.
  { apply (wf_make_shared h b
             (Order.make orderId (Order.symbol_ old) (Order.side_ old)
                (Order.type_ old) newPrice newQuantity) Hwf). }
  { apply (levels_ok_make_shared h b
             (Order.make orderId (Order.symbol_ old) (Order.side_ old)
                (Order.type_ old) newPrice newQuantity) Hwf Hok). }
  pose proof (levels_ok_cancelOrder _ _ _ _ _ _ Hwf1 Hok1 Hc) as Hok2.
  pose proof (cancelOrder_symbol _ _ _ _ _ _ Hc) as Hs2.
  match type of Hm with
  | context [OrderBook.addOrder h2 ?p b2] =>
      destruct (OrderBook.addOrder h2 p b2) as [[r3 b3]|] eqn:Ha; simpl in Hm; [|done]
  end.
  injection Hm as <- <- <-.
  split; [by eapply levels_ok_addOrder|].
  rewrite <- Hs2. by eapply addOrder_symbol.
Qed.

Lemma apply_call_symbol c o : Order.symbol_ (apply_call c o) = Order.symbol_ o.
Proof. by destruct c. Qed.

(** The state [submitOrder] leaves: the book is the one before, or the one
    [addOrder] made of it. *)
Lemma submitOrder_book fuel order s trades s' :
  submitOrder fuel order s = Some (trades, s') →
  store s' = store s ∧ symbol_ (engine s') = symbol_ (engine s) ∧
  (orderBook_ (engine s') = orderBook_ (engine s) ∨
   ∃ r, OrderBook.addOrder (store s) order (orderBook_ (engine s))
        = Some (r, orderBook_ (engine s'))).
Proof.
  unfold submitOrder.
  destruct (store s !! order) as [o|] eqn:Ho; simpl; [|done].
  case_match; [intros [= <- <-]; by auto|].
  destruct (Order.type_ o).
  - rewrite (matchMarketOrder_exact fuel order o s Ho). simpl.
    rewrite notifyTrades_nil. intros [= <- <-]. simpl. by auto.
  - rewrite (matchLimitOrder_exact fuel order o s Ho).
    destruct (Order.remainingQuantity_ o >? 0).
    + destruct (OrderBook.addOrder (store s) order (orderBook_ (engine s)))
        as [[r b]|] eqn:Ha; simpl; [|done].
      rewrite notifyTrades_nil. intros [= <- <-]. simpl. by eauto.
    + simpl. rewrite notifyTrades_nil. intros [= <- <-]. simpl. by auto.
  - simpl. rewrite notifyTrades_nil. intros [= <- <-]. by auto.
  - simpl. rewrite notifyTrades_nil. intros [= <- <-]. by auto.
Qed.

Lemma engine_ok_step symbol s s' :
  step s s' → engine_ok symbol s → engine_ok symbol s'.
Proof.
  intros Hstep [Hwf Hok Hsym Hbsym].
  pose proof (wf_step s s' Hstep Hwf) as Hwf'.
  destruct Hstep as [o s | c p o s Ho | fuel order s trades s' Hs
    | orderId s r s' Hc | orderId newPrice newQuantity s r s' Hm
    | order s r b Ha].
  - unfold new_order in *.
    pose proof (levels_ok_make_shared (store s) (orderBook_ (engine s)) o Hwf Hok).
    destruct (make_shared o (store s)). by split.
  - split; try done. simpl.
    eapply levels_ok_store_update; [done|exact Ho|apply apply_call_symbol].
  - destruct (submitOrder_book _ _ _ _ _ Hs) as (Hst & Hsy & [Hb | (r & Ha)]).
    + split; [done| |congruence|congruence]. by rewrite Hst, Hb.
    + split; [done| |congruence|].
      * rewrite Hst. by eapply levels_ok_addOrder.
      * rewrite <- Hbsym. by eapply addOrder_symbol.
  - unfold cancelOrder in Hc.
    destruct (OrderBook.cancelOrder orderId (store s) (orderBook_ (engine s)))
      as [[[r' h'] b']|] eqn:Hc'; simpl in Hc; [|done].
    injection Hc as <- <-. simpl in *. split; simpl; [done| |done|].
    + exact (levels_ok_cancelOrder _ _ _ _ _ _ Hwf Hok Hc').
    + rewrite <- Hbsym. exact (cancelOrder_symbol _ _ _ _ _ _ Hc').
  - unfold modifyOrder in Hm.
    destruct (OrderBook.modifyOrder orderId newPrice newQuantity (store s)
                (orderBook_ (engine s)))
      as [[[r' h'] b']|] eqn:Hm'; simpl in Hm; [|done].
    injection Hm as <- <-. simpl in *.
    destruct (modifyOrder_kept _ _ _ _ _ _ _ _ Hwf Hok Hm') as [Hok' Hs'].
    split; simpl; [done|done|done|congruence].
  - simpl in *. split; simpl; [done| |done|].
    + by eapply levels_ok_addOrder.
    + rewrite <- Hbsym. by eapply addOrder_symbol.
Qed.

Lemma engine_ok_run symbol s s' :
  rtc step s s' → engine_ok symbol s → engine_ok symbol s'.
Proof.
  induction 1 as [s | s1 s2 s3 Hstep _ IH]; [done|].
  intros H0. apply IH. by eapply engine_ok_step.
Qed.

Lemma reachable_engine_ok symbol s : reachable symbol s → engine_ok symbol s.
Proof.
  intros Hrun. eapply engine_ok_run; [exact Hrun|].
  split; simpl; [apply wf_make | apply levels_ok_make | done | done].
Qed.

(** The state after the two submissions of scenario 1 is reachable. *)
Lemma simple_cross_reachable fuel trades s :
  simple_cross fuel = Some (trades, s) → reachable "AAPL" s.
Proof.
  unfold simple_cross, reachable.
  pose proof (step_new (Order.make 1 "AAPL" SELL LIMIT 15000 100)
                (fresh_engine "AAPL")) as St1.
  destruct (new_order (Order.make 1 "AAPL" SELL LIMIT 15000 100) (fresh_engine "AAPL"))
    as [p1 s1].
  cbn [snd] in St1.
  destruct (submitOrder fuel p1 s1) as [[t1 s2]|] eqn:E2; [|done].
  cbn [mbind option_bind].
  pose proof (step_new (Order.make 2 "AAPL" BUY LIMIT 15000 100) s2) as St3.
  destruct (new_order (Order.make 2 "AAPL" BUY LIMIT 15000 100) s2) as [p2 s3].
  cbn [snd] in St3.
  intros E4.
  eapply rtc_l; [exact St1|].
  eapply rtc_l; [eapply step_submit; exact E2|].
  eapply rtc_l; [exact St3|].
  eapply rtc_l; [eapply step_submit; exact E4|]. apply rtc_refl.
Qed.

(** X14.  In every reachable state, a live LIMIT order with the engine's
    symbol is never matched, whatever the other side of the book holds:
    [submitOrder] returns no trade, counts one more limit order, and, when
    the order has a remaining quantity and an id the index does not have,
    rests it at the tail of the queue at its side and price and indexes it;
    otherwise (nothing remaining, or an id already in the index) the order
    is dropped and the book is as before. *)
Theorem limit_order_rests symbol fuel order o s :
  reachable symbol s →
  store s !! order = Some o →
  Order.type_ o = LIMIT →
  Order.symbol_ o = symbol →
  let b := orderBook_ (engine s) in
  let rests := (Order.remainingQuantity_ o >? 0)
               && bool_decide (OrderBook.orderMap_ b !! Order.id_ o = None) in
  ∃ s',
    submitOrder fuel order s = Some ([], s') ∧
    store s' = store s ∧
    limitOrdersMatched (stats_ (engine s'))
    = u64 (limitOrdersMatched (stats_ (engine s)) + 1) ∧
    (rests = false → orderBook_ (engine s') = b) ∧
    (rests = true →
       OrderBook.getOrder (Order.id_ o) (orderBook_ (engine s')) = Some order ∧
       queue_at (Order.side_ o) (Order.price_ o) (orderBook_ (engine s'))
       = queue_at (Order.side_ o) (Order.price_ o) b ++ [order] ∧
       (∀ sd pr, ¬ (sd = Order.side_ o ∧ pr = Order.price_ o) →
          side_levels sd (orderBook_ (engine s')) !! pr = side_levels sd b !! pr)).
Proof.
  intros Hreach Ho Hty Hsym. cbv zeta.
  destruct (reachable_engine_ok symbol s Hreach) as [Hwf Hok Hes Hbs].
  unfold submitOrder. rewrite Ho. simpl.
  rewrite Hsym, Hes, String.eqb_refl. simpl. rewrite Hty.
  rewrite (matchLimitOrder_exact fuel order o s Ho).
  destruct (Order.remainingQuantity_ o >? 0) eqn:Hrem; simpl.
  2:{ rewrite notifyTrades_nil. eexists. split; [done|]. simpl.
      split; [done|]. split; [done|]. split; [done|]. done. }
  destruct (OrderBook.orderMap_ (orderBook_ (engine s)) !! Order.id_ o) as [x|] eqn:Hidx.
  - rewrite (addOrder_refused (store s) order (orderBook_ (engine s)) o Ho)
      by (right; by eauto).
    simpl. rewrite notifyTrades_nil. eexists. split; [done|]. simpl.
    split; [done|]. split; [done|]. split; [done|]. done.
  - rewrite (addOrder_accepted (store s) order (orderBook_ (engine s)) o Ho);
      [|congruence|done|intros level; apply (lv_price _ _ Hok)].
    simpl. rewrite notifyTrades_nil. eexists. split; [done|]. simpl.
    split; [done|]. split; [done|]. split; [done|]. intros _.
    destruct (added_book_index (orderBook_ (engine s)) order o) as [Hmap _].
    unfold OrderBook.getOrder, queue_at. rewrite Hmap.
    split; [apply lookup_insert_eq|].
    rewrite added_book_lookup, decide_True by done. cbv zeta. simpl.
    split.
    + by destruct (side_levels (Order.side_ o) (orderBook_ (engine s)) !! Order.price_ o).
    + intros sd pr Hne. by rewrite added_book_lookup, decide_False.
Qed.

Lemma limit_order_rests_witness :
  let o := Order.make 1 "AAPL" SELL LIMIT 15000 100 in
  let s := (new_order o (fresh_engine "AAPL")).2 in
  ∃ s',
    submitOrder 3 1%positive s = Some ([], s') ∧
    store s' = store s ∧
    limitOrdersMatched (stats_ (engine s'))
    = u64 (limitOrdersMatched (stats_ (engine s)) + 1) ∧
    ((Order.remainingQuantity_ o >? 0)
     && bool_decide (OrderBook.orderMap_ (orderBook_ (engine s)) !! Order.id_ o = None)
     = false → orderBook_ (engine s') = orderBook_ (engine s)) ∧
    ((Order.remainingQuantity_ o >? 0)
     && bool_decide (OrderBook.orderMap_ (orderBook_ (engine s)) !! Order.id_ o = None)
     = true →
       OrderBook.getOrder (Order.id_ o) (orderBook_ (engine s')) = Some 1%positive ∧
       queue_at (Order.side_ o) (Order.price_ o) (orderBook_ (engine s'))
       = queue_at (Order.side_ o) (Order.price_ o) (orderBook_ (engine s))
         ++ [1%positive] ∧
       (∀ sd pr, ¬ (sd = Order.side_ o ∧ pr = Order.price_ o) →
          side_levels sd (orderBook_ (engine s')) !! pr
          = side_levels sd (orderBook_ (engine s)) !! pr)).
Proof.
  cbv zeta.
  apply (limit_order_rests "AAPL" 3 1%positive
           (Order.make 1 "AAPL" SELL LIMIT 15000 100)).
  - eapply rtc_l; [apply (step_new (Order.make 1 "AAPL" SELL LIMIT 15000 100))|].
    apply rtc_refl.
  - vm_compute. reflexivity.
  - reflexivity.
  - reflexivity.
Defined.

(** X15.  In every reachable state the index and the queues agree: an
    indexed handle is a live order with the indexed id and the engine's
    symbol, queued at the level of its own side and price and at no other
    level; every queued handle is a live order indexed under its id; and
    no queue holds a handle twice. *)
Theorem index_consistency symbol s :
  reachable symbol s →
  let b := orderBook_ (engine s) in
  (∀ orderId p, OrderBook.getOrder orderId b = Some p →
     ∃ o, store s !! p = Some o ∧ Order.id_ o = orderId ∧ Order.symbol_ o = symbol ∧
       p ∈ queue_at (Order.side_ o) (Order.price_ o) b ∧
       (∀ sd pr, p ∈ queue_at sd pr b → sd = Order.side_ o ∧ pr = Order.price_ o)) ∧
  (∀ sd pr p, p ∈ queue_at sd pr b →
     ∃ o, store s !! p = Some o ∧ OrderBook.getOrder (Order.id_ o) b = Some p) ∧
  (∀ sd pr, NoDup (queue_at sd pr b)).
Proof.
  intros Hreach. cbv zeta.
  destruct (reachable_engine_ok symbol s Hreach) as [Hwf Hok Hes Hbs].
  assert (∀ sd pr p, p ∈ queue_at sd pr (orderBook_ (engine s)) →
            ∃ level, side_levels sd (orderBook_ (engine s)) !! pr = Some level ∧
                     p ∈ PriceLevel.orders_ level) as Hq.
  { intros sd pr p Hp. unfold queue_at in Hp.
    destruct (side_levels sd (orderBook_ (engine s)) !! pr) as [level|];
      simpl in Hp; [by eauto | by apply elem_of_nil in Hp]. }
  split; [|split].
  - intros orderId p Hidx. unfold OrderBook.getOrder in Hidx.
    destruct (wf_index _ _ Hwf orderId p Hidx) as (o & level & Ho & Hid & Hl & Hin).
    exists o. split; [done|]. split; [done|].
    split; [rewrite <- Hbs; by eapply (lv_symbol _ _ Hok)|].
    split; [unfold queue_at; by rewrite Hl|].
    intros sd pr Hp. destruct (Hq sd pr p Hp) as (level' & Hl' & Hin').
    destruct (wf_level _ _ Hwf sd pr level' p Hl' Hin') as (o' & Ho' & _ & Hsd & Hpr).
    rewrite Ho in Ho'. by injection Ho' as <-.
  - intros sd pr p Hp. destruct (Hq sd pr p Hp) as (level & Hl & Hin).
    destruct (wf_level _ _ Hwf sd pr level p Hl Hin) as (o & Ho & Hidx & _).
    by exists o.
  - intros sd pr. unfold queue_at.
    destruct (side_levels sd (orderBook_ (engine s)) !! pr) as [level|] eqn:Hl; simpl.
    + by eapply (wf_nodup _ _ Hwf).
    + apply NoDup_nil_2.
Qed.

Lemma index_consistency_witness :
  ∃ trades s,
    simple_cross 3 = Some (trades, s) ∧
    (∀ orderId p, OrderBook.getOrder orderId (orderBook_ (engine s)) = Some p →
       ∃ o, store s !! p = Some o ∧ Order.id_ o = orderId ∧ Order.symbol_ o = "AAPL" ∧
         p ∈ queue_at (Order.side_ o) (Order.price_ o) (orderBook_ (engine s)) ∧
         (∀ sd pr, p ∈ queue_at sd pr (orderBook_ (engine s)) →
                   sd = Order.side_ o ∧ pr = Order.price_ o)) ∧
    (∀ sd pr p, p ∈ queue_at sd pr (orderBook_ (engine s)) →
       ∃ o, store s !! p = Some o ∧
            OrderBook.getOrder (Order.id_ o) (orderBook_ (engine s)) = Some p) ∧
    (∀ sd pr, NoDup (queue_at sd pr (orderBook_ (engine s)))).
Proof.
  do 2 eexists.
  match goal with
  | |- ?A ∧ _ => assert A as HA by (vm_compute; reflexivity)
  end.
  split; [exact HA|].
  exact (index_consistency "AAPL" _ (simple_cross_reachable _ _ _ HA)).
Defined.

(** X16.  In every reachable state no level is empty, every level is stored
    under its own price, and a level queues only live orders of its side,
    its price and the engine's symbol. *)
Theorem levels_well_kept symbol s sd pr level :
  reachable symbol s →
  side_levels sd (orderBook_ (engine s)) !! pr = Some level →
  PriceLevel.price_ level = pr ∧
  PriceLevel.orders_ level ≠ [] ∧
  ∀ p, p ∈ PriceLevel.orders_ level →
    ∃ o, store s !! p = Some o ∧ Order.side_ o = sd ∧ Order.price_ o = pr ∧
         Order.symbol_ o = symbol.
Proof.
  intros Hreach Hl.
  destruct (reachable_engine_ok symbol s Hreach) as [Hwf Hok Hes Hbs].
  split; [by eapply (lv_price _ _ Hok)|].
  split; [by eapply (lv_nonempty _ _ Hok)|].
  intros p Hp.
  destruct (wf_level _ _ Hwf sd pr level p Hl Hp) as (o & Ho & Hidx & Hsd & Hpr).
  exists o. repeat (split; [done|]).
  rewrite <- Hbs. by eapply (lv_symbol _ _ Hok).
Qed.

Lemma levels_well_kept_witness :
  ∃ trades s level,
    simple_cross 3 = Some (trades, s) ∧
    side_levels SELL (orderBook_ (engine s)) !! 15000 = Some level ∧
    PriceLevel.price_ level = 15000 ∧
    PriceLevel.orders_ level ≠ [] ∧
    ∀ p, p ∈ PriceLevel.orders_ level →
      ∃ o, store s !! p = Some o ∧ Order.side_ o = SELL ∧ Order.price_ o = 15000 ∧
           Order.symbol_ o = "AAPL".
Proof.
  do 3 eexists.
  match goal with
  | |- ?A ∧ _ => assert A as HA by (vm_compute; reflexivity)
  end.
  split; [exact HA|].
  match goal with
  | |- ?A ∧ _ => assert A as HB by (vm_compute; reflexivity)
  end.
  split; [exact HB|].
  exact (levels_well_kept "AAPL" _ SELL 15000 _ (simple_cross_reachable _ _ _ HA) HB).
Defined.

End engine_more.

(** ** One price level on its own *)

Section level_more.

(** The search by id looks at the ids of the queued orders and at nothing
    else of the store. *)
Lemma find_if_same_ids (h h' : heap) orderId (q : list positive) :
  (∀ p, p ∈ q → Order.id_ <$> h' !! p = Order.id_ <$> h !! p) →
  PriceLevel.find_if h' orderId q = PriceLevel.find_if h orderId q.
Proof.
  induction q as [|a q IH]; intros Hids; [done|]. simpl.
  pose proof (Hids a (list_elem_of_here _ _)) as Ha.
  rewrite IH by (intros p Hp; apply Hids; by right).
  destruct (h' !! a) as [oa'|], (h !! a) as [oa|]; simpl in Ha |- *; try done.
  by injection Ha as ->.
Qed.

(** An id that the queue does not have is found at the tail once an order
    with that id has been pushed. *)
Lemma find_if_pushed (h : heap) orderId (q : list positive) p o :
  PriceLevel.find_if h orderId q = Some None →
  h !! p = Some o → Order.id_ o = orderId →
  PriceLevel.find_if h orderId (q ++ [p]) = Some (Some (length q)).
Proof.
  intros Hq Hp Hid. induction q as [|a q IH]; simpl in Hq |- *.
  - rewrite Hp. simpl. apply Z.eqb_eq in Hid. by rewrite Hid.
  - destruct (h !! a) as [oa|]; simpl in Hq |- *; [|done].
    destruct (Order.id_ oa =? orderId); [done|].
    destruct (PriceLevel.find_if h orderId q) as [[i|]|]; simpl in Hq; try done.
    by rewrite IH.
Qed.

Lemma delete_pushed {A} (q : list A) x : delete (length q) (q ++ [x]) = q.
Proof. induction q as [|a q IH]; simpl; [done|]. by rewrite IH. Qed.

Lemma u64_add_sub a r : 0 ≤ a < 2 ^ 64 → u64 (u64 (a + r) - r) = a.
Proof.
  intros Ha. unfold u64. rewrite Zminus_mod_idemp_l.
  replace (a + r - r) with a by lia. by apply Z.mod_small.
Qed.

Lemma u64_sub_sub s r : u64 (u64 s - r) = u64 (s - r).
Proof. unfold u64. by rewrite Zminus_mod_idemp_l. Qed.

Lemma sum_remaining_fresh (h : heap) q p o' :
  p ∉ q → sum_remaining (<[p := o']> h) q = sum_remaining h q.
Proof.
  induction q as [|a q IH]; intros Hp; [done|]. simpl.
  apply not_elem_of_cons in Hp as [Hne Hp].
  by rewrite lookup_insert_ne, IH.
Qed.

(** The sum over a queue when the order at one of its handles changes. *)
Lemma sum_remaining_update (h : heap) q p o o' s :
  NoDup q → p ∈ q → h !! p = Some o →
  sum_remaining h q = Some s →
  sum_remaining (<[p := o']> h) q
  = Some (s - Order.remainingQuantity_ o + Order.remainingQuantity_ o').
Proof.
  intros Hnd Hin Ho. revert s.
  induction q as [|a q IH]; intros s Hs; [by apply elem_of_nil in Hin|].
  apply NoDup_cons in Hnd as [Ha Hnd]. simpl in Hs |- *.
  destruct (decide (a = p)) as [->|Hne].
  - rewrite lookup_insert_eq. simpl. rewrite sum_remaining_fresh by done.
    rewrite Ho in Hs. simpl in Hs.
    destruct (sum_remaining h q) as [r|]; simpl in Hs |- *; [|done].
    injection Hs as <-. f_equal. lia.
  - rewrite lookup_insert_ne by done.
    destruct (h !! a) as [oa|]; simpl in Hs |- *; [|done].
    destruct (sum_remaining h q) as [r|] eqn:Hr; simpl in Hs; [|done].
    apply elem_of_cons in Hin as [->|Hin]; [done|].
    rewrite (IH Hnd Hin r eq_refl). simpl. injection Hs as <-. f_equal. lia.
Qed.

(** The sum over a queue when one handle leaves it. *)
Lemma sum_remaining_delete (h : heap) q i p o s :
  q !! i = Some p → h !! p = Some o →
  sum_remaining h q = Some s →
  sum_remaining h (delete i q) = Some (s - Order.remainingQuantity_ o).
Proof.
  intros Hi Ho. revert i s Hi.
  induction q as [|a q IH]; intros i s Hi Hs; [done|].
  destruct i as [|i]; simpl in Hi, Hs |- *.
  - injection Hi as ->. rewrite Ho in Hs. simpl in Hs.
    destruct (sum_remaining h q) as [r|]; simpl in Hs; [|done].
    injection Hs as <-. f_equal. lia.
  - destruct (h !! a) as [oa|]; simpl in Hs |- *; [|done].
    destruct (sum_remaining h q) as [r|] eqn:Hr; simpl in Hs; [|done].
    rewrite (IH i r Hi eq_refl). simpl. injection Hs as <-. f_equal. lia.
Qed.

(** X17.  On one price level, adding an order and then removing it by id
    gives back the level as it was, queue and cached total: [addOrder]
    accepts a live order whose price is the level's, and, when no queued
    order had the id, [removeOrder] finds the order just pushed, takes it
    out of the queue and subtracts what it had added.  An order with
    another price makes [addOrder] throw, and an id the queue does not have
    makes [removeOrder] return false and leave the level alone. *)
Theorem level_add_then_remove (h : heap) order o (l : PriceLevel.t) :
  h !! order = Some o →
  0 ≤ PriceLevel.totalQuantity_ l < 2 ^ 64 →
  PriceLevel.find_if h (Order.id_ o) (PriceLevel.orders_ l) = Some None →
  PriceLevel.removeOrder h (Order.id_ o) l = Some (false, l) ∧
  (Order.price_ o ≠ PriceLevel.price_ l → PriceLevel.addOrder h order l = None) ∧
  (Order.price_ o = PriceLevel.price_ l →
   ∃ l', PriceLevel.addOrder h order l = Some l' ∧
         PriceLevel.orders_ l' = PriceLevel.orders_ l ++ [order] ∧
         PriceLevel.totalQuantity_ l'
         = u64 (PriceLevel.totalQuantity_ l + Order.remainingQuantity_ o) ∧
         PriceLevel.removeOrder h (Order.id_ o) l' = Some (true, l)).
Proof.
  intros Ho Ht Hfind. unfold PriceLevel.addOrder, PriceLevel.removeOrder.
  rewrite Ho, Hfind. simpl. split; [done|]. split.
  - intros Hne. apply Z.eqb_neq in Hne. by rewrite Hne.
  - intros Heq. apply Z.eqb_eq in Heq. rewrite Heq. simpl.
    eexists. split; [done|]. simpl. split; [done|]. split; [done|].
    rewrite (find_if_pushed h _ _ order o Hfind Ho eq_refl). simpl.
    rewrite lookup_app_r, Nat.sub_diag by done. simpl. rewrite Ho. simpl.
    rewrite delete_pushed, u64_add_sub by done. by destruct l.
Qed.

Lemma level_add_then_remove_witness :
  let first := Order.make 1 "AAPL" BUY LIMIT 15000 100 in
  let second := Order.make 2 "AAPL" BUY LIMIT 15000 200 in
  let h : heap := <[2%positive := second]> {[1%positive := first]} in
  let l := PriceLevel.mk 15000 100 [1%positive] in
  ∃ l', PriceLevel.addOrder h 2%positive l = Some l' ∧
        PriceLevel.orders_ l' = [1%positive; 2%positive] ∧
        PriceLevel.totalQuantity_ l' = 300 ∧
        PriceLevel.removeOrder h 2 l' = Some (true, l).
Proof.
  cbv zeta.
  destruct (level_add_then_remove
              (<[2%positive := Order.make 2 "AAPL" BUY LIMIT 15000 200]>
                 {[1%positive := Order.make 1 "AAPL" BUY LIMIT 15000 100]})
              2%positive (Order.make 2 "AAPL" BUY LIMIT 15000 200)
              (PriceLevel.mk 15000 100 [1%positive]))
    as (_ & _ & Hadd); [by vm_compute | simpl; lia | by vm_compute |].
  destruct Hadd as (l' & Ha & Hq & Ht & Hr); [done|].
  exists l'. split; [exact Ha|]. split; [exact Hq|]. split; [|exact Hr].
  etrans; [exact Ht|]. by vm_compute.
Defined.

(** X18.  A fill followed by [updateQuantity] keeps the cached total of a
    level exact.  Let the total of a level be the sum (mod 2^64) of the
    remaining quantities of its queue, whose handles are distinct, live and
    carry distinct ids.  After [fillQuantity qty] on a queued order, with
    qty no more than what remains of it, [updateQuantity] with the order's
    id and qty leaves a level whose total is again the sum of the remaining
    quantities of its queue; the order has left the queue if nothing
    remains of it and has kept its place otherwise. *)
Theorem updateQuantity_after_fill (h : heap) p o qty s (l : PriceLevel.t) :
  NoDup (PriceLevel.orders_ l) →
  p ∈ PriceLevel.orders_ l →
  h !! p = Some o →
  (∀ p', p' ∈ PriceLevel.orders_ l →
     ∃ o', h !! p' = Some o' ∧ (Order.id_ o' = Order.id_ o → p' = p)) →
  sum_remaining h (PriceLevel.orders_ l) = Some s →
  PriceLevel.totalQuantity_ l = u64 s →
  0 ≤ qty ≤ Order.remainingQuantity_ o →
  Order.remainingQuantity_ o < 2 ^ 64 →
  let h' := <[p := Order.fillQuantity qty o]> h in
  ∃ l',
    PriceLevel.updateQuantity h' (Order.id_ o) qty l = Some l' ∧
    PriceLevel.price_ l' = PriceLevel.price_ l ∧
    PriceLevel.orders_ l'
    = (if qty =? Order.remainingQuantity_ o
       then filter (λ p', p' ≠ p) (PriceLevel.orders_ l)
       else PriceLevel.orders_ l) ∧
    sum_remaining h' (PriceLevel.orders_ l') = Some (s - qty) ∧
    PriceLevel.totalQuantity_ l' = u64 (s - qty).
Proof.
  intros Hnd Hin Ho Hall Hs Ht Hqty Hrange. cbv zeta.
  destruct (find_if_index h (Order.id_ o) (PriceLevel.orders_ l) p Hin Hall)
    as (i & Hfind & Hi); [by eauto|].
  assert (Order.remainingQuantity_ (Order.fillQuantity qty o)
          = Order.remainingQuantity_ o - qty) as Hrem.
  { unfold Order.fillQuantity. simpl.
    replace (qty >? Order.remainingQuantity_ o) with false by lia.
    unfold u64. apply Z.mod_small. lia. }
  pose proof (sum_remaining_update h _ p o (Order.fillQuantity qty o) s Hnd Hin Ho Hs)
    as Hsum.
  rewrite Hrem in Hsum.
  replace (s - Order.remainingQuantity_ o + (Order.remainingQuantity_ o - qty))
    with (s - qty) in Hsum by lia.
  unfold PriceLevel.updateQuantity.
  rewrite (find_if_same_ids h), Hfind.
  2:{ intros p' _. destruct (decide (p' = p)) as [->|Hne].
      - by rewrite lookup_insert_eq, Ho.
      - by rewrite lookup_insert_ne. }
  simpl. rewrite Hi. simpl. rewrite lookup_insert_eq. simpl.
  eexists. split; [done|]. simpl. split; [done|].
  pose proof Hrem as Hrem'. unfold Order.fillQuantity in Hrem'. simpl in Hrem'.
  rewrite Hrem', Ht, u64_sub_sub.
  destruct (Z.eqb_spec qty (Order.remainingQuantity_ o)) as [Heq|Hne].
  - replace (Order.remainingQuantity_ o - qty =? 0) with true by lia.
    split; [by apply delete_index_filter|]. split; [|done].
    erewrite sum_remaining_delete; [|exact Hi|apply lookup_insert_eq|exact Hsum].
    rewrite ?Hrem, ?Hrem'. f_equal. lia.
  - replace (Order.remainingQuantity_ o - qty =? 0) with false by lia.
    done.
Qed.

Lemma updateQuantity_after_fill_witness :
  let first := Order.make 1 "AAPL" BUY LIMIT 15000 100 in
  let second := Order.make 2 "AAPL" BUY LIMIT 15000 200 in
  let h : heap := <[2%positive := second]> {[1%positive := first]} in
  let l := PriceLevel.mk 15000 300 [1%positive; 2%positive] in
  let h' := <[1%positive := Order.fillQuantity 100 first]> h in
  ∃ l', PriceLevel.updateQuantity h' 1 100 l = Some l' ∧
        PriceLevel.orders_ l' = [2%positive] ∧
        PriceLevel.totalQuantity_ l' = 200 ∧
        sum_remaining h' (PriceLevel.orders_ l') = Some 200.
Proof.
  cbv zeta.
  destruct (updateQuantity_after_fill
              (<[2%positive := Order.make 2 "AAPL" BUY LIMIT 15000 200]>
                 {[1%positive := Order.make 1 "AAPL" BUY LIMIT 15000 100]})
              1%positive (Order.make 1 "AAPL" BUY LIMIT 15000 100) 100 300
              (PriceLevel.mk 15000 300 [1%positive; 2%positive]))
    as (l' & Hu & _ & Hq & Hs & Ht).
  - simpl. apply NoDup_cons. split; [by intros ?%list_elem_of_singleton|].
    apply NoDup_singleton.
  - simpl. by left.
  - by vm_compute.
  - simpl. intros p' Hp'.
    apply elem_of_cons in Hp' as [->|Hp']; [eexists; split; [by vm_compute|done]|].
    apply list_elem_of_singleton in Hp' as ->.
    eexists. split; [by vm_compute|]. simpl. lia.
  - by vm_compute.
  - by vm_compute.
  - simpl. lia.
  - simpl. lia.
  - exists l'. split; [exact Hu|]. split; [etrans; [exact Hq|]; by vm_compute|].
    split; [etrans; [exact Ht|]; by vm_compute|]. exact Hs.
Defined.

End level_more.

(** ** Trades *)

(** X19.  The aggressor of a trade is one of its two orders: whichever
    side is named the aggressor, [involvesOrder] holds of the id
    [getAggressorOrderId] returns; [involvesOrder] holds of the buy and of
    the sell order and of no other id; and the two possible aggressors
    are the same id only for a trade of an order with itself. *)
Theorem aggressor_is_involved (tr : Trade.t) :
  (∀ buyWasAggressor,
     Trade.involvesOrder (Trade.getAggressorOrderId buyWasAggressor tr) tr = true) ∧
  (∀ orderId, Trade.involvesOrder orderId tr = true ↔
              orderId = Trade.buyOrderId_ tr ∨ orderId = Trade.sellOrderId_ tr) ∧
  (Trade.getAggressorOrderId true tr = Trade.getAggressorOrderId false tr ↔
   Trade.buyOrderId_ tr = Trade.sellOrderId_ tr).
Proof.
  unfold Trade.involvesOrder, Trade.getAggressorOrderId. split; [|split].
  - intros []; rewrite Z.eqb_refl; [done|]. apply orb_true_r.
  - intros orderId. rewrite orb_true_iff, !Z.eqb_eq. split; intros [?|?]; auto.
  - done.
Qed.

(** ** The risk manager: validation, position keeping and marking *)

Section risk_more.
Import RiskManager.

Lemma SFcompare_irrefl x : SFcompare x x ≠ Some Lt.
Proof.
  destruct x as [[]|[]| |[] m e]; simpl; try discriminate;
    rewrite Z.compare_refl, Pos.compare_cont_refl; simpl; discriminate.
Qed.

(** [a > a] is false on every [double], a NaN included. *)
Lemma dgt_irrefl a : dgt a a = false.
Proof.
  unfold dgt. rewrite ltb_spec. unfold SFltb.
  pose proof (SFcompare_irrefl (Prim2SF a)) as H.
  destruct (SFcompare (Prim2SF a) (Prim2SF a)) as [[]|]; congruence.
Qed.

(** The verdict depends on the manager through the limits, the three
    scalars and the position of the order's symbol only. *)
Lemma validateOrder_verdict_congr order p rm1 rm2 :
  limits_ rm1 = limits_ rm2 → dailyPnL_ rm1 = dailyPnL_ rm2 →
  peakEquity_ rm1 = peakEquity_ rm2 → currentEquity_ rm1 = currentEquity_ rm2 →
  getPosition (Order.symbol_ order) rm1 = getPosition (Order.symbol_ order) rm2 →
  (validateOrder order p rm1).1 = (validateOrder order p rm2).1.
Proof.
  intros Hl Hd Hpk Hc Hg. unfold validateOrder.
  unfold getPosition in Hg. rewrite <- !positions_at_fst in Hg.
  destruct (positions_at _ (positions_ rm1)) as [q1 ps1].
  destruct (positions_at _ (positions_ rm2)) as [q2 ps2]. simpl in Hg. subst q2.
  simpl. rewrite Hl, Hd, Hpk, Hc. by repeat case_match.
Qed.

(** The manager a validation leaves behind: the one it was given when the
    size or the value check rejects, the one with the looked-up entry
    otherwise. *)
Lemma validateOrder_state order p rm :
  (validateOrder order p rm).2
  = if (Order.quantity_ order >? maxOrderSize (limits_ rm))
       || dgt (PrimFloat.mul (Z2double (Order.quantity_ order)) (orderPrice order p))
              (maxOrderValue (limits_ rm))
    then rm
    else set_positions (positions_at (Order.symbol_ order) (positions_ rm)).2 rm.
Proof.
  unfold validateOrder.
  destruct (positions_at (Order.symbol_ order) (positions_ rm)) as [position ps].
  by repeat case_match.
Qed.

Lemma positions_at_idem sym ps :
  (positions_at sym (positions_at sym ps).2).2 = (positions_at sym ps).2.
Proof.
  unfold positions_at. destruct (ps !! sym) eqn:E; simpl.
  - by rewrite E.
  - by rewrite lookup_insert_eq.
Qed.

(** X20.  A validation never changes a later verdict: whatever order was
    validated before, at whatever price, the verdict on the next order is
    the one the manager would have given without it; and validating an
    order a second time leaves the manager as the first validation left
    it. *)
Theorem validateOrder_no_interference order1 price1 order2 price2 rm :
  (validateOrder order2 price2 (validateOrder order1 price1 rm).2).1
  = (validateOrder order2 price2 rm).1 ∧
  (validateOrder order1 price1 (validateOrder order1 price1 rm).2).2
  = (validateOrder order1 price1 rm).2.
Proof.
  destruct (validateOrder_frame order1 price1 rm) as (Hl & Hd & Hpk & Hc & Hg & _).
  cbv zeta in Hl, Hd, Hpk, Hc, Hg.
  split; [by apply validateOrder_verdict_congr|].
  rewrite (validateOrder_state order1 price1 (validateOrder order1 price1 rm).2).
  rewrite Hl. rewrite (validateOrder_state order1 price1 rm).
  destruct (_ || _); [done|].
  unfold set_positions. simpl. by rewrite positions_at_idem.
Qed.

(** X21.  The rate limit is never enforced: [validateOrder] returns
    REJECTED_RATE_LIMIT for no order, price and manager, and its verdict is
    the same whatever [maxOrdersPerSecond] is set to. *)
Theorem validateOrder_never_rate_limited order price rm :
  (validateOrder order price rm).1 ≠ REJECTED_RATE_LIMIT ∧
  ∀ rate,
    let l := limits_ rm in
    let l' := mkLimits (maxOrderSize l) (maxOrderValue l) (maxPositionSize l)
                (maxPositionValue l) (maxDailyLoss l) (maxDrawdown l) rate in
    (validateOrder order price (setLimits l' rm)).1 = (validateOrder order price rm).1.
Proof.
  split.
  - unfold validateOrder.
    destruct (positions_at (Order.symbol_ order) (positions_ rm)) as [position ps].
    by repeat case_match.
  - intros rate. cbv zeta. unfold validateOrder, setLimits. simpl.
    destruct (positions_at (Order.symbol_ order) (positions_ rm)) as [position ps].
    simpl. by repeat case_match.
Qed.

(** The table after [updatePosition]: the entry of the trade's symbol is
    (re)written, every other entry is as before. *)
Lemma updatePosition_table it tr side rm :
  limits_ (updatePosition it tr side rm) = limits_ rm ∧
  dom (positions_ (updatePosition it tr side rm))
  = {[Trade.symbol_ tr]} ∪ dom (positions_ rm) ∧
  ∀ other, other ≠ Trade.symbol_ tr →
    positions_ (updatePosition it tr side rm) !! other = positions_ rm !! other.
Proof.
  unfold updatePosition, positions_at.
  destruct (positions_ rm !! Trade.symbol_ tr) eqn:E;
    destruct (applyTrade _ _ _ _) as [position' pnl]; simpl.
  - split; [done|]. split; [apply dom_insert_L|].
    intros other Hne. by rewrite lookup_insert_ne.
  - split; [done|]. split; [rewrite insert_insert_eq; apply dom_insert_L|].
    intros other Hne. by rewrite !lookup_insert_ne.
Qed.

(** The bookkeeping part of [applyTrade]. *)
Lemma applyTrade_totals tradePrice q isBuy (p : Position) :
  let r := (applyTrade tradePrice q isBuy p).1 in
  symbol r = symbol p ∧ unrealizedPnL r = unrealizedPnL p ∧
  quantity r = i64 (if isBuy then quantity p + q else quantity p - q) ∧
  totalBought r = (if isBuy then u64 (totalBought p + q) else totalBought p) ∧
  totalSold r = (if isBuy then totalSold p else u64 (totalSold p + q)).
Proof.
  cbv zeta. unfold applyTrade.
  destruct isBuy; [destruct (quantity p >=? 0) | destruct (quantity p <=? 0)]; done.
Qed.

Lemma named_more sym (p : Position) :
  let named := if String.eqb (symbol p) "" then set_symbol sym p else p in
  symbol named = (if String.eqb (symbol p) "" then sym else symbol p) ∧
  unrealizedPnL named = unrealizedPnL p ∧
  totalBought named = totalBought p ∧ totalSold named = totalSold p.
Proof. cbv zeta. by destruct (String.eqb (symbol p) ""). Qed.

(** X22.  [updatePosition] touches the position of the trade's symbol and
    no other: the limits and every other entry are as before, the symbol
    has an entry afterwards, named after the trade's symbol if it had no
    name; the trade's quantity is added (mod 2^64) to totalBought when the
    aggressor bought and to totalSold when the aggressor sold, the signed
    quantity moves by it (wrapping as int64), and the unrealized profit is
    not recomputed. *)
Theorem updatePosition_frame it tr side rm :
  let sym := Trade.symbol_ tr in
  let q := Trade.quantity_ tr in
  let rm' := updatePosition it tr side rm in
  let before := getPosition sym rm in
  let after := getPosition sym rm' in
  limits_ rm' = limits_ rm ∧
  dom (positions_ rm') = {[sym]} ∪ dom (positions_ rm) ∧
  (∀ other, other ≠ sym → getPosition other rm' = getPosition other rm) ∧
  symbol after = (if String.eqb (symbol before) "" then sym else symbol before) ∧
  unrealizedPnL after = unrealizedPnL before ∧
  match side with
  | BUY => quantity after = i64 (quantity before + q) ∧
           totalBought after = u64 (totalBought before + q) ∧
           totalSold after = totalSold before
  | SELL => quantity after = i64 (quantity before - q) ∧
            totalSold after = u64 (totalSold before + q) ∧
            totalBought after = totalBought before
  end.
Proof.
  cbv zeta.
  destruct (updatePosition_table it tr side rm) as (Hl & Hdom & Hother).
  destruct (updatePosition_position it tr side rm) as [Hp _]. cbv zeta in Hp.
  destruct (named_fields (Trade.symbol_ tr) (getPosition (Trade.symbol_ tr) rm))
    as (Hnq & _ & _).
  destruct (named_more (Trade.symbol_ tr) (getPosition (Trade.symbol_ tr) rm))
    as (Hns & Hnu & Hnb & Hnso).
  cbv zeta in Hnq, Hns, Hnu, Hnb, Hnso.
  destruct (applyTrade_totals (priceToDouble (Trade.price_ tr)) (Trade.quantity_ tr)
              (bool_decide (side = BUY))
              (if String.eqb (symbol (getPosition (Trade.symbol_ tr) rm)) ""
               then set_symbol (Trade.symbol_ tr) (getPosition (Trade.symbol_ tr) rm)
               else getPosition (Trade.symbol_ tr) rm))
    as (Hs & Hu & Hq & Hb & Hso).
  cbv zeta in Hs, Hu, Hq, Hb, Hso.
  rewrite <- Hp in Hs, Hu, Hq, Hb, Hso.
  rewrite Hns in Hs. rewrite Hnu in Hu. rewrite Hnq in Hq. rewrite Hnb in Hb.
  rewrite Hnso in Hso.
  split; [done|]. split; [done|].
  split; [intros other Hne; unfold getPosition; by rewrite Hother|].
  split; [done|]. split; [done|].
  destruct side; simpl in Hq, Hb, Hso; done.
Qed.

(** X23.  After every [updatePosition] the current equity is the total
    profit [getTotalPnL] reports (the daily profit plus the unrealized
    profit of every position, added in the order in which the table is
    visited, whatever that order is), the peak is the old peak or, when the
    new equity is greater, the new equity, and the equity is never greater
    than the peak. *)
Theorem updatePosition_equity it tr side rm :
  let rm' := updatePosition it tr side rm in
  currentEquity_ rm' = getTotalPnL it rm' ∧
  peakEquity_ rm'
  = (if dgt (currentEquity_ rm') (peakEquity_ rm) then currentEquity_ rm'
     else peakEquity_ rm) ∧
  dgt (currentEquity_ rm') (peakEquity_ rm') = false.
Proof.
  cbv zeta. unfold updatePosition, getTotalPnL.
  destruct (positions_at (Trade.symbol_ tr) (positions_ rm)) as [position ps].
  destruct (applyTrade _ _ _ _) as [position' pnl]. simpl.
  split; [done|]. split; [done|].
  destruct (dgt _ (peakEquity_ rm)) eqn:E; [apply dgt_irrefl | exact E].
Qed.

Lemma applyTrade_sell_long tradePrice q (p : Position) :
  0 < quantity p < 2 ^ 63 → 0 < q < 2 ^ 63 →
  let r := applyTrade tradePrice q false p in
  let gain := PrimFloat.mul (Z2double (Z.min q (quantity p)))
                (PrimFloat.sub tradePrice (averagePrice p)) in
  quantity r.1 = quantity p - q ∧
  averagePrice r.1 = (if quantity p <? q then tradePrice else averagePrice p) ∧
  realizedPnL r.1 = PrimFloat.add (realizedPnL p) gain ∧
  r.2 = Some gain.
Proof.
  intros Hp Hq. cbv zeta. unfold applyTrade.
  replace (quantity p <=? 0) with false by lia. simpl.
  rewrite (i64_small q), (i64_small (quantity p - q)) by lia.
  split; [done|]. split; [|done].
  destruct (Z.ltb_spec (quantity p - q) 0), (Z.ltb_spec (quantity p) q); done || lia.
Qed.

Lemma applyTrade_buy_short tradePrice q (p : Position) :
  - 2 ^ 63 < quantity p < 0 → 0 < q < 2 ^ 63 →
  let r := applyTrade tradePrice q true p in
  let gain := PrimFloat.mul (Z2double (Z.min q (- quantity p)))
                (PrimFloat.sub (averagePrice p) tradePrice) in
  quantity r.1 = quantity p + q ∧
  averagePrice r.1 = (if - quantity p <? q then tradePrice else averagePrice p) ∧
  realizedPnL r.1 = PrimFloat.add (realizedPnL p) gain ∧
  r.2 = Some gain.
Proof.
  intros Hp Hq. cbv zeta. unfold applyTrade.
  replace (quantity p >=? 0) with false by lia. simpl.
  unfold abs64. rewrite (Z.abs_neq (quantity p)) by lia.
  rewrite (i64_small q), (i64_small (- quantity p)), (i64_small (quantity p + q)) by lia.
  split; [done|]. split; [|done].
  destruct (Z.gtb_spec (quantity p + q) 0), (Z.ltb_spec (- quantity p) q); done || lia.
Qed.

(** X24.  A trade against an open position realizes profit on the part it
    closes and on nothing more.  Selling q (0 < q < 2^63) against a long of
    n moves the quantity to n − q and adds min(q, n) × (price − average), in
    double arithmetic, to realizedPnL and to dailyPnL; the average price is
    kept while the position stays long or goes flat and becomes the trade
    price when it flips to short.  Buying against a short of n is the
    mirror image, with gain min(q, n) × (average − price). *)
Theorem updatePosition_closes it tr rm :
  let sym := Trade.symbol_ tr in
  let q := Trade.quantity_ tr in
  let price := priceToDouble (Trade.price_ tr) in
  let before := getPosition sym rm in
  0 < q < 2 ^ 63 →
  (0 < quantity before < 2 ^ 63 →
   let rm' := updatePosition it tr SELL rm in
   let after := getPosition sym rm' in
   let gain := PrimFloat.mul (Z2double (Z.min q (quantity before)))
                 (PrimFloat.sub price (averagePrice before)) in
   quantity after = quantity before - q ∧
   averagePrice after = (if quantity before <? q then price else averagePrice before) ∧
   realizedPnL after = PrimFloat.add (realizedPnL before) gain ∧
   dailyPnL_ rm' = PrimFloat.add (dailyPnL_ rm) gain) ∧
  (- 2 ^ 63 < quantity before < 0 →
   let rm' := updatePosition it tr BUY rm in
   let after := getPosition sym rm' in
   let gain := PrimFloat.mul (Z2double (Z.min q (- quantity before)))
                 (PrimFloat.sub (averagePrice before) price) in
   quantity after = quantity before + q ∧
   averagePrice after = (if - quantity before <? q then price else averagePrice before) ∧
   realizedPnL after = PrimFloat.add (realizedPnL before) gain ∧
   dailyPnL_ rm' = PrimFloat.add (dailyPnL_ rm) gain).
Proof.
  cbv zeta. intros Hq.
  destruct (named_fields (Trade.symbol_ tr) (getPosition (Trade.symbol_ tr) rm))
    as (Hnq & Hna & Hnr).
  cbv zeta in Hnq, Hna, Hnr.
  split; intros Hp.
  - destruct (updatePosition_position it tr SELL rm) as [Hp1 Hd1].
    cbv zeta in Hp1, Hd1. simpl in Hp1, Hd1.
    edestruct (applyTrade_sell_long (priceToDouble (Trade.price_ tr)) (Trade.quantity_ tr))
      as (Hrq & Hra & Hrr & Hrn); [by rewrite Hnq | done |].
    rewrite Hrn in Hd1. rewrite <- Hp1 in Hrq, Hra, Hrr.
    rewrite Hnq in Hrq. rewrite Hnq, Hna in Hra. rewrite Hnq, Hna, Hnr in Hrr.
    rewrite Hnq, Hna in Hd1.
    done.
  - destruct (updatePosition_position it tr BUY rm) as [Hp1 Hd1].
    cbv zeta in Hp1, Hd1. simpl in Hp1, Hd1.
    edestruct (applyTrade_buy_short (priceToDouble (Trade.price_ tr)) (Trade.quantity_ tr))
      as (Hrq & Hra & Hrr & Hrn); [by rewrite Hnq | done |].
    rewrite Hrn in Hd1. rewrite <- Hp1 in Hrq, Hra, Hrr.
    rewrite Hnq in Hrq. rewrite Hnq, Hna in Hra. rewrite Hnq, Hna, Hnr in Hrr.
    rewrite Hnq, Hna in Hd1.
    done.
Qed.

Lemma updatePosition_closes_witness :
  let rm := updatePosition key_order (Trade.mk 1 100 "AAPL" 15000 100) BUY
              (make RiskLimits_default) in
  let rm' := updatePosition key_order (Trade.mk 101 2 "AAPL" 15200 150) SELL rm in
  quantity (getPosition "AAPL" rm) = 100 ∧
  quantity (getPosition "AAPL" rm') = -50 ∧
  averagePrice (getPosition "AAPL" rm') = Z2double 152 ∧
  dailyPnL_ rm' = Z2double 200.
Proof.
  cbv zeta.
  destruct (updatePosition_closes key_order (Trade.mk 101 2 "AAPL" 15200 150)
              (updatePosition key_order (Trade.mk 1 100 "AAPL" 15000 100) BUY
                 (make RiskLimits_default))) as [Hsell _]; [simpl; lia|].
  destruct Hsell as (Hq & Ha & _ & Hd); [by vm_compute|].
  split; [by vm_compute|].
  split; [etrans; [exact Hq|]; by vm_compute|].
  split; [etrans; [exact Ha|]; by vm_compute|].
  etrans; [exact Hd|]. by vm_compute.
Defined.

(** X25.  [resetDaily] zeroes the daily profit and the realized profit of
    every position and nothing else: quantities, average prices, unrealized
    profits, totals and the set of symbols are kept, and so are the peak
    and the current equity, so that the drawdown [getCurrentDrawdown]
    reports is the one from before the reset.  Resetting twice is
    resetting once. *)
Theorem resetDaily_spec rm :
  let rm' := resetDaily rm in
  dailyPnL_ rm' = 0%float ∧
  limits_ rm' = limits_ rm ∧
  peakEquity_ rm' = peakEquity_ rm ∧
  currentEquity_ rm' = currentEquity_ rm ∧
  getCurrentDrawdown rm' = getCurrentDrawdown rm ∧
  dom (positions_ rm') = dom (positions_ rm) ∧
  (∀ sym, getPosition sym rm' = clearRealized (getPosition sym rm)) ∧
  (∀ sym, realizedPnL (getPosition sym rm') = 0%float) ∧
  resetDaily rm' = rm'.
Proof.
  cbv zeta.
  assert (∀ sym, getPosition sym (resetDaily rm) = clearRealized (getPosition sym rm))
    as Hget.
  { intros sym. unfold getPosition, resetDaily. simpl. rewrite lookup_fmap.
    by destruct (positions_ rm !! sym). }
  split; [done|]. split; [done|]. split; [done|]. split; [done|]. split; [done|].
  split; [unfold resetDaily; simpl; apply dom_fmap_L|].
  split; [done|]. split; [intros sym; by rewrite Hget|].
  unfold resetDaily. simpl. f_equal.
  rewrite <- map_fmap_compose. apply map_fmap_ext. by intros sym [].
Qed.

(** X26.  [updateUnrealizedPnL] never adds an entry: for a symbol without a
    position the manager is left as it is.  For a symbol with a position,
    only the unrealized profit of that position changes, to
    quantity × (price − average) in double arithmetic, and to 0 when the
    position is flat; the current and the peak equity are not refreshed;
    and of two marks in a row only the last one counts. *)
Theorem updateUnrealizedPnL_spec sym price rm :
  let rm' := updateUnrealizedPnL sym price rm in
  (positions_ rm !! sym = None → rm' = rm) ∧
  dom (positions_ rm') = dom (positions_ rm) ∧
  (∀ other, other ≠ sym → getPosition other rm' = getPosition other rm) ∧
  getPosition sym rm' = markPosition price (getPosition sym rm) ∧
  (quantity (getPosition sym rm) = 0 → unrealizedPnL (getPosition sym rm') = 0%float) ∧
  currentEquity_ rm' = currentEquity_ rm ∧ peakEquity_ rm' = peakEquity_ rm ∧
  dailyPnL_ rm' = dailyPnL_ rm ∧
  ∀ earlier, updateUnrealizedPnL sym price (updateUnrealizedPnL sym earlier rm) = rm'.
Proof.
  cbv zeta. unfold updateUnrealizedPnL, getPosition.
  destruct (positions_ rm !! sym) as [p|] eqn:E; simpl.
  - split; [done|].
    split; [apply dom_insert_lookup_L; by rewrite E|].
    split; [intros other Hne; by rewrite lookup_insert_ne|].
    rewrite lookup_insert_eq. simpl. split; [done|].
    split; [intros Hflat; by rewrite Hflat|].
    split; [done|]. split; [done|]. split; [done|].
    intros earlier. rewrite lookup_insert_eq. unfold set_positions. simpl.
    by rewrite insert_insert_eq.
  - rewrite E. simpl. repeat (split; [done|]). done.
Qed.

End risk_more.

(** ** The summaries of a book *)

Section book_summaries.
Import OrderBook.

Lemma head_in_order_None (before : Z → Z → bool) (m : gmap Z PriceLevel.t) :
  (∀ x y z, before x y = true → before y z = true → before x z = true) →
  (∀ x y, x ≠ y → before x y = false → before y x = true) →
  head (in_order before m) = None ↔ m = ∅.
Proof.
  intros Htr Htot. pose proof (in_order_head before Htr Htot m) as H.
  destruct (head (in_order before m)) as [kv|]; [|done].
  destruct H as [Hkv _]. split; [done|]. intros ->. by rewrite lookup_empty in Hkv.
Qed.

Lemma foldl_depth (l : list (Z * PriceLevel.t)) (start : Z) :
  foldl (λ total kv, u64 (total + PriceLevel.getTotalQuantity kv.2)) start l
  = foldl (λ total d, u64 (total + quantity d)) start (depth_of <$> l).
Proof. revert start. induction l as [|kv l IH]; intros start; simpl; [done|apply IH]. Qed.

Lemma full_depth_view (before : Z → Z → bool) (m : gmap Z PriceLevel.t) extra :
  (∀ x y z, before x y = true → before y z = true → before x z = true) →
  (∀ x y, x ≠ y → before x y = false → before y x = true) →
  let depth := depth_of <$> take (size m + extra) (in_order before m) in
  length depth = size m ∧
  (∀ p, is_Some (m !! p) → ∃ d, d ∈ depth ∧ price d = p) ∧
  foldl (λ total kv, u64 (total + PriceLevel.getTotalQuantity kv.2)) 0
    (in_order before m)
  = foldl (λ total d, u64 (total + quantity d)) 0 depth.
Proof.
  intros Htr Htot. cbv zeta.
  destruct (in_order_spec before Htr Htot m) as (Hel & Hlen & _).
  rewrite take_ge by (rewrite Hlen; lia).
  split; [by rewrite length_fmap|]. split; [|apply foldl_depth].
  intros p [level Hp]. exists (depth_of (p, level)). split; [|done].
  apply list_elem_of_fmap. exists (p, level). split; [done|]. by apply Hel.
Qed.

(** X27.  The summaries of a book agree with each other.  [getSpread] and
    [getMidPrice] are empty exactly when one side of the book has no level;
    a spread is the best ask minus the best bid (wrapped to int64), and no
    ask level and bid level are closer to each other than these two.  A
    depth view asked for at least as many levels as the side has lists
    every level of the side; the level counts of [getStats] are the lengths
    of these full views, which are the numbers of levels of the two sides,
    and its total quantities are the sums (mod 2^64) of their quantity
    columns. *)
Theorem book_summaries_agree b :
  (getSpread b = None ↔ bids_ b = ∅ ∨ asks_ b = ∅) ∧
  (getMidPrice b = None ↔ getSpread b = None) ∧
  (∀ d, getSpread b = Some d →
     ∃ bid ask, getBestBid b = Some bid ∧ getBestAsk b = Some ask ∧
       d = i64 (ask - bid) ∧
       ∀ p p', is_Some (bids_ b !! p) → is_Some (asks_ b !! p') →
               ask - bid ≤ p' - p) ∧
  (∀ extra,
     let full := getBidDepth (size (bids_ b) + extra) b in
     (∀ p, is_Some (bids_ b !! p) → ∃ d, d ∈ full ∧ price d = p) ∧
     length full = size (bids_ b) ∧
     bidLevels (getStats b) = length full ∧
     totalBidQty (getStats b) = foldl (λ total d, u64 (total + quantity d)) 0 full) ∧
  (∀ extra,
     let full := getAskDepth (size (asks_ b) + extra) b in
     (∀ p, is_Some (asks_ b !! p) → ∃ d, d ∈ full ∧ price d = p) ∧
     length full = size (asks_ b) ∧
     askLevels (getStats b) = length full ∧
     totalAskQty (getStats b) = foldl (λ total d, u64 (total + quantity d)) 0 full).
Proof.
  pose proof (head_in_order_None Z.gtb (bids_ b) gtb_trans gtb_total) as Hbid.
  pose proof (head_in_order_None Z.ltb (asks_ b) ltb_trans ltb_total) as Hask.
  pose proof (in_order_head Z.gtb gtb_trans gtb_total (bids_ b)) as Hb.
  pose proof (in_order_head Z.ltb ltb_trans ltb_total (asks_ b)) as Ha.
  split; [|split; [|split; [|split]]].
  - unfold getSpread, getBestBid, getBestAsk, bids_in_order, asks_in_order.
    destruct (head (in_order Z.gtb (bids_ b))) as [[bid lb]|]; simpl.
    + destruct (head (in_order Z.ltb (asks_ b))) as [[ask la]|]; simpl.
      * split; [done|]. intros [H|H]; [by apply Hbid in H | by apply Hask in H].
      * split; [|done]. intros _. right. by apply Hask.
    + split; [|done]. intros _. left. by apply Hbid.
  - unfold getSpread, getMidPrice, getBestBid, getBestAsk, bids_in_order, asks_in_order.
    destruct (head (in_order Z.gtb (bids_ b))) as [[bid lb]|]; simpl; [|done].
    by destruct (head (in_order Z.ltb (asks_ b))) as [[ask la]|].
  - unfold getSpread, getBestBid, getBestAsk, bids_in_order, asks_in_order.
    intros d.
    destruct (head (in_order Z.gtb (bids_ b))) as [[bid lb]|]; simpl; [|done].
    destruct (head (in_order Z.ltb (asks_ b))) as [[ask la]|]; simpl; [|done].
    intros [= <-]. exists bid, ask. split; [done|]. split; [done|]. split; [done|].
    simpl in Hb, Ha. destruct Hb as [_ Hmax], Ha as [_ Hmin].
    intros p p' Hp Hp'.
    assert (p ≤ bid).
    { destruct (decide (p = bid)) as [->|Hne]; [lia|].
      specialize (Hmax p Hp Hne). lia. }
    assert (ask ≤ p').
    { destruct (decide (p' = ask)) as [->|Hne]; [lia|].
      specialize (Hmin p' Hp' Hne). lia. }
    lia.
  - intros extra. cbv zeta.
    destruct (full_depth_view Z.gtb (bids_ b) extra gtb_trans gtb_total)
      as (Hlen & Hall & Hsum).
    unfold getStats, getBidDepth, getTotalBidQuantity, bids_in_order. simpl.
    by rewrite Hlen.
  - intros extra. cbv zeta.
    destruct (full_depth_view Z.ltb (asks_ b) extra ltb_trans ltb_total)
      as (Hlen & Hall & Hsum).
    unfold getStats, getAskDepth, getTotalAskQuantity, asks_in_order. simpl.
    by rewrite Hlen.
Qed.

End book_summaries.
